(** * netbox_init.py: bootstrap reconciliation and restore orchestration

    A shallow embedding of [netbox/scripts/netbox_init.py] and the
    properties of its four components: plugin discovery and registration,
    the package-install gate, backup selection and restore, and the
    resource reconciler.

    Conventions.  Python dicts whose iteration order is observable are
    association lists in insertion order; a dict used only for membership
    and lookup is a [gmap].  A call that may raise returns a sum or an
    option; [try]/[except] blocks are written out where the source has
    them.  External collaborators (the file system, [run_process], the
    remote API, [packaging.version.Version], the builtin [sorted]) are
    parameters. *)

From stdpp Require Import base option list strings gmap sorting.
From Stdlib Require Import ZArith Lia Ascii.

Set Warnings "-register-all".

Local Open Scope string_scope.
Local Open Scope Z_scope.
Local Open Scope list_scope.

(** ** Python syntax trees, as far as the script inspects them *)

Module Ast.

(** Values of [ast.Constant]. *)
Inductive constant :=
| CStr (s : string)
| CInt (z : Z)
| CNone.

#[global] Instance constant_eq_dec : EqDecision constant.
Proof. solve_decision. Defined.

(** Expressions.  Only [ast.Name] has an [id] attribute. *)
Inductive expr :=
| Name (id : string)
| Constant (value : constant)
| Attribute (value : expr) (attr : string)
| List (elts : list expr)
| OtherExpr (src : string).

(** Statements.  [ast.parse] gives every [ast.Assign] at least one target,
    so [targets[0]] is a field of its own.  [Compound] stands for every
    other statement that nests statements ([def], [if], [for], [with], ...),
    reduced to its header and the statements nested in it. *)
Inductive stmt :=
| Assign (target0 : expr) (targets : list expr) (value : expr)
| ClassDef (name : string) (bases : list expr) (body : list stmt)
| Compound (head : string) (body : list stmt)
| OtherStmt (src : string).

(** A source file: statements interleaved with what the tokenizer discards.
    [ast.parse] keeps the statements only, [ast.unparse] prints a tree one
    statement after the other in its own layout. *)
Inductive src_item :=
| SrcComment (text : string)
| SrcBlank
| SrcStmt (s : stmt).

Definition source := list src_item.

Definition ast_parse (code : source) : list stmt :=
  omap (fun i => match i with SrcStmt s => Some s | _ => None end) code.

Definition ast_unparse (body : list stmt) : source := SrcStmt <$> body.

End Ast.

Import Ast.

(** ** Plugin discovery (lines 429-453) *)

Module Discovery.

(** [baseClass.id == 'PluginConfig']; [None] is the [AttributeError] of a
    base that is not an [ast.Name]. *)
Definition base_is_PluginConfig (baseClass : expr) : option bool :=
  match baseClass with
  | Name id => Some (bool_decide (id = "PluginConfig"))
  | _ => None
  end.

(** [any([baseClass.id == 'PluginConfig' for baseClass in c.bases])]: the
    list is built in full before [any] looks at it. *)
Definition any_base_PluginConfig (bases : list expr) : option bool :=
  existsb id <$> mapM base_is_PluginConfig bases.

(** The [for target in item.targets] loop of one class member. *)
Definition names_of_item (item : stmt) : list constant :=
  match item with
  | Assign target0 targets value =>
      flat_map (fun target =>
                  match target with
                  | Name id =>
                      if bool_decide (id = "name")
                      then match value with
                           | Constant v => [v]
                           | _ => []
                           end
                      else []
                  | _ => []
                  end) (target0 :: targets)
  | _ => []
  end.

Definition names_of_class_body (body : list stmt) : list constant :=
  flat_map names_of_item body.

(** [[n for n in node.body if isinstance(n, ast.ClassDef)]]. *)
Definition is_ClassDef (n : stmt) : bool :=
  match n with ClassDef _ _ _ => true | _ => false end.

Definition classes_of (body : list stmt) : list stmt :=
  List.filter is_ClassDef body.

(** The loop over the classes of one file.  [pluginNames] is the list that
    the whole scan shares; the boolean tells whether an exception left the
    loop. *)
Fixpoint scan_classes (classes : list stmt) (pluginNames : list constant)
  : list constant * bool :=
  match classes with
  | [] => (pluginNames, false)
  | ClassDef _ bases body :: rest =>
      match any_base_PluginConfig bases with
      | None => (pluginNames, true)
      | Some true => scan_classes rest (pluginNames ++ names_of_class_body body)
      | Some false => scan_classes rest pluginNames
      end
  | _ :: rest => scan_classes rest pluginNames
  end.

(** A candidate [__init__.py] reported by the file search: whether it is a
    regular file, and its tree ([None]: reading or parsing it raises). *)
Record candidate := {
  cand_name : string;
  cand_isfile : bool;
  cand_tree : option (list stmt);
}.

Inductive log_entry :=
| LogError (context : string).

(** The body of the [try] for one candidate, with its [except]. *)
Definition scan_file (c : candidate) (pluginNames : list constant)
  : list constant * list log_entry :=
  if cand_isfile c then
    match cand_tree c with
    | None => (pluginNames, [LogError (cand_name c)])
    | Some body =>
        let '(names, raised) := scan_classes (classes_of body) pluginNames in
        (names, if raised then [LogError (cand_name c)] else [])
    end
  else (pluginNames, []).

Fixpoint scan_files (results : list candidate) (pluginNames : list constant)
  : list constant * list log_entry :=
  match results with
  | [] => (pluginNames, [])
  | c :: rest =>
      let '(names, log) := scan_file c pluginNames in
      let '(names', log') := scan_files rest names in
      (names', log ++ log')
  end.

End Discovery.

(** ** Registration-file update (lines 455-500) *)

Module Registrar.

(** [{elt.s for elt in node.value.elts if isinstance(elt, ast.Str)}] *)
Definition existingPlugins (elts : list expr) : list string :=
  omap (fun elt => match elt with Constant (CStr s) => Some s | _ => None end) elts.

(** [plugin not in existingPlugins]: the set holds strings only. *)
Definition not_in_existing (existing : list string) (plugin : constant) : bool :=
  match plugin with
  | CStr s => negb (bool_decide (s ∈ existing))
  | _ => true
  end.

Definition missing_plugins (pluginNames : list constant) (elts : list expr)
  : list constant :=
  List.filter (not_in_existing (existingPlugins elts)) pluginNames.

(** [PluginListModifier.visit_Assign].  The second component is what the
    method stores in the module-level name [pluginsListFound] (declared
    [global] in the method): [true] when it assigns, [false] when it leaves
    the global as it was. *)
Definition visit_Assign (pluginNames : list constant)
    (target0 : expr) (targets : list expr) (value : expr) : stmt * bool :=
  match target0 with
  | Name id =>
      if bool_decide (id = "PLUGINS") then
        match value with
        | List elts =>
            (Assign target0 targets
               (List (elts ++ (Constant <$> missing_plugins pluginNames elts))),
             true)
        | _ => (Assign target0 targets value, true)
        end
      else (Assign target0 targets value, false)
  | _ => (Assign target0 targets value, false)
  end.

(** [NodeTransformer.visit]: [visit_Assign] on every [ast.Assign],
    [generic_visit] (which descends into nested statements) elsewhere. *)
Fixpoint visit (pluginNames : list constant) (node : stmt) : stmt :=
  match node with
  | Assign target0 targets value =>
      fst (visit_Assign pluginNames target0 targets value)
  | ClassDef name bases body => ClassDef name bases (visit pluginNames <$> body)
  | Compound head body => Compound head (visit pluginNames <$> body)
  | OtherStmt src => OtherStmt src
  end.

(** Whether some visited [ast.Assign] stored [True] in the global. *)
Fixpoint sets_global (node : stmt) : bool :=
  match node with
  | Assign (Name id) _ _ => bool_decide (id = "PLUGINS")
  | Assign _ _ _ => false
  | ClassDef _ _ body => existsb sets_global body
  | Compound _ body => existsb sets_global body
  | OtherStmt _ => false
  end.

(** The names the block reads and writes: [pluginsListFound] of [main]
    (a local, since [main] assigns it) and the module-level global of the
    same name, which only [visit_Assign] writes. *)
Record flags := {
  local_pluginsListFound : bool;
  global_pluginsListFound : option bool;
}.

Definition PLUGINS_assignment (pluginNames : list constant) : stmt :=
  Assign (Name "PLUGINS") [] (List (Constant <$> pluginNames)).

(** Lines 461-500 on the parsed file, with the global's value on entry.
    [pluginNames] is the list after [list(set(pluginNames))]. *)
Definition modify_tree (pluginNames : list constant) (g : option bool)
    (tree : list stmt) : list stmt * flags :=
  let pluginsListFound := false in
  let modifiedTree := visit pluginNames <$> tree in
  let g' := if existsb sets_global tree then Some true else g in
  let fl := {| local_pluginsListFound := pluginsListFound;
               global_pluginsListFound := g' |} in
  if negb pluginsListFound
  then (modifiedTree ++ [PLUGINS_assignment pluginNames], fl)
  else (modifiedTree, fl).

(** The file as rewritten; nothing is written when no name was discovered. *)
Definition update_plugins_file (pluginNames : list constant) (code : source)
  : source :=
  match pluginNames with
  | [] => code
  | _ => ast_unparse (fst (modify_tree pluginNames None (ast_parse code)))
  end.

End Registrar.

(** ** Python dicts in insertion order *)

Module Dict.

Section Dict.
Context {K V : Type} `{EqDecision K}.

(** [d[k] = v]: an existing key keeps its position. *)
Fixpoint set (k : K) (v : V) (d : list (K * V)) : list (K * V) :=
  match d with
  | [] => [(k, v)]
  | (k', v') :: d' =>
      if decide (k = k') then (k', v) :: d' else (k', v') :: set k v d'
  end.

(** [{k: v for k, v in items}] *)
Definition of_items (items : list (K * V)) : list (K * V) :=
  foldl (fun d kv => set kv.1 kv.2 d) [] items.

Definition keys (d : list (K * V)) : list K := fst <$> d.
Definition values (d : list (K * V)) : list V := snd <$> d.

(** [k in d] *)
Definition mem (k : K) (d : list (K * V)) : bool := bool_decide (k ∈ keys d).

(** [d[k]], [None] standing for [KeyError]. *)
Fixpoint get (k : K) (d : list (K * V)) : option V :=
  match d with
  | [] => None
  | (k', v) :: d' => if decide (k = k') then Some v else get k d'
  end.
End Dict.

End Dict.

(** ** Package install gate (lines 96-166) *)

Module InstallGate.

(** An entry of [pip list --format json]. *)
Record package := {
  pkg_version : string;
  pkg_location : option string;
}.

(** An entry of the dry-run report's [install] list, as [deep_get] reads it:
    [None] where the key is missing. *)
Record installItem := {
  metadata_name : option string;
  metadata_version : option string;
}.

(** What the dry run left behind: the exit status of pip, whether the
    report file exists, and the report as loaded ([None]: the loader gave
    [None], on which [.get] raises). *)
Record dryRun := {
  dry_err : Z;
  dry_report_isfile : bool;
  dry_report : option (list installItem);
}.

(** Truth value of a dict key that is a string or [None]. *)
Definition truthy (package_name : option string) : bool :=
  match package_name with
  | Some s => negb (bool_decide (s = ""))
  | None => false
  end.

Section Gate.
(** [packaging.version.Version]: the parser ([None] when it raises) and
    its [>]. *)
Context {version : Type}.
Variable Version : option string -> option version.
Variable version_gt : version -> version -> bool.

Variable preinstalledPackagesDict : gmap string package.

(** [package_name not in preinstalledPackagesDict] *)
Definition not_installed (package_name : option string) : bool :=
  match package_name with
  | Some n => bool_decide (preinstalledPackagesDict !! n = None)
  | None => true
  end.

(** The condition of the comprehension for one item of
    [wouldInstallInfo]; [None] when a [Version(...)] raises. *)
Definition item_needs_install (package_name new_version : option string)
  : option bool :=
  match package_name with
  | None => Some true
  | Some n =>
      match preinstalledPackagesDict !! n with
      | None => Some true
      | Some p =>
          new ← Version new_version;
          old ← Version (Some (pkg_version p));
          Some (version_gt new old)
      end
  end.

Definition wouldInstallInfo (report : list installItem)
  : list (option string * option string) :=
  Dict.of_items ((fun i => (metadata_name i, metadata_version i)) <$> report).

(** [any([package_name for ... if ...])]: the list holds the names. *)
Definition any_selected (info : list (option string * option string))
  : option bool :=
  conds ← mapM (fun kv => item_needs_install kv.1 kv.2) info;
  Some (existsb truthy (fst <$> List.filter snd (zip (fst <$> info) conds))).

(** The value of [pluginNeedsInstall] after the dry run; [None] when the
    block raises. *)
Definition pluginNeedsInstall (dry : dryRun) : option bool :=
  if bool_decide (dry_err dry = 0) && dry_report_isfile dry then
    report ← dry_report dry;
    any_selected (wouldInstallInfo report)
  else Some true.

(** The function's result, given the exit status of the real install. *)
Definition InstallPackageDirIfNeeded (dry : dryRun) (install_err : Z)
  : option bool :=
  needs ← pluginNeedsInstall dry;
  Some (if needs : bool then bool_decide (install_err = 0) else false).
End Gate.

(** The final-release fragment of PEP 440 ([N(.N)*]), enough to run the
    gate on concrete reports: release segments compared as numbers, a
    shorter release padded with zeros. *)
Module Release.

Definition digit (c : ascii) : option N :=
  let n := N_of_ascii c in
  if ((48 <=? n) && (n <=? 57))%N then Some (n - 48)%N else None.

Fixpoint segments (s : string) (cur : option N) : option (list N) :=
  match s with
  | EmptyString => (fun n => [n]) <$> cur
  | String c s' =>
      if bool_decide (c = "."%char) then
        n ← cur; (cons n) <$> segments s' None
      else
        d ← digit c;
        segments s' (Some (10 * default 0%N cur + d)%N)
  end.

Definition Version (s : option string) : option (list N) :=
  s' ← s; segments s' None.

Fixpoint gt (a b : list N) : bool :=
  match a, b with
  | [], [] => false
  | [], y :: b' => false
  | x :: a', [] => (0 <? x)%N || gt a' []
  | x :: a', y :: b' =>
      if (y <? x)%N then true else if (x <? y)%N then false else gt a' b'
  end.

End Release.

End InstallGate.

(** ** Strings and paths ([str.endswith], [os.path.join], [os.path.splitext]) *)

Module Path.

Definition endswith (s suffix : string) : bool :=
  let n := String.length s in
  let m := String.length suffix in
  (m <=? n)%nat && String.eqb (String.substring (n - m) m s) suffix.

Definition startswith (s pre : string) : bool := String.prefix pre s.

(** [os.path.join a b] for two components. *)
Definition join (a b : string) : string :=
  if startswith b "/" then b
  else if bool_decide (a = "") || endswith a "/" then a +:+ b
  else a +:+ "/" +:+ b.

(** [s.rfind(c)] as the number of characters before the last [c]. *)
Fixpoint rfind (c : ascii) (s : string) : option nat :=
  match s with
  | EmptyString => None
  | String c' s' =>
      match rfind c s' with
      | Some i => Some (S i)
      | None => if bool_decide (c = c') then Some 0%nat else None
      end
  end.

(** Whether some character of [s] from position [i] up to (not including)
    position [j] differs from a dot. *)
Fixpoint has_non_dot (s : string) (i j : nat) : bool :=
  match s with
  | EmptyString => false
  | String c s' =>
      match j with
      | O => false
      | S j' =>
          match i with
          | O => negb (bool_decide (c = "."%char)) || has_non_dot s' 0 j'
          | S i' => has_non_dot s' i' j'
          end
      end
  end.

(** [os.path.splitext(p)[0]]: the extension starts at the last dot of the
    last component, unless only dots precede it there. *)
Definition splitext_root (p : string) : string :=
  match rfind "." p with
  | None => p
  | Some dotIndex =>
      let filenameIndex :=
        match rfind "/" p with Some sepIndex => S sepIndex | None => 0%nat end in
      if (filenameIndex <=? dotIndex)%nat && has_non_dot p filenameIndex dotIndex
      then String.substring 0 dotIndex p
      else p
  end.

End Path.

(** ** Backup artifact selection (lines 506-515) *)

Module Backup.

(** The file system as the script queries it.  [glob] is [glob.glob]: the
    paths that match a pattern, in the order the directory is read. *)
Record filesystem := {
  regular_file : string -> bool;
  directory : string -> bool;
  glob : string -> list string;
  getmtime : string -> Z;
}.

(** [os.path.isfile] and [os.path.isdir]: the empty path names nothing. *)
Definition isfile (fs : filesystem) (p : string) : bool :=
  negb (bool_decide (p = "")) && regular_file fs p.

Definition isdir (fs : filesystem) (p : string) : bool :=
  negb (bool_decide (p = "")) && directory fs p.

(** [list.sort(key=...)]: stable, ascending in the key. *)
Section Sort.
Context {A : Type} (key : A -> Z).

Fixpoint insert_sorted (x : A) (l : list A) : list A :=
  match l with
  | [] => [x]
  | y :: l' => if key x <? key y then x :: y :: l' else y :: insert_sorted x l'
  end.

Definition sort_by_key (l : list A) : list A :=
  foldl (fun acc x => insert_sorted x acc) [] l.
End Sort.

(** The list comprehension of lines 509-513. *)
Definition preloadFiles (fs : filesystem) (preloadDir : string) : list string :=
  List.filter (fun x => negb (Path.endswith x ".media.tar.gz"))
    (List.filter (isfile fs) (glob fs (Path.join preloadDir "*.gz"))).

(** The value of [preloadDatabaseFile] when line 517 tests it. *)
Definition select_preloadDatabaseFile (fs : filesystem)
    (preloadBackupFile preloadDir : string) : string :=
  if negb (isfile fs preloadBackupFile) && isdir fs preloadDir then
    hd "" (sort_by_key (getmtime fs) (preloadFiles fs preloadDir))
  else preloadBackupFile.

End Backup.

(** ** State and exceptions *)

Module Exn.

Inductive result (A : Type) :=
| Ok (a : A)
| Raised (e : string).
Arguments Ok {A} a.
Arguments Raised {A} e.

(** A computation over a mutable state; the state survives an exception. *)
Definition M (S A : Type) : Type := S -> result A * S.

Definition ret {S A} (a : A) : M S A := fun s => (Ok a, s).

Definition bind {S A B} (m : M S A) (k : A -> M S B) : M S B :=
  fun s => match m s with
           | (Ok a, s') => k a s'
           | (Raised e, s') => (Raised e, s')
           end.

Definition raise {S A} (e : string) : M S A := fun s => (Raised e, s).

(** [try: body except Exception: handler] *)
Definition try_except {S A} (body : M S A) (handler : string -> M S A) : M S A :=
  fun s => match body s with
           | (Ok a, s') => (Ok a, s')
           | (Raised e, s') => handler e s'
           end.

Definition get {S} : M S S := fun s => (Ok s, s).
Definition modify {S} (f : S -> S) : M S unit := fun s => (Ok tt, f s).

(** [for x in l: body x] *)
Fixpoint for_each {S A} (l : list A) (body : A -> M S unit) : M S unit :=
  match l with
  | [] => ret tt
  | x :: l' => bind (body x) (fun _ => for_each l' body)
  end.

Definition when {S} (b : bool) (m : M S unit) : M S unit :=
  if b then m else ret tt.

End Exn.

Import Exn.

Notation "'let*' x ':=' c 'in' k" := (Exn.bind c (fun x => k))
  (at level 10, x pattern, c at level 100, k at level 200, only parsing).
Notation "c '>>' k" := (Exn.bind c (fun _ => k))
  (at level 100, k at level 200, right associativity, only parsing).

(** ** Restore orchestrator (lines 517-696) *)

Module Restore.

(** The external commands of the restore sequence, in the order of the
    source.  [LoadDump] carries what is fed to [psql] on standard input. *)
Inductive command :=
| SupervisorStop
| DropDb
| CreateDb
| GrantPrivileges
| LoadDump (stdin : string)
| MigrateVrfNames
| TruncateUsers
| SupervisorStart
| MigrateCheck
| Manage (operation : list string)
| SuperuserCreate (stdin : string).

(** What the sequence finds outside the program.  [run_process] returns
    the exit status and the captured output lines; [read_backup] is the
    content of the artifact, decompressed when it is gzip ([None]: type
    detection, opening or reading raises). *)
Record env := {
  run_process : command -> Z * list string;
  read_backup : string -> option string;
  pushd_manage : bool;
  superuser_script : option string;
  extract_media : string -> string -> bool;
}.

Inductive level := Debug | Info | Warning | Error.

Inductive event :=
| Ran (c : command) (err : Z) (results : list string)
| Logged (l : level) (context : string)
| MediaExtracted (archive : string).

Record state := {
  preloadDatabaseSuccess : bool;
  trace : list event;
}.

Definition emit (e : event) : M state unit :=
  modify (fun s => {| preloadDatabaseSuccess := preloadDatabaseSuccess s;
                      trace := trace s ++ [e] |}).

Definition log (l : level) (context : string) : M state unit :=
  emit (Logged l context).

Definition set_success : M state unit :=
  modify (fun s => {| preloadDatabaseSuccess := true; trace := trace s |}).

(** Truth value of a list: non-empty. *)
Definition nonempty {A} (l : list A) : bool :=
  match l with [] => false | _ => true end.

Definition operations : list (list string) :=
  [ ["migrate"; "--no-input"];
    ["trace_paths"; "--no-input"];
    ["remove_stale_contenttypes"; "--no-input"];
    ["clearsessions"];
    ["reindex"; "--lazy"] ].

Section Sequence.
Variable fs : Backup.filesystem.
Variable e : env.
Variable netboxDir : string.

Definition run (c : command) : M state (Z * list string) :=
  let r := run_process e c in
  emit (Ran c r.1 r.2) >> ret r.

Definition mediaPath : string :=
  Path.join netboxDir (Path.join "netbox" "media").

(** Lines 524-573: drain, drop, recreate (fatal), grant. *)
Definition recreate_database : M state unit :=
  let* (err, results) := run SupervisorStop in
  when (negb (bool_decide (err = 0))) (log Error "stopping netbox:*") >>
  let* (err, results) := run DropDb in
  when (negb (bool_decide (err = 0))) (log Warning "dropping NetBox database") >>
  let* (err, results) := run CreateDb in
  (if negb (bool_decide (err = 0))
   then raise "Error creating new NetBox database"
   else ret tt) >>
  let* (err, results) := run GrantPrivileges in
  when (negb (bool_decide (err = 0)))
    (log Error "setting NetBox database permissions").

(** Lines 575-592: load the dump; the only place that sets
    [preloadDatabaseSuccess]. *)
Definition load_backup (preloadDatabaseFile : string) : M state unit :=
  let* stdin := match read_backup e preloadDatabaseFile with
                | Some content => ret content
                | None => raise "reading the backup"
                end in
  let* (err, results) := run (LoadDump stdin) in
  if bool_decide (err = 0) && nonempty results
  then set_success
  else raise "Error loading NetBox database".

(** Lines 594-693: fix-up, truncation, restart, migrations, superuser,
    media. *)
Definition after_load (preloadDatabaseFile : string) : M state unit :=
  let* (err, results) := run MigrateVrfNames in
  when (negb (bool_decide (err = 0)))
    (log Error "migrating ipam_vrf.name to ipam_prefix.description") >>
  let* (err, results) := run TruncateUsers in
  when (negb (bool_decide (err = 0))) (log Error "truncating users_user") >>
  let* (err, results) := run SupervisorStart in
  when (negb (bool_decide (err = 0))) (log Error "starting netbox:*") >>
  (if pushd_manage e then ret tt else raise "pushd") >>
  let* (err, results) := run MigrateCheck in
  when (negb (bool_decide (err = 0)))
    (for_each operations (fun operation =>
       let* (err, results) := run (Manage operation) in
       when (negb (bool_decide (err = 0)) || negb (nonempty results))
         (log Error "performing NetBox operation"))) >>
  let* script := match superuser_script e with
                 | Some content => ret content
                 | None => raise "opening netbox_superuser_create.py"
                 end in
  let* (err, results) := run (SuperuserCreate script) in
  when (negb (bool_decide (err = 0)) || negb (nonempty results))
    (log Error "setting up superuser") >>
  let mediaFileName :=
    Path.splitext_root preloadDatabaseFile +:+ ".media.tar.gz" in
  when (Backup.isfile fs mediaFileName && Backup.isdir fs mediaPath)
    (if extract_media e mediaFileName mediaPath
     then emit (MediaExtracted mediaFileName)
     else log Error "restoring media").

(** The body of the [try] of line 520. *)
Definition restore_body (preloadDatabaseFile : string) : M state unit :=
  recreate_database >>
  load_backup preloadDatabaseFile >>
  after_load preloadDatabaseFile.

(** Lines 517-696: the [try] with its [except], entered only when the
    selected artifact is a file. *)
Definition restore (preloadDatabaseFile : string) : M state unit :=
  when (Backup.isfile fs preloadDatabaseFile)
    (try_except (restore_body preloadDatabaseFile)
       (fun _ => log Error "restoring")).
End Sequence.

Definition initial : state := {| preloadDatabaseSuccess := false; trace := [] |}.

End Restore.

(** ** The dict helpers of lines 41-52 *)

Module MinHash.

(** The builtin [sorted(iterable, key=...)] is a collaborator.  Given the
    key function and [<] on the keys ([None] when the comparison raises
    [TypeError]), it returns the items in order, or [None] when a
    comparison it makes raises.  Which comparisons it makes, and in which
    order, is the interpreter's business; what a property needs of it is
    a hypothesis of that property ([MinHashProps.python_sorted]). *)
Definition sorter : Type :=
  forall A B : Type,
    (A -> B) -> (B -> B -> option bool) -> list A -> option (list A).

Section Helpers.
Context {K V : Type} `{EqDecision K}.
Variable sorted : sorter.

(** [min_hash_value_by_value]: the items sorted by [item[1]]. *)
Definition min_hash_value_by_value (lt : V -> V -> option bool)
    (x : list (K * V)) : result (option V) :=
  match sorted _ _ snd lt x with
  | None => Raised "TypeError"
  | Some items => Ok (head (Dict.values (Dict.of_items items)))
  end.

(** [min_hash_value_by_key]: the items sorted by [item[0]]. *)
Definition min_hash_value_by_key (lt : K -> K -> option bool)
    (x : list (K * V)) : result (option V) :=
  match sorted _ _ fst lt x with
  | None => Raised "TypeError"
  | Some items => Ok (head (Dict.values (Dict.of_items items)))
  end.
End Helpers.

(** [<] on Python strings: by code point, a proper prefix first. *)
Definition str_lt (a b : string) : option bool := Some (String.ltb a b).

End MinHash.

(** ** Resource reconciler (lines 700-920) *)

Module Reconciler.

Inductive kind := Groups | Permissions | Manufacturers | Roles | DeviceTypes | Sites.

#[global] Instance kind_eq_dec : EqDecision kind.
Proof. solve_decision. Defined.

(** A record of the remote API: its id and its natural key ([name], or
    [model] for a device type). *)
Record record := {
  rec_id : Z;
  rec_key : string;
}.

Inductive payload :=
| GroupPayload (name : string)
| PermissionPayload (name : string) (enabled : bool) (groups : list Z)
    (actions : list string) (object_types : list string)
| ManufacturerPayload (name slug : string)
| RolePayload (name slug : string) (vm_role : bool) (color : string)
| DeviceTypePayload (model slug : string) (manufacturer : option Z)
| SitePayload (name slug : string).

(** A prefix with an empty description: its id and the text of its VRF,
    if it has one. *)
Record prefix := {
  prefix_id : Z;
  prefix_vrf : option string;
}.

Inductive request :=
| ListAll (k : kind)
| Create (k : kind) (p : payload)
| ListObjectTypes
| FilterPrefixes
| UpdatePrefix (id : Z) (description : string).

(** [RequestError] is [pynetbox.RequestError]; [Failure] is any other
    exception of the client (the API cannot be reached, ...). *)
Inductive response :=
| Records (l : list record)
| ObjectTypes (l : list string)
| Prefixes (l : list prefix)
| Done
| RequestError (msg : string)
| Failure (msg : string).

(** The collaborators: the remote side with a state of its own, what
    [time.sleep] does to it, [<] on records, the builtin [sorted],
    [slugify] and the colour generator. *)
Record remote (St : Type) := {
  api : request -> St -> response * St;
  sleep : Z -> St -> St;
  record_lt : record -> record -> option bool;
  sorted : MinHash.sorter;
  slugify : string -> string;
  randColor_generate : nat -> string;
}.
Arguments api {St} _ _ _.
Arguments sleep {St} _ _ _.
Arguments record_lt {St} _ _ _.
Arguments sorted {St} _ _ _ _ _ _.
Arguments slugify {St} _ _.
Arguments randColor_generate {St} _ _.

Inductive level := Info | Warning | Error.

Inductive event :=
| Called (r : request) (resp : response)
| Slept (seconds : Z)
| Logged (l : level) (context : string).

Record permConfig := {
  perm_name : string;
  perm_enabled : bool;
  perm_groups : list string;
  perm_actions : list string;
  perm_exclude_objects : list string;
}.

(** The arguments the reconciler reads. *)
Record arguments := {
  wait : bool;
  netboxSites : list string;
  defaultGroupName : string;
  staffGroupName : string;
  manufacturers : list string;
  roles : list string;
  deviceTypes : list string;
}.

Section Reconcile.
Context {St : Type}.
Variable R : remote St.
Variable args : arguments.

Record state := {
  server : St;
  trace : list event;
  colors : nat;
}.

Definition emit (e : event) : M state unit :=
  modify (fun s => {| server := server s; trace := trace s ++ [e];
                      colors := colors s |}).

Definition log (l : level) (context : string) : M state unit :=
  emit (Logged l context).

(** One call of the client, recorded in the trace. *)
Definition call (r : request) : M state response :=
  fun s =>
    let '(resp, st) := api R r (server s) in
    (Ok resp, {| server := st; trace := trace s ++ [Called r resp];
                 colors := colors s |}).

(** [nb.<endpoint>.all()] read into a list. *)
Definition all (k : kind) : M state (list record) :=
  let* resp := call (ListAll k) in
  match resp with
  | Records l => ret l
  | RequestError msg => raise msg
  | Failure msg => raise msg
  | _ => raise "unexpected response"
  end.

(** [try: nb.<endpoint>.create(p) except pynetbox.RequestError: warning];
    any other exception goes on to the enclosing [try]. *)
Definition create (k : kind) (p : payload) (what : string) : M state unit :=
  let* resp := call (Create k p) in
  match resp with
  | RequestError _ => log Warning what
  | Failure msg => raise msg
  | _ => ret tt
  end.

(** [{x.name: x for x in ...}] *)
Definition by_key (l : list record) : list (string * record) :=
  Dict.of_items ((fun x => (rec_key x, x)) <$> l).

Definition absent (preExisting : list (string * record)) (desired : list string)
  : list string :=
  List.filter (fun x => negb (Dict.mem x preExisting)) desired.

(** The shape shared by the blocks of the groups, manufacturers, roles,
    device types and sites: list, create what is absent, list again.
    [mk] builds the payload inside the inner [try]. *)
Definition reconcile (k : kind) (desired : list string)
    (mk : string -> M state payload) : M state (list (string * record)) :=
  let* pre := all k in
  let preExisting := by_key pre in
  for_each (absent preExisting desired)
    (fun name => let* p := mk name in create k p name) >>
  let* post := all k in
  ret (by_key post).

(** The outer [try]/[except] of a block: on an exception the dict of the
    block stays empty. *)
Definition block {A} (what : string) (body : M state (list A)) : M state (list A) :=
  try_except body (fun _ => log Error what >> ret []).

(** [randColor.generate()[0][1:]] *)
Definition next_color : M state string :=
  fun s =>
    let c := randColor_generate R (colors s) in
    (Ok (match c with String _ c' => c' | EmptyString => EmptyString end),
     {| server := server s; trace := trace s; colors := S (colors s) |}).

Definition DEFAULT_GROUP_NAMES : list string :=
  [staffGroupName args; defaultGroupName args].

Definition all_actions : list string := ["view"; "add"; "change"; "delete"].

Definition DEFAULT_PERMISSIONS : list (string * permConfig) :=
  Dict.of_items
    [ (staffGroupName args +:+ "_permission",
       {| perm_name := staffGroupName args +:+ "_permission";
          perm_enabled := true;
          perm_groups := [staffGroupName args];
          perm_actions := all_actions;
          perm_exclude_objects := [] |});
      (defaultGroupName args +:+ "_permission",
       {| perm_name := defaultGroupName args +:+ "_permission";
          perm_enabled := true;
          perm_groups := [defaultGroupName args];
          perm_actions := all_actions;
          perm_exclude_objects :=
            [ "admin.logentry"; "auth.group"; "auth.permission"; "auth.user";
              "users.admingroup"; "users.adminuser"; "users.objectpermission";
              "users.token"; "users.userconfig" ] |}) ].

(** [[ct for ct in allObjectTypeNames if ct not in exclude_objects]] *)
Definition applied_object_types (allObjectTypeNames exclude : list string)
  : list string :=
  List.filter (fun ct => negb (bool_decide (ct ∈ exclude))) allObjectTypeNames.

Definition reconcile_permissions (groups : list (string * record))
  : M state (list (string * record)) :=
  let* resp := call ListObjectTypes in
  let* allObjectTypeNames :=
    match resp with
    | ObjectTypes l => ret l
    | RequestError msg => raise msg
    | Failure msg => raise msg
    | _ => raise "unexpected response"
    end in
  let* pre := all Permissions in
  let permsPreExisting := by_key pre in
  for_each
    (List.filter (fun kv => negb (bool_decide (perm_name kv.2 = ""))
                            && negb (Dict.mem (perm_name kv.2) permsPreExisting))
       DEFAULT_PERMISSIONS)
    (fun kv =>
       let permConfig := kv.2 in
       let* ids :=
         match mapM (fun x => rec_id <$> Dict.get x groups) (perm_groups permConfig) with
         | Some ids => ret ids
         | None => raise "KeyError"
         end in
       create Permissions
         (PermissionPayload (perm_name permConfig) (perm_enabled permConfig) ids
            (perm_actions permConfig)
            (applied_object_types allObjectTypeNames
               (perm_exclude_objects permConfig)))
         (perm_name permConfig)) >>
  let* post := all Permissions in
  ret (by_key post).

(** The payload of a device type: its manufacturer is what
    [min_hash_value_by_value(manufacturers)] returns. *)
Definition device_type_payload (manufs : list (string * record))
    (deviceTypeModel : string) : M state payload :=
  match MinHash.min_hash_value_by_value (sorted R) (record_lt R) manufs with
  | Raised e => raise e
  | Ok manuf =>
      ret (DeviceTypePayload deviceTypeModel (slugify R deviceTypeModel)
             (rec_id <$> manuf))
  end.

(** Lines 910-920. *)
Definition backfill_prefixes : M state unit :=
  try_except
    (let* resp := call FilterPrefixes in
     let* found :=
       match resp with
       | Prefixes l => ret l
       | RequestError msg => raise msg
       | Failure msg => raise msg
       | _ => raise "unexpected response"
       end in
     for_each found
       (fun p =>
          match prefix_vrf p with
          | Some vrf =>
              let* resp := call (UpdatePrefix (prefix_id p) vrf) in
              match resp with
              | RequestError msg => raise msg
              | Failure msg => raise msg
              | _ => ret tt
              end
          | None => ret tt
          end))
    (fun _ => log Error "migrating prefix VRF to prefix description").

(** Lines 729-920: the blocks in the order of the source. *)
Definition populate : M state unit :=
  let* groups :=
    block "groups"
      (reconcile Groups DEFAULT_GROUP_NAMES (fun n => ret (GroupPayload n))) in
  let* permissions := block "permissions" (reconcile_permissions groups) in
  let* manufs :=
    block "manufacturers"
      (reconcile Manufacturers (manufacturers args)
         (fun n => ret (ManufacturerPayload n (slugify R n)))) in
  let* roles_ :=
    block "roles"
      (reconcile Roles (roles args)
         (fun n => let* c := next_color in
                   ret (RolePayload n (slugify R n) true c))) in
  let* deviceTypes_ :=
    block "device types"
      (reconcile DeviceTypes (deviceTypes args) (device_type_payload manufs)) in
  let* sites :=
    block "sites"
      (reconcile Sites (netboxSites args)
         (fun n => ret (SitePayload n (slugify R n)))) in
  backfill_prefixes.

(** Lines 720-727: [while args.wait: try ... break except ... sleep(5)].
    [None] when the loop is still running after [fuel] attempts. *)
Fixpoint wait_loop (fuel : nat) (s : state) : option state :=
  match fuel with
  | O => None
  | S fuel' =>
      match all Sites s with
      | (Ok _, s') => Some s'
      | (Raised e, s') =>
          wait_loop fuel'
            {| server := sleep R 5 (server s');
               trace := trace s' ++ [Logged Info e; Slept 5];
               colors := colors s' |}
      end
  end.

Definition wait_for_connection (fuel : nat) (s : state) : option state :=
  if wait args then wait_loop fuel s else Some s.

(** The body of the [if] of line 700. *)
Definition reconciler (fuel : nat) (s : state) : option state :=
  s' ← wait_for_connection fuel s;
  Some (populate s').2.

Definition initial (st : St) : state :=
  {| server := st; trace := []; colors := 0 |}.
End Reconcile.

Arguments state : clear implicits.
Arguments server {St} _.
Arguments trace {St} _.
Arguments colors {St} _.

End Reconciler.

(** ** The top-level decision tree (lines 504-970) *)

Module Main.

Record arguments := {
  preloadBackupFile : string;
  preloadDir : string;
  netboxDir : string;
  libraryDir : string;
  api_args : Reconciler.arguments;
}.

Section Main.
Context {St : Type}.
Variable fs : Backup.filesystem.
Variable e : Restore.env.
Variable R : Reconciler.remote St.
Variable args : arguments.

Definition netboxVenvPy : string :=
  Path.join (Path.join (Path.join (netboxDir args) "venv") "bin") "python".

Definition manageScript : string :=
  Path.join (Path.join (netboxDir args) "netbox") "manage.py".

Definition preloadDatabaseFile : string :=
  Backup.select_preloadDatabaseFile fs (preloadBackupFile args) (preloadDir args).

(** The state the restore block leaves: the success flag and what ran. *)
Definition restored : Restore.state :=
  (Restore.restore fs e (netboxDir args) preloadDatabaseFile Restore.initial).2.

(** The condition of lines 700 and 951:
    [not preloadDatabaseSuccess and (not args.preloadBackupFile)]. *)
Definition populate_via_api : bool :=
  negb (Restore.preloadDatabaseSuccess restored)
  && bool_decide (preloadBackupFile args = "").

(** The condition of line 926. *)
Definition run_initializers : bool :=
  Backup.isfile fs netboxVenvPy && Backup.isfile fs manageScript
  && Backup.isdir fs (preloadDir args).

Definition run_library_import : bool :=
  populate_via_api && Backup.isdir fs (libraryDir args).

(** What a run leaves behind.  [reconciled] is the state of the
    reconciler when its phase ran. *)
Record outcome := {
  selected : string;
  restore_state : Restore.state;
  reconciled : option (Reconciler.state St);
  initializers : bool;
  library_import : bool;
}.

(** Lines 504-970; [None] when the connectivity loop is still running
    after [fuel] attempts. *)
Definition main (fuel : nat) (st : St) : option outcome :=
  rec ← (if populate_via_api
         then Some <$> Reconciler.reconciler R (api_args args) fuel
                         (Reconciler.initial st)
         else Some None);
  Some {| selected := preloadDatabaseFile;
          restore_state := restored;
          reconciled := rec;
          initializers := run_initializers;
          library_import := run_library_import |}.
End Main.

Arguments selected {St} _.
Arguments restore_state {St} _.
Arguments reconciled {St} _.
Arguments initializers {St} _.
Arguments library_import {St} _.

End Main.

(** * Vocabulary of the properties *)

Module DiscoveryProps.
Import Discovery.

(** The names the scan takes from classes it inspects without an
    exception. *)
Definition collected (classes : list stmt) : list constant :=
  flat_map (fun c => match c with
                     | ClassDef _ bases body =>
                         match any_base_PluginConfig bases with
                         | Some true => names_of_class_body body
                         | _ => []
                         end
                     | _ => []
                     end) classes.

Definition is_Name (b : expr) : bool :=
  match b with Name _ => true | _ => false end.

(** Every base of the class is a simple name. *)
Definition simple_bases (c : stmt) : bool :=
  match c with
  | ClassDef _ bases _ => forallb is_Name bases
  | _ => true
  end.

End DiscoveryProps.

Module RegistrarProps.
Import Registrar.

(** Whether the statement holds, at any depth, an assignment whose first
    target is the name [PLUGINS] and whose value is a list display. *)
Fixpoint has_PLUGINS_list (node : stmt) : bool :=
  match node with
  | Assign (Name id) _ (List _) => bool_decide (id = "PLUGINS")
  | Assign _ _ _ => false
  | ClassDef _ _ body => existsb has_PLUGINS_list body
  | Compound _ body => existsb has_PLUGINS_list body
  | OtherStmt _ => false
  end.

End RegistrarProps.

Module BackupProps.

(** Ascending in the key. *)
Definition ascending {A : Type} (key : A -> Z) (l : list A) : Prop :=
  StronglySorted (fun x y => key x <= key y) l.

End BackupProps.

(** Invariants of computations: every run relates the state before to the
    state after, whether it returns or raises. *)
Module Steps.

Definition steps {S A : Type} (Rel : S -> S -> Prop) (m : M S A) : Prop :=
  forall s, Rel s (m s).2.

End Steps.

Module RestoreProps.
Import Restore.

Definition is_LoadDump (ev : event) : Prop :=
  match ev with Ran (LoadDump _) _ _ => True | _ => False end.

(** The success flag is kept and the trace grows by events other than a
    run of the load command. *)
Definition quiet (s s' : state) : Prop :=
  preloadDatabaseSuccess s' = preloadDatabaseSuccess s
  /\ exists evs, trace s' = trace s ++ evs /\ Forall (fun ev => ~ is_LoadDump ev) evs.

End RestoreProps.

Module MinHashProps.

(** [<] on the values never raises and ranks them (a strict weak order):
    what a sort needs to have one answer, whatever comparisons it makes. *)
Record strict_order {V : Type} (lt : V -> V -> option bool) : Prop := {
  lt_total : forall a b, is_Some (lt a b);
  lt_asym : forall a b, lt a b = Some true -> lt b a = Some false;
  lt_trans : forall a b c,
      lt a b = Some true -> lt b c = Some true -> lt a c = Some true;
  lt_rank : forall a b c,
      lt a b = Some false -> lt b c = Some false -> lt a c = Some false;
}.

(** No later item is below an earlier one. *)
Definition nondecreasing {A B : Type} (key : A -> B) (lt : B -> B -> option bool)
    (l : list A) : Prop :=
  StronglySorted (fun x y => lt (key y) (key x) = Some false) l.

(** What the properties assume of the builtin [sorted]: fewer than two
    items are returned as they are, without a comparison; two items or
    more are compared, so that the sort raises when every comparison
    does; and when [<] ranks the keys, the result is the items in
    nondecreasing order. *)
Record python_sorted (sorted : MinHash.sorter) : Prop := {
  sorted_short : forall A B (key : A -> B) lt (l : list A),
      (length l < 2)%nat -> sorted A B key lt l = Some l;
  sorted_raises : forall A B (key : A -> B) lt (l : list A),
      (forall a b, lt a b = None) ->
      (2 <= length l)%nat -> sorted A B key lt l = None;
  sorted_ranked : forall A B (key : A -> B) lt (l : list A),
      strict_order lt ->
      exists l', sorted A B key lt l = Some l'
                 /\ l' ≡ₚ l
                 /\ nondecreasing key lt l';
}.

End MinHashProps.

Module ReconcilerProps.
Import Reconciler.

(** The names a kind must hold after reconciliation. *)
Definition desired (args : arguments) (k : kind) : list string :=
  match k with
  | Groups => DEFAULT_GROUP_NAMES args
  | Permissions => (fun kv => perm_name kv.2) <$> DEFAULT_PERMISSIONS args
  | Manufacturers => manufacturers args
  | Roles => roles args
  | DeviceTypes => deviceTypes args
  | Sites => netboxSites args
  end.

Definition is_Create (r : request) : Prop :=
  match r with Create _ _ => True | _ => False end.

Definition is_Create_event (ev : event) : Prop :=
  match ev with Called (Create _ _) _ => True | _ => False end.

Definition is_Records (resp : response) : Prop :=
  match resp with Records _ => True | _ => False end.

Section Remote.
Context {St : Type} (R : remote St).

(** The sites can be listed at the attempt that follows [n] failed
    attempts, each followed by a sleep of five seconds. *)
Fixpoint ready_after (n : nat) (st : St) : Prop :=
  match n with
  | O => is_Records (api R (ListAll Sites) st).1
  | S n' =>
      ~ is_Records (api R (ListAll Sites) st).1
      /\ ready_after n' (sleep R 5 (api R (ListAll Sites) st).2)
  end.

(** What the gate leaves in the trace: [n] failed attempts, each logged
    and followed by a sleep of five seconds, then the attempt that
    succeeds. *)
Fixpoint gate_trace (n : nat) (evs : list event) : Prop :=
  match n with
  | O => exists l, evs = [Called (ListAll Sites) (Records l)]
  | S n' =>
      exists resp msg rest,
        evs = Called (ListAll Sites) resp :: Logged Info msg :: Slept 5 :: rest
        /\ ~ is_Records resp
        /\ gate_trace n' rest
  end.

(** The trace only grows. *)
Definition grows (s s' : state St) : Prop :=
  exists evs, trace s' = trace s ++ evs.

(** The computation begins with the call [r]. *)
Definition starts {A} (r : request) (m : M (state St) A) : Prop :=
  forall s, exists resp rest, trace (m s).2 = trace s ++ Called r resp :: rest.

(** From a server that holds the resources [r0], the run leaves them as
    they are and issues no create call. *)
Definition calm (res : St -> kind -> list record) (r0 : kind -> list record)
    (s s' : state St) : Prop :=
  res (server s) = r0 ->
  res (server s') = r0
  /\ exists evs, trace s' = trace s ++ evs
                 /\ Forall (fun ev => ~ is_Create_event ev) evs.
End Remote.

(** The first call of each block of [populate], in the order of the
    source. *)
Definition first_calls : list request :=
  [ ListAll Groups; ListObjectTypes; ListAll Manufacturers; ListAll Roles;
    ListAll DeviceTypes; ListAll Sites; FilterPrefixes ].

End ReconcilerProps.

Module InstallGateProps.
Import InstallGate.

Section Gate.
Context {version : Type}.
Variable Version : option string -> option version.
Variable version_gt : version -> version -> bool.
Variable installed : gmap string package.

(** The package is not installed, or the dry run reports a version above
    the installed one. *)
Definition new_or_newer (package_name new_version : option string) : Prop :=
  match package_name with
  | None => True
  | Some n =>
      match installed !! n with
      | None => True
      | Some p =>
          exists new old,
            Version new_version = Some new
            /\ Version (Some (pkg_version p)) = Some old
            /\ version_gt new old = true
      end
  end.

(** Every pair of versions the gate compares can be parsed. *)
Definition comparable (info : list (option string * option string)) : Prop :=
  forall n v p,
    (Some n, v) ∈ info ->
    installed !! n = Some p ->
    is_Some (Version v) /\ is_Some (Version (Some (pkg_version p))).
End Gate.

End InstallGateProps.

(** * Concrete inputs *)

(** A stable insertion sort: one sort that meets what the properties
    assume of the builtin ([MinHashProps.python_sorted]); the examples run
    on it.  It compares a new item with the items already placed, from the
    left. *)
Module InsertionSort.

Section Sorted.
Context {A B : Type} (key : A -> B) (lt : B -> B -> option bool).

Fixpoint insert (x : A) (l : list A) : option (list A) :=
  match l with
  | [] => Some [x]
  | y :: l' =>
      match lt (key x) (key y) with
      | None => None
      | Some true => Some (x :: y :: l')
      | Some false => cons y <$> insert x l'
      end
  end.

Fixpoint sorted_from (acc l : list A) : option (list A) :=
  match l with
  | [] => Some acc
  | x :: l' => acc' ← insert x acc; sorted_from acc' l'
  end.
End Sorted.

Definition sorted : MinHash.sorter :=
  fun A B key lt l => sorted_from key lt [] l.

End InsertionSort.

(** A simulated remote: a store of records per kind, names unique within a
    kind, and a list of the calls (by number) at which it cannot be
    reached. *)
Module Sim.
Import Reconciler.

Record st := {
  calls : nat;
  down : list nat;
  store : list (kind * list record);
  next_id : Z;
}.

Definition records_of (s : st) (k : kind) : list record :=
  default [] (Dict.get k (store s)).

Definition key_of (p : payload) : string :=
  match p with
  | GroupPayload n => n
  | PermissionPayload n _ _ _ _ => n
  | ManufacturerPayload n _ => n
  | RolePayload n _ _ _ => n
  | DeviceTypePayload m _ _ => m
  | SitePayload n _ => n
  end.

Definition tick (s : st) : st :=
  {| calls := S (calls s); down := down s; store := store s;
     next_id := next_id s |}.

Definition api (r : request) (s : st) : response * st :=
  if bool_decide (calls s ∈ down s) then (Failure "connection refused", tick s)
  else
    match r with
    | ListAll k => (Records (records_of s k), tick s)
    | Create k p =>
        if bool_decide (key_of p ∈ rec_key <$> records_of s k)
        then (RequestError "already exists", tick s)
        else (Done,
              {| calls := S (calls s); down := down s;
                 store := Dict.set k
                            (records_of s k
                             ++ [{| rec_id := next_id s; rec_key := key_of p |}])
                            (store s);
                 next_id := next_id s + 1 |})
    | ListObjectTypes => (ObjectTypes ["dcim.site"; "auth.user"; "ipam.prefix"], tick s)
    | FilterPrefixes => (Prefixes [], tick s)
    | UpdatePrefix _ _ => (Done, tick s)
    end.

(** [slugify] on a name of ASCII letters, digits, spaces and hyphens:
    letters in lower case, a space becomes a hyphen. *)
Definition slug_char (c : ascii) : ascii :=
  let n := N_of_ascii c in
  if ((65 <=? n) && (n <=? 90))%N then ascii_of_N (n + 32)
  else if bool_decide (c = " "%char) then "-"%char else c.

Fixpoint slug (s : string) : string :=
  match s with
  | EmptyString => EmptyString
  | String c s' => String (slug_char c) (slug s')
  end.

(** The records are pynetbox records: they define no [<], so every
    comparison of two of them raises. *)
Definition remote : Reconciler.remote st :=
  {| Reconciler.api := api;
     sleep := fun _ s => s;
     record_lt := fun _ _ => None;
     sorted := InsertionSort.sorted;
     slugify := slug;
     randColor_generate := fun _ => "#7f7f7f" |}.

Definition empty (outage : list nat) : st :=
  {| calls := 0; down := outage; store := []; next_id := 1 |}.

End Sim.

Module Examples.
Import Reconciler.

Definition dotted_base_file : Discovery.candidate :=
  {| Discovery.cand_name := "/opt/plugins/demo/__init__.py";
     Discovery.cand_isfile := true;
     Discovery.cand_tree := Some
       [ ClassDef "First" [Name "PluginConfig"]
           [Assign (Name "name") [] (Constant (CStr "first_plugin"))];
         OtherStmt "import netbox";
         ClassDef "Second" [Attribute (Name "plugins") "PluginConfig"]
           [Assign (Name "name") [] (Constant (CStr "second_plugin"))];
         ClassDef "Third" [Name "PluginConfig"]
           [Assign (Name "name") [] (Constant (CStr "third_plugin"))] ] |}.

Definition registration_file : source :=
  [ SrcComment "# active plugins";
    SrcStmt (Assign (Name "PLUGINS") [] (List [Constant (CStr "existing_plugin")])) ].

Definition discovered : list constant :=
  [CStr "existing_plugin"; CStr "new_plugin"].

(** A preload directory with two dumps and a media archive. *)
Definition preload_fs : Backup.filesystem :=
  {| Backup.regular_file p :=
       bool_decide (p ∈ [ "/preload/2024-01-01.gz"; "/preload/2023-06-30.gz";
                          "/preload/2024-01-01.media.tar.gz";
                          "/opt/netbox/venv/bin/python";
                          "/opt/netbox/netbox/manage.py" ]);
     Backup.directory p :=
       bool_decide (p ∈ ["/preload"; "/opt/netbox/netbox/media"]);
     Backup.glob pattern :=
       if bool_decide (pattern = "/preload/*.gz")
       then [ "/preload/2024-01-01.gz"; "/preload/2024-01-01.media.tar.gz";
              "/preload/2023-06-30.gz" ]
       else [];
     Backup.getmtime p :=
       if bool_decide (p = "/preload/2024-01-01.gz") then 1704067200
       else if bool_decide (p = "/preload/2023-06-30.gz") then 1688083200
       else 1704067300 |}.

(** Every command succeeds with some output. *)
Definition healthy : Restore.env :=
  {| Restore.run_process := fun _ => (0, ["ok"]);
     Restore.read_backup := fun _ => Some "-- PostgreSQL database dump";
     Restore.pushd_manage := true;
     Restore.superuser_script := Some "import os";
     Restore.extract_media := fun _ _ => true |}.

(** [createdb] fails. *)
Definition createdb_fails : Restore.env :=
  {| Restore.run_process := fun c =>
       match c with
       | Restore.CreateDb => (1, ["createdb: error: connection refused"])
       | _ => (0, ["ok"])
       end;
     Restore.read_backup := fun _ => Some "-- PostgreSQL database dump";
     Restore.pushd_manage := true;
     Restore.superuser_script := Some "import os";
     Restore.extract_media := fun _ _ => true |}.

Definition api_arguments (wait_ : bool) : arguments :=
  {| wait := wait_;
     netboxSites := ["default"];
     defaultGroupName := "standard";
     staffGroupName := "administrator";
     manufacturers := ["Unspecified"];
     roles := ["Unspecified"];
     deviceTypes := ["Unspecified"] |}.

Definition main_arguments (explicit : string) (wait_ : bool) : Main.arguments :=
  {| Main.preloadBackupFile := explicit;
     Main.preloadDir := "/preload";
     Main.netboxDir := "/opt/netbox";
     Main.libraryDir := "/opt/netbox-devicetype-library-import";
     Main.api_args := api_arguments wait_ |}.

(** The simulated remote after a first run with [api_arguments]. *)
Definition populated : Sim.st :=
  {| Sim.calls := 0;
     Sim.down := [];
     Sim.store :=
       [ (Groups, [ {| rec_id := 1; rec_key := "administrator" |};
                    {| rec_id := 2; rec_key := "standard" |} ]);
         (Permissions,
          [ {| rec_id := 3; rec_key := "administrator_permission" |};
            {| rec_id := 4; rec_key := "standard_permission" |} ]);
         (Manufacturers, [ {| rec_id := 5; rec_key := "Unspecified" |} ]);
         (Roles, [ {| rec_id := 6; rec_key := "Unspecified" |} ]);
         (DeviceTypes, [ {| rec_id := 7; rec_key := "Unspecified" |} ]);
         (Sites, [ {| rec_id := 8; rec_key := "default" |} ]) ];
     Sim.next_id := 9 |}.

(** One package installed, [foo] at 1.0.0. *)
Definition foo_installed : gmap string InstallGate.package :=
  {[ "foo" := {| InstallGate.pkg_version := "1.0.0";
                 InstallGate.pkg_location := Some "/opt/netbox/venv/lib" |} ]}.

(** A dry run that reports the given packages. *)
Definition dry_run_of (report : list (string * string)) : InstallGate.dryRun :=
  {| InstallGate.dry_err := 0;
     InstallGate.dry_report_isfile := true;
     InstallGate.dry_report :=
       Some ((fun nv => {| InstallGate.metadata_name := Some nv.1;
                           InstallGate.metadata_version := Some nv.2 |})
               <$> report) |}.

(** A run that wants two manufacturers and one device type, without
    waiting. *)
Definition two_manufacturer_arguments : arguments :=
  {| wait := false;
     netboxSites := ["default"];
     defaultGroupName := "standard";
     staffGroupName := "administrator";
     manufacturers := ["Alpha"; "Beta"];
     roles := ["Unspecified"];
     deviceTypes := ["Unspecified"] |}.

(** Two manufacturers whose order by name and by id differ. *)
Definition two_manufacturers : list (string * record) :=
  [ ("Alpha", {| rec_id := 7; rec_key := "Alpha" |});
    ("Beta", {| rec_id := 3; rec_key := "Beta" |}) ].

End Examples.

(** * Vocabulary of the further properties *)

Module RestoreSequence.
Import Restore.

Definition is_step (ev : event) : bool :=
  match ev with Logged _ _ => false | _ => true end.

(** A trace without its log lines: the commands run and the archives
    extracted, in order. *)
Definition steps_of (t : list event) : list event := List.filter is_step t.

(** The event a command leaves in the trace. *)
Definition ran (e : env) (c : command) : event :=
  Ran c (run_process e c).1 (run_process e c).2.

(** What a computation does when started where the restore block starts:
    how it ends, the steps it takes, whether it records success. *)
Definition summary {A} (m : M state A) : result A * list event * bool :=
  ((m initial).1, steps_of (trace (m initial).2),
   preloadDatabaseSuccess (m initial).2).

(** The summary of a computation that follows the steps [evs]. *)
Definition prepend {A} (evs : list event) (sm : result A * list event * bool)
  : result A * list event * bool :=
  (sm.1.1, evs ++ sm.1.2, sm.2).

(** The computation does not look at the state: from any state it ends as
    from the initial one, appends the same events, and raises the success
    flag when it does so from the initial state. *)
Definition oblivious {A} (m : M state A) : Prop :=
  forall s,
    (m s).1 = (m initial).1
    /\ trace (m s).2 = trace s ++ trace (m initial).2
    /\ preloadDatabaseSuccess (m s).2
       = preloadDatabaseSuccess s || preloadDatabaseSuccess (m initial).2.

Definition is_Manage (ev : event) : bool :=
  match ev with Ran (Manage _) _ _ => true | _ => false end.

Section Expected.
Variable fs : Backup.filesystem.
Variable e : env.
Variable netboxDir : string.

Definition create_ok : bool := bool_decide ((run_process e CreateDb).1 = 0).

Definition load_ok (stdin : string) : bool :=
  bool_decide ((run_process e (LoadDump stdin)).1 = 0)
  && nonempty (run_process e (LoadDump stdin)).2.

Definition migrations_pending : bool :=
  negb (bool_decide ((run_process e MigrateCheck).1 = 0)).

Definition mediaFileName (file : string) : string :=
  Path.splitext_root file +:+ ".media.tar.gz".

(** The steps of lines 633-693 once the services are back. *)
Definition steps_in_manage_dir (file : string) : list event :=
  if pushd_manage e then
    ran e MigrateCheck
    :: (if migrations_pending
        then (fun op => ran e (Manage op)) <$> operations else [])
    ++ match superuser_script e with
       | None => []
       | Some script =>
           ran e (SuperuserCreate script)
           :: (if Backup.isfile fs (mediaFileName file)
                  && Backup.isdir fs (mediaPath netboxDir)
                  && extract_media e (mediaFileName file) (mediaPath netboxDir)
               then [MediaExtracted (mediaFileName file)] else [])
       end
  else [].

(** The steps of the whole sequence, read off its control flow. *)
Definition restore_steps (file : string) : list event :=
  [ran e SupervisorStop; ran e DropDb; ran e CreateDb]
  ++ if create_ok then
       ran e GrantPrivileges
       :: match read_backup e file with
          | None => []
          | Some stdin =>
              ran e (LoadDump stdin)
              :: if load_ok stdin then
                   [ran e MigrateVrfNames; ran e TruncateUsers;
                    ran e SupervisorStart]
                   ++ steps_in_manage_dir file
                 else []
          end
     else [].

Definition restore_succeeds (file : string) : bool :=
  create_ok
  && match read_backup e file with
     | None => false
     | Some stdin => load_ok stdin
     end.
End Expected.

End RestoreSequence.

(** ** The dict helpers of lines 55-68 *)

Module MaxHash.

Section Helpers.
Context {K V : Type} `{EqDecision K}.
Variable sorted : MinHash.sorter.

(** [max_hash_value_by_value]: the last value of the dict rebuilt from the
    items sorted by [item[1]].  The [try] covers the sort and the
    unpacking [*_, last = ...], which raises on an empty list; either way
    the function returns [None]. *)
Definition max_hash_value_by_value (lt : V -> V -> option bool)
    (x : list (K * V)) : option V :=
  match sorted _ _ snd lt x with
  | None => None
  | Some items => last (Dict.values (Dict.of_items items))
  end.

(** [max_hash_value_by_key]: the same with the items sorted by [item[0]]. *)
Definition max_hash_value_by_key (lt : K -> K -> option bool)
    (x : list (K * V)) : option V :=
  match sorted _ _ fst lt x with
  | None => None
  | Some items => last (Dict.values (Dict.of_items items))
  end.
End Helpers.

End MaxHash.

(** ** What the reconciler asks the remote side to change *)

Module ReconcilerTrace.
Import Reconciler.

(** The create calls of a trace, in order: the kind and the payload. *)
Definition creations (t : list event) : list (kind * payload) :=
  omap (fun ev => match ev with
                  | Called (Create k p) _ => Some (k, p)
                  | _ => None
                  end) t.

Definition created_kinds (t : list event) : list kind := fst <$> creations t.

(** The prefix updates of a trace, in order: the id and the description. *)
Definition updates (t : list event) : list (Z * string) :=
  omap (fun ev => match ev with
                  | Called (UpdatePrefix id description) _ => Some (id, description)
                  | _ => None
                  end) t.

(** The client raised something other than a [RequestError]. *)
Definition is_Failure (ev : event) : Prop :=
  match ev with Called _ (Failure _) => True | _ => False end.

(** The client raised. *)
Definition is_error (ev : event) : Prop :=
  match ev with
  | Called _ (Failure _) => True
  | Called _ (RequestError _) => True
  | _ => False
  end.

(** The descriptions the backfill owes: one for each prefix with a VRF. *)
Definition vrf_descriptions (found : list prefix) : list (Z * string) :=
  omap (fun p => (fun vrf => (prefix_id p, vrf)) <$> prefix_vrf p) found.

Definition of_kind (k : kind) (kp : kind * payload) : Prop := kp.1 = k.

(** The object types the permission of the default group leaves out. *)
Definition protected_object_types : list string :=
  [ "admin.logentry"; "auth.group"; "auth.permission"; "auth.user";
    "users.admingroup"; "users.adminuser"; "users.objectpermission";
    "users.token"; "users.userconfig" ].

(** A permission made for one of the two default groups: named after the
    group, enabled, bound to the id the group has in [groups], and, for the
    default group, without the protected object types. *)
Definition permission_of_group (args : arguments)
    (groups : list (string * record)) (kp : kind * payload) : Prop :=
  kp.1 = Permissions
  /\ exists g r types,
       g ∈ DEFAULT_GROUP_NAMES args
       /\ Dict.get g groups = Some r
       /\ kp.2 = PermissionPayload (g +:+ "_permission") true [rec_id r]
                   all_actions types
       /\ (g = defaultGroupName args ->
           forall ct, ct ∈ protected_object_types -> ct ∉ types).

Section Remote.
Context {St : Type}.

(** The run appends events to the trace, among them at most [m] create
    calls, each of which satisfies [Q]. *)
Definition adds (Q : kind * payload -> Prop) (m : nat) (s s' : state St) : Prop :=
  exists evs,
    trace s' = trace s ++ evs
    /\ Forall Q (creations evs)
    /\ (length (creations evs) <= m)%nat.

Definition run_adds {A} (Q : kind * payload -> Prop) (m : nat)
    (c : M (state St) A) : Prop :=
  forall s, adds Q m s (c s).2.
End Remote.

End ReconcilerTrace.

(** Remote sides for the examples. *)
Module Fixtures.
Import Reconciler.

(** A remote side that cannot be reached. *)
Definition offline : remote unit :=
  {| api := fun _ st => (Failure "connection refused", st);
     sleep := fun _ st => st;
     record_lt := fun _ _ => None;
     sorted := InsertionSort.sorted;
     slugify := fun s => s;
     randColor_generate := fun _ => "#7f7f7f" |}.

(** A remote side with three prefixes without a description, two of them
    in a VRF; the second update is refused when [refuse] is set. *)
Definition with_prefixes (refuse : bool) : remote unit :=
  {| api := fun r st =>
       match r with
       | FilterPrefixes =>
           (Prefixes [ {| prefix_id := 11; prefix_vrf := Some "blue" |};
                       {| prefix_id := 12; prefix_vrf := None |};
                       {| prefix_id := 13; prefix_vrf := Some "red" |} ], st)
       | UpdatePrefix id _ =>
           if refuse && bool_decide (id = 13)
           then (RequestError "bad request", st) else (Done, st)
       | ListAll _ => (Records [], st)
       | ListObjectTypes => (ObjectTypes [], st)
       | Create _ _ => (Done, st)
       end;
     sleep := fun _ st => st;
     record_lt := fun _ _ => None;
     sorted := InsertionSort.sorted;
     slugify := fun s => s;
     randColor_generate := fun _ => "#7f7f7f" |}.

End Fixtures.

(** ** Vocabulary for the scan, the rewrite and the log level *)

Module DiscoveryScan.
Import Discovery DiscoveryProps.

(** The file declares [v] as a plugin name: a class at its top level, all
    of whose bases are plain names and one of them [PluginConfig], assigns
    the constant [v] to [name] in its body. *)
Definition declares (body : list stmt) (v : constant) : Prop :=
  exists cname bases cbody target0 targets,
    ClassDef cname bases cbody ∈ body
    /\ Name "PluginConfig" ∈ bases
    /\ forallb is_Name bases = true
    /\ Assign target0 targets (Constant v) ∈ cbody
    /\ Name "name" ∈ target0 :: targets.

(** Reading or parsing the candidate raises, or one of its top-level
    classes has a base that is not a plain name. *)
Definition fails (c : candidate) : bool :=
  match cand_tree c with
  | None => true
  | Some body => negb (forallb simple_bases (classes_of body))
  end.

End DiscoveryScan.

Module RegistrarRuns.

Definition is_CStr (c : constant) : bool :=
  match c with CStr _ => true | _ => false end.

End RegistrarRuns.

(** ** The log level (lines 365-373) *)

Module Verbosity.

(** [logging.ERROR] and [logging.DEBUG]. *)
Definition ERROR : Z := 40.
Definition DEBUG : Z := 10.

(** [logging.ERROR - (10 * args.verbose) if args.verbose > 0 else 0] *)
Definition level (verbose : Z) : Z :=
  if 0 <? verbose then ERROR - 10 * verbose else 0.

(** Whether line 373 sets [sys.tracebacklimit] to 0. *)
Definition tracebacklimit_zero (verbose : Z) : bool := DEBUG <? level verbose.

End Verbosity.

(** ** The installed packages (lines 71-93) *)

Module Packages.
Import InstallGate.

(** An element of the JSON list that [pip list] prints: [name] may be
    missing, the rest is what the gate and the discovery read. *)
Record listItem := {
  item_name : option string;
  item_version : string;
  item_location : option string;
}.

Definition package_of (it : listItem) : package :=
  {| pkg_version := item_version it; pkg_location := item_location it |}.

(** [{item['name']: item for item in ...}]: [None] when an item has no
    [name] (the [KeyError] leaves the comprehension). *)
Fixpoint packages_by_name (items : list listItem) (acc : gmap string package)
  : option (gmap string package) :=
  match items with
  | [] => Some acc
  | it :: rest =>
      match item_name it with
      | Some n => packages_by_name rest (<[n := package_of it]> acc)
      | None => None
      end
  end.

(** [err] and [results] are what [run_process] returns for [pip list];
    each output line comes with what [LoadStrIfJson] makes of it ([None]:
    not a JSON list of objects).  Any exception leaves the dict empty. *)
Definition GetInstalledPackages (err : Z)
    (results : list (option (list listItem))) : gmap string package :=
  if bool_decide (err = 0) && Restore.nonempty results then
    match results with
    | Some items :: _ => default ∅ (packages_by_name items ∅)
    | _ => ∅
    end
  else ∅.

End Packages.

(** ** Vocabulary for the gate and for the blocks of a run *)

Module ReconcilerRun.
Import Reconciler ReconcilerProps.




(** [n] attempts of the gate that failed, each logged and followed by a
    sleep of five seconds, and nothing else. *)
Fixpoint failed_attempts (n : nat) (evs : list event) : Prop :=
  match n with
  | O => evs = []
  | S n' =>
      exists resp msg rest,
        evs = Called (ListAll Sites) resp :: Logged Info msg :: Slept 5 :: rest
        /\ ~ is_Records resp
        /\ failed_attempts n' rest
  end.

Section Run.
Context {St : Type}.
Variable R : remote St.
Variable args : arguments.


(** The loop of lines 720-727 together with the state it has reached when
    the attempts run out; the flag tells whether a listing succeeded. *)
Fixpoint wait_run (fuel : nat) (s : state St) : bool * state St :=
  match fuel with
  | O => (false, s)
  | S fuel' =>
      match all R Sites s with
      | (Ok _, s') => (true, s')
      | (Raised e, s') =>
          wait_run fuel'
            {| server := sleep R 5 (server s');
               trace := trace s' ++ [Logged Info e; Slept 5];
               colors := colors s' |}
      end
  end.

(** The body of the [if] of line 700, likewise: the blocks run once the
    gate is through, and not before. *)
Definition reconciler_run (fuel : nat) (s : state St) : bool * state St :=
  if wait args then
    match wait_run fuel s with
    | (true, s') => (true, (populate R args s').2)
    | (false, s') => (false, s')
    end
  else (true, (populate R args s).2).
End Run.

End ReconcilerRun.

(** ** Vocabulary for the rewrite of the registration file *)

Module RegistrarSpec.
Import Registrar.

(** What the rewrite makes of one statement: the list of an assignment to
    [PLUGINS] gets the missing names appended, at any depth; everything
    else stays as it is. *)
Inductive extended (pluginNames : list constant) : stmt -> stmt -> Prop :=
| extended_list targets elts :
    extended pluginNames
      (Assign (Name "PLUGINS") targets (List elts))
      (Assign (Name "PLUGINS") targets
         (List (elts ++ (Constant <$> missing_plugins pluginNames elts))))
| extended_assign target0 targets value :
    ~ (target0 = Name "PLUGINS" /\ exists elts, value = List elts) ->
    extended pluginNames (Assign target0 targets value)
      (Assign target0 targets value)
| extended_class name bases body body' :
    Forall2 (extended pluginNames) body body' ->
    extended pluginNames (ClassDef name bases body) (ClassDef name bases body')
| extended_compound head body body' :
    Forall2 (extended pluginNames) body body' ->
    extended pluginNames (Compound head body) (Compound head body')
| extended_other src :
    extended pluginNames (OtherStmt src) (OtherStmt src).

Definition is_SrcStmt (i : src_item) : bool :=
  match i with SrcStmt _ => true | _ => false end.

End RegistrarSpec.

(** * Properties *)

(** ** Plugin discovery *)

Section DiscoveryFacts.
Import Discovery DiscoveryProps.

Lemma any_base_simple bases :
  forallb is_Name bases = true -> is_Some (any_base_PluginConfig bases).
Proof.
  intros H. unfold any_base_PluginConfig.
  apply fmap_is_Some, mapM_is_Some, Forall_forall.
  intros b Hb. rewrite forallb_forall in H.
  apply list_elem_of_In, H in Hb. destruct b; try discriminate. by eexists.
Qed.

Lemma any_base_raises bases :
  forallb is_Name bases = false -> any_base_PluginConfig bases = None.
Proof.
  intros H. unfold any_base_PluginConfig.
  destruct (mapM base_is_PluginConfig bases) as [l|] eqn:E; [|done].
  assert (Hs : is_Some (mapM base_is_PluginConfig bases)) by (by eexists).
  apply mapM_is_Some in Hs.
  assert (forallb is_Name bases = true); [|congruence].
  apply forallb_forall. intros b Hb. apply list_elem_of_In in Hb.
  rewrite Forall_forall in Hs. destruct (Hs _ Hb) as [x Hx].
  destruct b; simpl in Hx; try discriminate. done.
Qed.

Lemma scan_classes_simple pre rest names :
  forallb simple_bases pre = true ->
  forallb is_ClassDef pre = true ->
  scan_classes (pre ++ rest) names = scan_classes rest (names ++ collected pre).
Proof.
  revert names. induction pre as [|c pre IH]; intros names Hs Hc; simpl.
  - by rewrite app_nil_r.
  - simpl in Hs, Hc. apply andb_prop in Hs as [Hs1 Hs2].
    apply andb_prop in Hc as [Hc1 Hc2].
    destruct c as [| n bases body | |]; try discriminate.
    simpl in Hs1. destruct (any_base_simple _ Hs1) as [b Hb].
    rewrite Hb. destruct b.
    + rewrite IH by done. by rewrite <- app_assoc.
    + rewrite IH by done. done.
Qed.

Lemma classes_of_all body : forallb is_ClassDef (classes_of body) = true.
Proof.
  apply forallb_forall. intros x Hx. unfold classes_of in Hx.
  apply filter_In in Hx. tauto.
Qed.

(** C10.  When the top-level classes of a candidate file are [pre], then a
    class with a base that is not a simple name, then [post], the scan of
    the file keeps the names of [pre], takes nothing from that class or
    from [post], logs one error, and the scan goes on with the remaining
    candidates. *)
Theorem scan_stops_at_non_name_base :
  forall (c : candidate) (body pre post : list stmt) name bases cbody
         (rest : list candidate) (names : list constant),
    cand_isfile c = true ->
    cand_tree c = Some body ->
    classes_of body = pre ++ ClassDef name bases cbody :: post ->
    forallb simple_bases pre = true ->
    forallb is_Name bases = false ->
    scan_file c names = (names ++ collected pre, [LogError (cand_name c)])
    /\ scan_files (c :: rest) names
       = ((scan_files rest (names ++ collected pre)).1,
          LogError (cand_name c) :: (scan_files rest (names ++ collected pre)).2).
Proof.
  intros c body pre post name bases cbody rest names Hf Ht Hc Hpre Hbad.
  assert (Hscan : scan_file c names
                  = (names ++ collected pre, [LogError (cand_name c)])).
  { unfold scan_file. rewrite Hf, Ht, Hc.
    rewrite scan_classes_simple; [| done |].
    - simpl. by rewrite (any_base_raises _ Hbad).
    - pose proof (classes_of_all body) as Hall. rewrite Hc in Hall.
      rewrite forallb_app in Hall. by apply andb_prop in Hall as [? _]. }
  split; [done|].
  simpl. rewrite Hscan.
  by destruct (scan_files rest (names ++ collected pre)).
Qed.

Lemma scan_stops_at_non_name_base_witness :
  scan_file Examples.dotted_base_file []
  = ([CStr "first_plugin"], [LogError "/opt/plugins/demo/__init__.py"])
  /\ scan_files [Examples.dotted_base_file] []
     = ([CStr "first_plugin"], [LogError "/opt/plugins/demo/__init__.py"]).
Proof.
  exact (scan_stops_at_non_name_base Examples.dotted_base_file _
           [ClassDef "First" [Name "PluginConfig"]
              [Assign (Name "name") [] (Constant (CStr "first_plugin"))]]
           [ClassDef "Third" [Name "PluginConfig"]
              [Assign (Name "name") [] (Constant (CStr "third_plugin"))]]
           "Second" [Attribute (Name "plugins") "PluginConfig"]
           [Assign (Name "name") [] (Constant (CStr "second_plugin"))]
           [] [] eq_refl eq_refl eq_refl eq_refl eq_refl).
Defined.
End DiscoveryFacts.

(** ** Registration file *)

Section RegistrarFacts.
Import Registrar RegistrarProps.

(** Induction on statements, through the nested statement lists. *)
Lemma stmt_nested_ind (P : stmt -> Prop) :
  (forall t ts v, P (Assign t ts v)) ->
  (forall n bases body, Forall P body -> P (ClassDef n bases body)) ->
  (forall h body, Forall P body -> P (Compound h body)) ->
  (forall src, P (OtherStmt src)) ->
  forall s, P s.
Proof.
  intros HA HC HK HO. fix IH 1. intros [t ts v | n bases body | h body | src].
  - apply HA.
  - apply HC. induction body as [|x body IHb]; constructor; [apply IH | apply IHb].
  - apply HK. induction body as [|x body IHb]; constructor; [apply IH | apply IHb].
  - apply HO.
Qed.

Lemma map_id_Forall (f : stmt -> stmt) (body : list stmt) :
  Forall (fun s => f s = s) body -> f <$> body = body.
Proof.
  induction 1 as [|x l Hx _ IH]; [done|]. by rewrite fmap_cons, Hx, IH.
Qed.

Lemma visit_untouched pluginNames s :
  has_PLUGINS_list s = false -> visit pluginNames s = s.
Proof.
  induction s as [t ts v | n bases body IH | h body IH | src]
    using stmt_nested_ind; simpl; intros H.
  - unfold visit_Assign. destruct t as [id| | | |]; try done.
    simpl in H. destruct v; simpl; case_bool_decide; done.
  - f_equal. apply map_id_Forall.
    rewrite Forall_forall in IH |- *. intros x Hx. apply IH; [done|].
    destruct (has_PLUGINS_list x) eqn:E; [|done].
    assert (existsb has_PLUGINS_list body = true); [|congruence].
    apply existsb_exists. exists x. split; [by apply list_elem_of_In | done].
  - f_equal. apply map_id_Forall.
    rewrite Forall_forall in IH |- *. intros x Hx. apply IH; [done|].
    destruct (has_PLUGINS_list x) eqn:E; [|done].
    assert (existsb has_PLUGINS_list body = true); [|congruence].
    apply existsb_exists. exists x. split; [by apply list_elem_of_In | done].
  - done.
Qed.

Lemma visit_no_names s : visit [] s = s.
Proof.
  induction s as [t ts v | n bases body IH | h body IH | src]
    using stmt_nested_ind; simpl.
  - unfold visit_Assign. destruct t as [id| | | |]; try done.
    destruct v; simpl; case_bool_decide; try done.
    simpl. by rewrite app_nil_r.
  - f_equal. by apply map_id_Forall.
  - f_equal. by apply map_id_Forall.
  - done.
Qed.

Lemma ast_parse_unparse body : ast_parse (ast_unparse body) = body.
Proof.
  unfold ast_parse, ast_unparse. induction body; simpl; [done | by f_equal].
Qed.

Lemma elem_of_existingPlugins s elts :
  s ∈ existingPlugins elts <-> Constant (CStr s) ∈ elts.
Proof.
  unfold existingPlugins. rewrite list_elem_of_omap. split.
  - intros (e & He & Hs). destruct e as [| [] | | |]; try discriminate.
    by inversion Hs; subst.
  - intros H. by exists (Constant (CStr s)).
Qed.

Lemma elem_of_missing_plugins pluginNames elts p :
  p ∈ missing_plugins pluginNames elts
  <-> p ∈ pluginNames /\ forall s, p = CStr s -> Constant (CStr s) ∉ elts.
Proof.
  unfold missing_plugins. rewrite list_elem_of_In, filter_In, <- list_elem_of_In.
  split; intros [Hin H]; split; try done.
  - intros s ->. simpl in H. apply negb_true_iff in H.
    apply bool_decide_eq_false in H. by rewrite <- elem_of_existingPlugins.
  - destruct p; try done. simpl. apply negb_true_iff, bool_decide_eq_false.
    rewrite elem_of_existingPlugins. by apply H.
Qed.

(** The block of lines 487-493 runs whatever the transformer found: the
    local [pluginsListFound] of [main] is never written, only the global of
    the same name is. *)
Lemma modify_tree_appends_assignment pluginNames g tree :
  (modify_tree pluginNames g tree).1
  = (visit pluginNames <$> tree) ++ [PLUGINS_assignment pluginNames]
  /\ local_pluginsListFound (modify_tree pluginNames g tree).2 = false.
Proof. split; reflexivity. Qed.

(** The transformer does to every statement what the rewrite is meant
    to do to it. *)
Lemma visit_extended (pluginNames : list constant) (node : stmt) :
  RegistrarSpec.extended pluginNames node (visit pluginNames node).
Proof.
  induction node as [t ts v | n bases body IH | h body IH | src]
    using stmt_nested_ind; simpl.
  - unfold visit_Assign. destruct t as [id| | | |];
      try (constructor; by intros [? _]).
    case_bool_decide as Hid; [subst id|].
    + destruct v as [| | | elts |]; simpl;
        first [by apply RegistrarSpec.extended_list
              | constructor; by intros [_ [? ?]]].
    + simpl. constructor. intros [[= ->] _]. done.
  - constructor. by apply Forall2_fmap_r, Forall_Forall2_diag.
  - constructor. by apply Forall2_fmap_r, Forall_Forall2_diag.
  - constructor.
Qed.

(** C1, as the code has it.  Whenever a name was discovered, the file
    written back is the tree printed anew, so it holds statements only
    (comments and layout are gone): the statements of the original in
    their order, each with the lists of its [PLUGINS] assignments, at any
    depth, extended by exactly the discovered names that are not among
    their string elements; and after them, in every case, one more
    assignment of the whole list of discovered names to [PLUGINS],
    whether or not the file had such an assignment. *)
Theorem plugins_rewrite_always_appends :
  forall (pluginNames : list constant) (code : source),
    pluginNames <> [] ->
    exists body',
      update_plugins_file pluginNames code
      = ast_unparse (body' ++ [PLUGINS_assignment pluginNames])
      /\ Forall2 (RegistrarSpec.extended pluginNames) (ast_parse code) body'
      /\ (forall elts p,
            p ∈ missing_plugins pluginNames elts
            <-> p ∈ pluginNames
                /\ forall s, p = CStr s -> Constant (CStr s) ∉ elts)
      /\ forallb RegistrarSpec.is_SrcStmt
            (update_plugins_file pluginNames code) = true.
Proof.
  intros pluginNames code Hne.
  assert (Hupd : update_plugins_file pluginNames code
                 = ast_unparse ((visit pluginNames <$> ast_parse code)
                                ++ [PLUGINS_assignment pluginNames])).
  { unfold update_plugins_file. by destruct pluginNames. }
  exists (visit pluginNames <$> ast_parse code). split_and!.
  - exact Hupd.
  - apply Forall2_fmap_r, Forall_Forall2_diag, Forall_forall.
    intros node _. apply visit_extended.
  - intros elts p. apply elem_of_missing_plugins.
  - rewrite Hupd. unfold ast_unparse. apply forallb_forall.
    intros i Hi. apply list_elem_of_In, list_elem_of_fmap in Hi as (st & -> & _).
    done.
Qed.

(** On the example of the specification: the comment of the file is
    gone after the rewrite, and the file ends with a second [PLUGINS]
    assignment although it had one. *)
Lemma registration_file_rewritten :
  SrcComment "# active plugins" ∈ Examples.registration_file
  /\ ~ (SrcComment "# active plugins"
         ∈ update_plugins_file Examples.discovered Examples.registration_file)
  /\ update_plugins_file Examples.discovered Examples.registration_file
     = [ SrcStmt (Assign (Name "PLUGINS") []
                    (List [Constant (CStr "existing_plugin");
                           Constant (CStr "new_plugin")]));
         SrcStmt (Assign (Name "PLUGINS") []
                    (List [Constant (CStr "existing_plugin");
                           Constant (CStr "new_plugin")])) ].
Proof.
  split; [by left|]. split; [|reflexivity].
  intros H. vm_compute in H.
  apply elem_of_cons in H as [H|H]; [discriminate|].
  apply elem_of_cons in H as [H|H]; [discriminate|].
  by apply elem_of_nil in H.
Qed.

Lemma plugins_rewrite_always_appends_witness :
  exists body',
    update_plugins_file Examples.discovered Examples.registration_file
    = ast_unparse (body' ++ [PLUGINS_assignment Examples.discovered])
    /\ Forall2 (RegistrarSpec.extended Examples.discovered)
         (ast_parse Examples.registration_file) body'
    /\ (forall elts p,
          p ∈ missing_plugins Examples.discovered elts
          <-> p ∈ Examples.discovered
              /\ forall s, p = CStr s -> Constant (CStr s) ∉ elts)
    /\ forallb RegistrarSpec.is_SrcStmt
          (update_plugins_file Examples.discovered Examples.registration_file)
        = true.
Proof.
  apply (plugins_rewrite_always_appends Examples.discovered
           Examples.registration_file).
  discriminate.
Defined.
End RegistrarFacts.

(** ** Backup artifact selection *)

Section BackupFacts.
Import Backup.
Context {A : Type} (key : A -> Z).

Import BackupProps.

Lemma insert_sorted_perm x l : insert_sorted key x l ≡ₚ x :: l.
Proof.
  induction l as [|y l IH]; simpl; [done|].
  destruct (key x <? key y); [done|]. rewrite IH. apply Permutation_swap.
Qed.

Lemma insert_sorted_ascending x l :
  ascending key l -> ascending key (insert_sorted key x l).
Proof.
  unfold ascending. induction 1 as [|y l Hs IH Hy]; simpl.
  - repeat constructor.
  - destruct (key x <? key y) eqn:E.
    + apply Z.ltb_lt in E. constructor; [by constructor|].
      constructor; [lia|]. eapply Forall_impl; [exact Hy|]. simpl. lia.
    + apply Z.ltb_ge in E. constructor; [done|].
      rewrite insert_sorted_perm. by constructor.
Qed.

Lemma foldl_insert_sorted l acc :
  ascending key acc ->
  ascending key (foldl (fun acc x => insert_sorted key x acc) acc l)
  /\ foldl (fun acc x => insert_sorted key x acc) acc l ≡ₚ acc ++ l.
Proof.
  revert acc. induction l as [|x l IH]; intros acc Hacc; simpl.
  - by rewrite app_nil_r.
  - destruct (IH (insert_sorted key x acc)) as [H1 H2].
    { by apply insert_sorted_ascending. }
    split; [done|]. rewrite H2, insert_sorted_perm.
    simpl. apply Permutation_middle.
Qed.

Lemma sort_by_key_ascending l : ascending key (sort_by_key key l).
Proof. apply foldl_insert_sorted. constructor. Qed.

Lemma sort_by_key_perm l : sort_by_key key l ≡ₚ l.
Proof. apply (foldl_insert_sorted l []). constructor. Qed.

(** The first element of the sorted list has the least key. *)
Lemma sort_by_key_head (d : A) (l : list A) :
  l <> [] ->
  hd d (sort_by_key key l) ∈ l
  /\ forall x, x ∈ l -> key (hd d (sort_by_key key l)) <= key x.
Proof.
  intros Hne.
  pose proof (sort_by_key_ascending l) as Hs.
  pose proof (sort_by_key_perm l) as Hp.
  destruct (sort_by_key key l) as [|y s] eqn:E.
  - apply Permutation_nil_l in Hp. congruence.
  - simpl. split.
    + rewrite <- Hp. by left.
    + intros x Hx. rewrite <- Hp in Hx.
      apply elem_of_cons in Hx as [->|Hx]; [lia|].
      apply StronglySorted_inv in Hs as [_ Hall].
      rewrite Forall_forall in Hall. by apply Hall.
Qed.
End BackupFacts.

Section SelectionFacts.
Import Backup.

Lemma preloadFiles_isfile fs dir x :
  x ∈ preloadFiles fs dir -> isfile fs x = true.
Proof.
  unfold preloadFiles. rewrite !list_elem_of_In, !filter_In. tauto.
Qed.

Lemma selected_in_candidates fs preloadBackupFile preloadDir :
  isfile fs preloadBackupFile = false ->
  isdir fs preloadDir = true ->
  preloadFiles fs preloadDir <> [] ->
  select_preloadDatabaseFile fs preloadBackupFile preloadDir
  ∈ preloadFiles fs preloadDir.
Proof.
  intros Hf Hd Hne. unfold select_preloadDatabaseFile. rewrite Hf, Hd. simpl.
  by apply (sort_by_key_head (getmtime fs) "").
Qed.

(** C2, as the code has it.  With no usable explicit path and an existing
    candidate directory, the artifact selected is a candidate whose
    modification time is the least of all candidates: the oldest file,
    not the newest. *)
Theorem select_takes_oldest :
  forall (fs : filesystem) (preloadBackupFile preloadDir : string),
    isfile fs preloadBackupFile = false ->
    isdir fs preloadDir = true ->
    preloadFiles fs preloadDir <> [] ->
    let f := select_preloadDatabaseFile fs preloadBackupFile preloadDir in
    f ∈ preloadFiles fs preloadDir
    /\ forall x, x ∈ preloadFiles fs preloadDir -> getmtime fs f <= getmtime fs x.
Proof.
  intros fs explicit dir Hf Hd Hne. unfold select_preloadDatabaseFile.
  rewrite Hf, Hd. simpl. by apply sort_by_key_head.
Qed.

Lemma select_takes_oldest_witness :
  select_preloadDatabaseFile Examples.preload_fs "" "/preload"
    = "/preload/2023-06-30.gz"
  /\ "/preload/2024-01-01.gz" ∈ preloadFiles Examples.preload_fs "/preload"
  /\ getmtime Examples.preload_fs "/preload/2023-06-30.gz"
     < getmtime Examples.preload_fs "/preload/2024-01-01.gz"
  /\ forall x, x ∈ preloadFiles Examples.preload_fs "/preload" ->
               getmtime Examples.preload_fs "/preload/2023-06-30.gz"
               <= getmtime Examples.preload_fs x.
Proof.
  split; [reflexivity|]. split; [by left|]. split; [reflexivity|].
  apply (select_takes_oldest Examples.preload_fs "" "/preload");
    [reflexivity | reflexivity | discriminate].
Defined.
End SelectionFacts.

(** ** Computations and their invariants *)

Section StepsFacts.
Import Steps.
Context {S : Type} (Rel : S -> S -> Prop) `{!PreOrder Rel}.

Lemma steps_ret {A} (a : A) : steps Rel (ret a).
Proof. intros s. simpl. reflexivity. Qed.

Lemma steps_raise {A} e : steps Rel (@raise S A e).
Proof. intros s. simpl. reflexivity. Qed.

Lemma steps_bind {A B} (m : M S A) (k : A -> M S B) :
  steps Rel m -> (forall a, steps Rel (k a)) -> steps Rel (bind m k).
Proof.
  intros Hm Hk s. unfold bind. specialize (Hm s).
  destruct (m s) as [[a|e] s']; simpl in *; [|done].
  etransitivity; [exact Hm | apply Hk].
Qed.

Lemma steps_try_except {A} (m : M S A) (h : string -> M S A) :
  steps Rel m -> (forall e, steps Rel (h e)) -> steps Rel (try_except m h).
Proof.
  intros Hm Hh s. unfold try_except. specialize (Hm s).
  destruct (m s) as [[a|e] s']; simpl in *; [done|].
  etransitivity; [exact Hm | apply Hh].
Qed.

Lemma steps_when (b : bool) (m : M S unit) :
  steps Rel m -> steps Rel (when b m).
Proof. intros Hm. destruct b; [done | apply steps_ret]. Qed.

Lemma steps_for_each {A} (l : list A) (body : A -> M S unit) :
  (forall x, steps Rel (body x)) -> steps Rel (for_each l body).
Proof.
  intros Hb. induction l as [|x l IH]; simpl; [apply steps_ret|].
  apply steps_bind; [apply Hb | done].
Qed.

End StepsFacts.

Section RunEquations.
Context {S A B : Type}.

Lemma bind_run (m : M S A) (k : A -> M S B) (s : S) :
  bind m k s = match m s with
               | (Ok a, s') => k a s'
               | (Raised e, s') => (Raised e, s')
               end.
Proof. reflexivity. Qed.

Lemma try_except_run (m : M S A) (h : string -> M S A) (s : S) :
  try_except m h s = match m s with
                     | (Ok a, s') => (Ok a, s')
                     | (Raised e, s') => h e s'
                     end.
Proof. reflexivity. Qed.
End RunEquations.

(** ** Restore orchestrator *)

Section RestoreFacts.
Import Steps Restore RestoreProps.
Variable fs : Backup.filesystem.
Variable e : env.
Variable netboxDir : string.

#[local] Instance quiet_preorder : PreOrder quiet.
Proof.
  split.
  - intros s. split; [done|]. exists []. by rewrite app_nil_r.
  - intros s1 s2 s3 [Hf1 (ev1 & Ht1 & Hq1)] [Hf2 (ev2 & Ht2 & Hq2)].
    split; [congruence|]. exists (ev1 ++ ev2).
    rewrite Ht2, Ht1, app_assoc. split; [done | by apply Forall_app].
Qed.










End RestoreFacts.

(** ** The top-level decision tree *)

Section MainFacts.
Import Main.
Variable fs : Backup.filesystem.
Variable e : Restore.env.
Variable args : arguments.

Lemma restored_skipped :
  Backup.isfile fs (preloadDatabaseFile fs args) = false ->
  restored fs e args = Restore.initial.
Proof. intros H. unfold restored, Restore.restore. by rewrite H. Qed.



End MainFacts.

Section MainExamples.
Import Main.



End MainExamples.

(** ** Dicts and the smallest value *)

Section DictFacts.
Context {K V : Type} `{EqDecision K}.

Lemma set_fresh (k : K) (v : V) (d : list (K * V)) :
  k ∉ Dict.keys d -> Dict.set k v d = d ++ [(k, v)].
Proof.
  unfold Dict.keys. induction d as [|[k' v'] d IH]; simpl; intros Hk; [done|].
  rewrite ?fmap_cons in Hk. simpl in Hk. apply not_elem_of_cons in Hk as [Hne Hk].
  destruct (decide (k = k')); [done|]. by rewrite IH.
Qed.

Lemma foldl_set_fresh (items acc : list (K * V)) :
  NoDup (Dict.keys (acc ++ items)) ->
  foldl (fun d kv => Dict.set kv.1 kv.2 d) acc items = acc ++ items.
Proof.
  revert acc. induction items as [|[k v] items IH]; intros acc Hnd; simpl.
  - by rewrite app_nil_r.
  - assert (Hk : k ∉ Dict.keys acc).
    { unfold Dict.keys in *. rewrite fmap_app, fmap_cons in Hnd.
      apply NoDup_app in Hnd as (_ & Hdis & _). intros Hin.
      apply (Hdis _ Hin). by left. }
    rewrite set_fresh by done. rewrite IH; rewrite <- app_assoc; done.
Qed.

(** A dict rebuilt from its own items is the same dict. *)
Lemma of_items_NoDup (items : list (K * V)) :
  NoDup (Dict.keys items) -> Dict.of_items items = items.
Proof. intros Hnd. unfold Dict.of_items. by rewrite foldl_set_fresh. Qed.

Lemma keys_set (k k' : K) (v' : V) (acc : list (K * V)) :
  k ∈ fst <$> Dict.set k' v' acc <-> k ∈ fst <$> acc \/ k = k'.
Proof.
  induction acc as [|[k2 v2] acc IHa]; simpl.
  - rewrite list_elem_of_singleton, elem_of_nil. tauto.
  - destruct (decide (k' = k2)) as [->|Hne]; simpl.
    + rewrite !elem_of_cons. tauto.
    + rewrite !elem_of_cons, IHa. tauto.
Qed.

Lemma keys_foldl_set (k : K) (items acc : list (K * V)) :
  k ∈ fst <$> foldl (fun d kv => Dict.set kv.1 kv.2 d) acc items
  <-> k ∈ fst <$> acc \/ k ∈ fst <$> items.
Proof.
  revert acc. induction items as [|[k' v'] items IH]; intros acc; simpl.
  - rewrite elem_of_nil. tauto.
  - rewrite IH, keys_set, elem_of_cons. tauto.
Qed.

(** The keys of a dict built from items are the keys of the items. *)
Lemma mem_of_items (k : K) (items : list (K * V)) :
  k ∈ Dict.keys (Dict.of_items items) <-> k ∈ Dict.keys items.
Proof.
  unfold Dict.keys, Dict.of_items. rewrite keys_foldl_set.
  simpl. rewrite elem_of_nil. tauto.
Qed.
End DictFacts.

Section SortedFacts.
Import InsertionSort MinHashProps.
Context {A B : Type} (key : A -> B) (lt : B -> B -> option bool).

Lemma insert_perm x l l' : insert key lt x l = Some l' -> l' ≡ₚ x :: l.
Proof.
  revert l'. induction l as [|y l IH]; simpl; intros l'.
  - by intros [= <-].
  - destruct (lt (key x) (key y)) as [[]|]; [by intros [= <-] | | done].
    destruct (insert key lt x l) as [l2|]; simpl; [|done].
    intros [= <-]. rewrite (IH l2) by done. apply Permutation_swap.
Qed.

Lemma sorted_from_perm l acc l' :
  sorted_from key lt acc l = Some l' -> l' ≡ₚ acc ++ l.
Proof.
  revert acc. induction l as [|x l IH]; simpl; intros acc.
  - intros [= <-]. by rewrite app_nil_r.
  - destruct (insert key lt x acc) as [acc'|] eqn:E; simpl; [|done].
    intros H. rewrite (IH _ H), (insert_perm _ _ _ E).
    simpl. apply Permutation_middle.
Qed.

Hypothesis order : strict_order lt.

Lemma insert_total x l : is_Some (insert key lt x l).
Proof.
  induction l as [|y l [l' IH]]; simpl; [by eexists|].
  destruct (lt_total lt order (key x) (key y)) as [[] ->]; [by eexists|].
  rewrite IH. by eexists.
Qed.

Lemma insert_nondecreasing x l l' :
  nondecreasing key lt l ->
  insert key lt x l = Some l' ->
  nondecreasing key lt l'.
Proof.
  unfold nondecreasing. intros Hs. revert l'.
  induction Hs as [|y l Hs IH Hy]; simpl; intros l'.
  - intros [= <-]. repeat constructor.
  - destruct (lt_total lt order (key x) (key y)) as [[] Hxy]; rewrite Hxy.
    + intros [= <-]. constructor; [by constructor|].
      constructor; [by apply (lt_asym lt order)|].
      eapply Forall_impl; [exact Hy|]. simpl. intros z Hz.
      destruct (lt_total lt order (key z) (key x)) as [[] Hzx]; [|done].
      rewrite (lt_trans lt order _ _ _ Hzx Hxy) in Hz. discriminate.
    + destruct (insert key lt x l) as [l2|] eqn:E; simpl; [|done].
      intros [= <-]. constructor; [by apply IH|].
      rewrite (insert_perm _ _ _ E). by constructor.
Qed.

Lemma sorted_from_total l acc : is_Some (sorted_from key lt acc l).
Proof.
  revert acc. induction l as [|x l IH]; simpl; intros acc; [by eexists|].
  destruct (insert_total x acc) as [acc' ->]. simpl. apply IH.
Qed.

Lemma sorted_from_nondecreasing l acc l' :
  nondecreasing key lt acc ->
  sorted_from key lt acc l = Some l' ->
  nondecreasing key lt l'.
Proof.
  revert acc. induction l as [|x l IH]; simpl; intros acc Hacc.
  - by intros [= <-].
  - destruct (insert key lt x acc) as [acc'|] eqn:E; simpl; [|done].
    apply IH. by eapply insert_nondecreasing.
Qed.
End SortedFacts.

(** The insertion sort keeps to what is assumed of the builtin. *)
Lemma insertion_sort_python_sorted :
  MinHashProps.python_sorted InsertionSort.sorted.
Proof.
  split; unfold InsertionSort.sorted.
  - intros A B key lt [|x [|y l]] Hlen; simpl in *; try done. lia.
  - intros A B key lt [|x [|y l]] Hlt Hlen; simpl in *; try lia.
    by rewrite Hlt.
  - intros A B key lt l Hord.
    destruct (sorted_from_total key lt Hord l []) as [l' Hl'].
    exists l'. split; [done|]. split.
    + by apply (sorted_from_perm _ _ _ _ _ Hl').
    + eapply sorted_from_nondecreasing; [done | constructor | exact Hl'].
Qed.

Section SortedEnds.
Import MinHash MinHashProps.
Context {A B : Type} (key : A -> B) (lt : B -> B -> option bool).
Hypothesis Hord : strict_order lt.

Lemma lt_irrefl (b : B) : lt b b = Some false.
Proof.
  destruct (lt_total lt Hord b b) as [[] Hbb]; [|done].
  pose proof (lt_asym lt Hord _ _ Hbb). congruence.
Qed.

(** The first of a sorted list is below none of the others. *)
Lemma nondecreasing_head (x : A) (l : list A) :
  nondecreasing key lt l -> head l = Some x ->
  forall y, y ∈ l -> lt (key y) (key x) = Some false.
Proof.
  intros Hs Hh y Hy. destruct l as [|x' l]; [done|]. injection Hh as ->.
  apply elem_of_cons in Hy as [->|Hy]; [apply lt_irrefl|].
  apply StronglySorted_inv in Hs as [_ Hall].
  rewrite Forall_forall in Hall. by apply Hall.
Qed.

(** None of the others is below the last. *)
Lemma nondecreasing_last (x : A) (l : list A) :
  nondecreasing key lt l -> last l = Some x ->
  forall y, y ∈ l -> lt (key x) (key y) = Some false.
Proof.
  induction l as [|a l IH]; [done|]. intros Hs Hl y Hy.
  apply StronglySorted_inv in Hs as [Hs Hall].
  destruct l as [|b l].
  { injection Hl as ->. apply list_elem_of_singleton in Hy as ->.
    apply lt_irrefl. }
  change (last (b :: l) = Some x) in Hl.
  apply elem_of_cons in Hy as [->|Hy]; [|by apply IH].
  rewrite Forall_forall in Hall. apply Hall.
  by apply last_Some_elem_of.
Qed.
End SortedEnds.

Section MinHashFacts.
Import MinHash MinHashProps.
Context {K V : Type} `{EqDecision K}.
Variable sorted : sorter.
Hypothesis Hsorted : python_sorted sorted.

Lemma values_sorted (x items : list (K * V)) :
  NoDup (Dict.keys x) ->
  items ≡ₚ x ->
  Dict.values (Dict.of_items items) = snd <$> items.
Proof.
  intros Hnd Hperm. rewrite of_items_NoDup; [done|].
  unfold Dict.keys in *. by rewrite Hperm.
Qed.

(** With a ranking of the values, [min_hash_value_by_value] returns a
    value that no value of the dict is below. *)
Lemma min_hash_value_by_value_least (lt : V -> V -> option bool)
    (x : list (K * V)) :
  strict_order lt ->
  NoDup (Dict.keys x) ->
  x <> [] ->
  exists v, min_hash_value_by_value sorted lt x = Ok (Some v)
            /\ v ∈ Dict.values x
            /\ forall v', v' ∈ Dict.values x -> lt v' v = Some false.
Proof.
  intros Hord Hnd Hne. unfold min_hash_value_by_value.
  destruct (sorted_ranked sorted Hsorted _ _ snd lt x Hord)
    as (items & -> & Hperm & Hs).
  rewrite (values_sorted x items Hnd Hperm).
  destruct items as [|[k v] items].
  { symmetry in Hperm. apply Permutation_nil_r in Hperm. congruence. }
  exists v. split; [done|]. split.
  - unfold Dict.values. rewrite <- Hperm. rewrite fmap_cons. by left.
  - intros v' Hv'. unfold Dict.values in Hv'. rewrite <- Hperm in Hv'.
    apply list_elem_of_fmap in Hv' as (y & -> & Hy).
    by apply (nondecreasing_head snd lt Hord (k, v) _ Hs).
Qed.

(** On an empty dict there is nothing to return, on a dict of one item
    there is nothing to compare. *)
Lemma min_hash_value_by_value_short (lt : V -> V -> option bool) :
  min_hash_value_by_value (K := K) sorted lt [] = Ok None
  /\ forall (k : K) v, min_hash_value_by_value sorted lt [(k, v)] = Ok (Some v).
Proof.
  unfold min_hash_value_by_value. split.
  - rewrite (sorted_short sorted Hsorted); [done | simpl; lia].
  - intros k v. rewrite (sorted_short sorted Hsorted); [done | simpl; lia].
Qed.

(** When no two values can be compared, two items are enough for the sort
    to raise. *)
Lemma min_hash_value_by_value_raises (lt : V -> V -> option bool)
    (x : list (K * V)) :
  (forall v v', lt v v' = None) ->
  (2 <= length x)%nat ->
  min_hash_value_by_value sorted lt x = Raised "TypeError".
Proof.
  intros Hlt Hlen. unfold min_hash_value_by_value.
  by rewrite (sorted_raises sorted Hsorted _ _ snd lt x Hlt Hlen).
Qed.
End MinHashFacts.

Section DeviceTypeFacts.
Import Reconciler MinHash MinHashProps.
Context {St : Type} (R : remote St).
Hypothesis Hsorted : python_sorted (sorted R).

(** When records have no ordering, two manufacturers are enough for the
    payload not to be built: the sort raises. *)
Lemma device_type_payload_unordered (manufs : list (string * record))
    (model : string) (s : state St) :
  (forall a b, record_lt R a b = None) ->
  (2 <= length manufs)%nat ->
  device_type_payload R manufs model s = (Raised "TypeError", s).
Proof.
  intros Hlt Hlen. unfold device_type_payload.
  by rewrite (min_hash_value_by_value_raises (sorted R) Hsorted _ manufs Hlt Hlen).
Qed.

Lemma device_type_payload_short (model : string) (s : state St) :
  device_type_payload R [] model s
  = (Ok (DeviceTypePayload model (slugify R model) None), s)
  /\ forall k v,
       device_type_payload R [(k, v)] model s
       = (Ok (DeviceTypePayload model (slugify R model) (Some (rec_id v))), s).
Proof.
  unfold device_type_payload.
  destruct (min_hash_value_by_value_short (K := string) (sorted R) Hsorted
              (record_lt R)) as [H0 H1].
  split; [by rewrite H0|]. intros k v. by rewrite H1.
Qed.
End DeviceTypeFacts.

(** ** Resource reconciler: the trace of a run *)

Section ReconcilerTrace.
Import Steps Reconciler ReconcilerProps.
Context {St : Type} (R : remote St) (args : arguments).

#[local] Instance grows_preorder : PreOrder (@grows St).
Proof.
  split.
  - intros s. exists []. by rewrite app_nil_r.
  - intros s1 s2 s3 [ev1 H1] [ev2 H2]. exists (ev1 ++ ev2).
    by rewrite H2, H1, app_assoc.
Qed.

Lemma call_run (r : request) (s : state St) :
  call R r s
  = (Ok (api R r (server s)).1,
     {| server := (api R r (server s)).2;
        trace := trace s ++ [Called r (api R r (server s)).1];
        colors := colors s |}).
Proof. unfold call. by destruct (api R r (server s)). Qed.

Lemma grows_call r : steps grows (call R r).
Proof. intros s. rewrite call_run. simpl. by eexists. Qed.

Lemma grows_emit ev : steps grows (@emit St ev).
Proof. intros s. unfold emit, modify. simpl. by eexists. Qed.

Lemma grows_next_color : steps grows (next_color R).
Proof. intros s. unfold next_color. simpl. exists []. by rewrite app_nil_r. Qed.

Ltac grows_step :=
  first
    [ apply (steps_bind grows); [|intros ?]
    | apply (steps_try_except grows); [|intros ?]
    | apply (steps_when grows)
    | apply (steps_for_each grows); intros ?
    | apply grows_call
    | apply grows_emit
    | apply grows_next_color
    | apply (steps_ret grows)
    | apply (steps_raise grows)
    | match goal with |- steps _ (match ?x with _ => _ end) => destruct x end ].

Lemma grows_all k : steps grows (all R k).
Proof. unfold all. repeat grows_step. Qed.

Lemma grows_create k p what : steps grows (create R k p what).
Proof. unfold create, log. repeat grows_step. Qed.

Lemma starts_call {A} r (k : response -> M (state St) A) :
  (forall resp, steps grows (k resp)) -> starts r (bind (call R r) k).
Proof.
  intros Hk s. rewrite bind_run, call_run.
  destruct (Hk (api R r (server s)).1
              {| server := (api R r (server s)).2;
                 trace := trace s ++ [Called r (api R r (server s)).1];
                 colors := colors s |}) as [evs Hevs].
  simpl in Hevs. exists (api R r (server s)).1, evs.
  rewrite Hevs. by rewrite <- app_assoc.
Qed.

Lemma starts_bind {A B} r (m : M (state St) A) (k : A -> M (state St) B) :
  starts r m -> (forall a, steps grows (k a)) -> starts r (bind m k).
Proof.
  intros Hm Hk s. rewrite bind_run. destruct (Hm s) as (resp & rest & Hs).
  destruct (m s) as [[a|e] s1]; simpl in Hs.
  - destruct (Hk a s1) as [evs Hevs]. exists resp, (rest ++ evs).
    rewrite Hevs, Hs. by rewrite <- app_assoc.
  - by exists resp, rest.
Qed.

Lemma starts_all k : starts (ListAll k) (all R k).
Proof. unfold all. apply starts_call. intros resp. repeat grows_step. Qed.

Lemma starts_reconcile k desired mk :
  (forall n, steps grows (mk n)) ->
  starts (ListAll k) (reconcile R k desired mk).
Proof.
  intros Hmk. unfold reconcile. apply starts_bind; [apply starts_all|].
  intros pre.
  repeat first [apply Hmk | apply grows_create | apply grows_all | grows_step].
Qed.

Lemma starts_permissions groups :
  starts ListObjectTypes (reconcile_permissions R args groups).
Proof.
  unfold reconcile_permissions. apply starts_call. intros resp.
  repeat first [apply grows_create | apply grows_all | grows_step].
Qed.

Lemma starts_backfill : starts FilterPrefixes (backfill_prefixes R).
Proof.
  unfold backfill_prefixes. intros s. rewrite try_except_run.
  assert (Hs : starts FilterPrefixes
                 (bind (call R FilterPrefixes)
                    (fun resp =>
                       bind (match resp with
                             | Prefixes l => ret l
                             | RequestError msg => raise msg
                             | Failure msg => raise msg
                             | _ => raise "unexpected response"
                             end)
                         (fun found =>
                            for_each found
                              (fun p =>
                                 match prefix_vrf p with
                                 | Some vrf =>
                                     bind (call R (UpdatePrefix (prefix_id p) vrf))
                                       (fun resp =>
                                          match resp with
                                          | RequestError msg => raise msg
                                          | Failure msg => raise msg
                                          | _ => ret tt
                                          end)
                                 | None => ret tt
                                 end))))).
  { apply starts_call. intros resp. repeat grows_step. }
  destruct (Hs s) as (resp & rest & Hr).
  match goal with |- context [match ?m s with _ => _ end] =>
    change (trace (m s).2 = trace s ++ Called FilterPrefixes resp :: rest) in Hr;
    destruct (m s) as [[[]|e] s1] end; simpl in Hr |- *.
  - by exists resp, rest.
  - unfold log, emit, modify. simpl. exists resp, (rest ++ [Logged Error
      "migrating prefix VRF to prefix description"]).
    rewrite Hr. by rewrite <- app_assoc.
Qed.

Lemma backfill_ok s : (backfill_prefixes R s).1 = Ok tt.
Proof.
  unfold backfill_prefixes. rewrite try_except_run.
  match goal with |- context [match ?m s with _ => _ end] =>
    destruct (m s) as [[[]|e] s1] end; reflexivity.
Qed.

(** A block never raises, and its trace begins with the first call of its
    body. *)
Lemma block_starts {A} r what (body : M (state St) (list A)) s :
  starts r body ->
  exists d s' resp rest,
    block what body s = (Ok d, s')
    /\ trace s' = trace s ++ Called r resp :: rest.
Proof.
  intros Hb. unfold block. rewrite try_except_run.
  destruct (Hb s) as (resp & rest & Hs).
  destruct (body s) as [[d|e] s1]; simpl in Hs.
  - by exists d, s1, resp, rest.
  - rewrite bind_run. unfold log, emit, modify, ret. simpl.
    eexists [], _, resp, (rest ++ [Logged Error what]).
    split; [reflexivity|]. simpl. rewrite Hs. by rewrite <- app_assoc.
Qed.

Lemma grows_ret_payload (p : payload) : steps grows (@ret (state St) _ p).
Proof. apply (steps_ret grows). Qed.

Lemma grows_device_type_payload manufs model :
  steps grows (device_type_payload R manufs model).
Proof.
  unfold device_type_payload.
  destruct (MinHash.min_hash_value_by_value _ _ _); repeat grows_step.
Qed.

(** Every block of [populate] is entered, whatever the earlier blocks met,
    and [populate] itself never raises. *)
Lemma populate_enters_every_block (s : state St) :
  (populate R args s).1 = Ok tt
  /\ forall r, r ∈ first_calls ->
               exists resp, Called r resp ∈ trace (populate R args s).2.
Proof.
  unfold populate.
  destruct (block_starts (ListAll Groups) "groups"
              (reconcile R Groups (DEFAULT_GROUP_NAMES args)
                 (fun n => ret (GroupPayload n))) s)
    as (groups & s1 & c1 & t1 & E1 & T1).
  { apply starts_reconcile. intros n. apply grows_ret_payload. }
  rewrite bind_run, E1.
  destruct (block_starts ListObjectTypes "permissions"
              (reconcile_permissions R args groups) s1)
    as (perms & s2 & c2 & t2 & E2 & T2).
  { apply starts_permissions. }
  rewrite bind_run, E2.
  destruct (block_starts (ListAll Manufacturers) "manufacturers"
              (reconcile R Manufacturers (manufacturers args)
                 (fun n => ret (ManufacturerPayload n (slugify R n)))) s2)
    as (manufs & s3 & c3 & t3 & E3 & T3).
  { apply starts_reconcile. intros n. apply grows_ret_payload. }
  rewrite bind_run, E3.
  destruct (block_starts (ListAll Roles) "roles"
              (reconcile R Roles (roles args)
                 (fun n => bind (next_color R)
                             (fun c => ret (RolePayload n (slugify R n) true c)))) s3)
    as (roles_ & s4 & c4 & t4 & E4 & T4).
  { apply starts_reconcile. intros n. repeat grows_step. }
  rewrite bind_run, E4.
  destruct (block_starts (ListAll DeviceTypes) "device types"
              (reconcile R DeviceTypes (deviceTypes args)
                 (device_type_payload R manufs)) s4)
    as (dts & s5 & c5 & t5 & E5 & T5).
  { apply starts_reconcile. intros n. apply grows_device_type_payload. }
  rewrite bind_run, E5.
  destruct (block_starts (ListAll Sites) "sites"
              (reconcile R Sites (netboxSites args)
                 (fun n => ret (SitePayload n (slugify R n)))) s5)
    as (sites & s6 & c6 & t6 & E6 & T6).
  { apply starts_reconcile. intros n. apply grows_ret_payload. }
  rewrite bind_run, E6.
  split; [apply backfill_ok|].
  destruct (starts_backfill s6) as (c7 & t7 & T7).
  intros r Hr. rewrite T7, T6, T5, T4, T3, T2, T1.
  unfold first_calls in Hr. rewrite !elem_of_cons, elem_of_nil in Hr.
  destruct Hr as [->|[->|[->|[->|[->|[->|[->|[]]]]]]]];
    [exists c1 | exists c2 | exists c3 | exists c4 | exists c5 | exists c6 | exists c7];
    rewrite !elem_of_app, !elem_of_cons; tauto.
Qed.

Lemma all_run k (s : state St) :
  all R k s
  = let resp := (api R (ListAll k) (server s)).1 in
    let s1 := {| server := (api R (ListAll k) (server s)).2;
                 trace := trace s ++ [Called (ListAll k) resp];
                 colors := colors s |} in
    match resp with
    | Records l => (Ok l, s1)
    | RequestError msg => (Raised msg, s1)
    | Failure msg => (Raised msg, s1)
    | _ => (Raised "unexpected response", s1)
    end.
Proof.
  unfold all. rewrite bind_run, call_run. simpl.
  by destruct (api R (ListAll k) (server s)).1.
Qed.

(** The loop ends at the first attempt that succeeds, and leaves the
    attempts and the sleeps in the trace. *)
Lemma wait_loop_ready (n fuel : nat) (s : state St) :
  (n < fuel)%nat ->
  ready_after R n (server s) ->
  exists s' evs, wait_loop R fuel s = Some s'
                 /\ trace s' = trace s ++ evs
                 /\ gate_trace n evs.
Proof.
  revert fuel s. induction n as [|n IH]; intros fuel s Hlt Hready.
  - destruct fuel as [|fuel]; [lia|]. simpl in Hready |- *.
    rewrite all_run. simpl.
    destruct (api R (ListAll Sites) (server s)).1 as [l| | | | |] eqn:E;
      try done.
    eexists _, _. split; [reflexivity|]. simpl. split; [reflexivity|].
    by exists l.
  - destruct fuel as [|fuel]; [lia|]. simpl in Hready |- *.
    destruct Hready as [Hnot Hready].
    rewrite all_run. simpl.
    destruct (api R (ListAll Sites) (server s)).1 as [l| | | |msg|msg] eqn:E;
      try (by destruct Hnot);
      (edestruct (IH fuel) as (s' & evs & Hw & Ht & Hg);
       [ lia | | rewrite Hw; exists s'; eexists; split; [reflexivity|];
               split; [ rewrite Ht; simpl; rewrite <- !app_assoc; reflexivity
                      | simpl; eexists _, _, evs; split; [reflexivity|];
                        split; [|exact Hg]; by rewrite ?E ] ];
       simpl; exact Hready).
Qed.
End ReconcilerTrace.

(** ** Resource reconciler: a server that already holds the desired names *)

Section ReconcilerCalm.
Import Steps Reconciler ReconcilerProps.
Context {St : Type} (R : remote St) (args : arguments).
Context (res : St -> kind -> list record) (r0 : kind -> list record).

(** What is assumed of the remote side: a call that is not a create, and a
    sleep, leave the resources of every kind as they are, and a listing
    returns the resources of its kind. *)
Hypothesis read_only :
  forall r st, ~ is_Create r -> res (api R r st).2 = res st.
Hypothesis list_sound :
  forall k st l, (api R (ListAll k) st).1 = Records l -> l = res st k.
Hypothesis sleep_keeps : forall n st, res (sleep R n st) = res st.

#[local] Instance calm_preorder : PreOrder (calm res r0).
Proof.
  split.
  - intros s Hs. split; [done|]. exists []. by rewrite app_nil_r.
  - intros s1 s2 s3 H12 H23 Hs.
    destruct (H12 Hs) as [Hs2 (ev1 & Ht1 & Hq1)].
    destruct (H23 Hs2) as [Hs3 (ev2 & Ht2 & Hq2)].
    split; [done|]. exists (ev1 ++ ev2).
    rewrite Ht2, Ht1, app_assoc. split; [done | by apply Forall_app].
Qed.

Lemma calm_call r : ~ is_Create r -> steps (calm res r0) (call R r).
Proof.
  intros Hr s Hs. rewrite call_run. simpl. split.
  - by rewrite read_only.
  - eexists. split; [reflexivity|]. constructor; [|constructor].
    simpl. by destruct r.
Qed.

Lemma calm_log l c : steps (calm res r0) (@log St l c).
Proof.
  intros s Hs. unfold log, emit, modify. simpl. split; [done|].
  eexists. split; [reflexivity|]. constructor; [|constructor]. simpl. tauto.
Qed.

Ltac calm_step :=
  first
    [ apply (steps_bind (calm res r0)); [|intros ?]
    | apply (steps_try_except (calm res r0)); [|intros ?]
    | apply (steps_for_each (calm res r0)); intros ?
    | apply calm_call; simpl; tauto
    | apply calm_log
    | apply (steps_ret (calm res r0))
    | apply (steps_raise (calm res r0))
    | match goal with |- steps _ (match ?x with _ => _ end) => destruct x end ].

Lemma calm_all k : steps (calm res r0) (all R k).
Proof. unfold all. repeat calm_step. Qed.

Lemma all_value k (s : state St) l s1 :
  all R k s = (Ok l, s1) -> l = res (server s) k.
Proof.
  rewrite all_run. simpl.
  destruct (api R (ListAll k) (server s)).1 as [l'| | | | |] eqn:E;
    intros [= <- <-]. by apply list_sound.
Qed.

Lemma mem_by_key (n : string) (l : list record) :
  Dict.mem n (by_key l) = true <-> n ∈ rec_key <$> l.
Proof.
  unfold Dict.mem, by_key. rewrite bool_decide_eq_true, mem_of_items.
  unfold Dict.keys. by rewrite <- list_fmap_compose.
Qed.

Lemma absent_nil (l : list record) (names : list string) :
  (forall n, n ∈ names -> n ∈ rec_key <$> l) ->
  absent (by_key l) names = [].
Proof.
  intros H. unfold absent. induction names as [|n names IH]; [done|]. simpl.
  assert (Hn : Dict.mem n (by_key l) = true).
  { apply mem_by_key, H. by left. }
  rewrite Hn. simpl. apply IH. intros m Hm. apply H. by right.
Qed.

(** A block whose desired names the server holds lists twice and creates
    nothing. *)
Lemma calm_reconcile k names mk :
  (forall n, n ∈ names -> n ∈ rec_key <$> r0 k) ->
  steps (calm res r0) (reconcile R k names mk).
Proof.
  intros Hnames s Hs. unfold reconcile. rewrite bind_run.
  pose proof (calm_all k s Hs) as Hc.
  destruct (all R k s) as [[pre|msg] s1] eqn:E; simpl in Hc; [|exact Hc].
  apply all_value in E. rewrite Hs in E. subst pre.
  rewrite absent_nil by done. simpl.
  assert (Hrest : steps (calm res r0)
                    (bind (ret tt)
                       (fun _ : unit =>
                          bind (all R k) (fun post => ret (by_key post))))).
  { repeat first [apply calm_all | calm_step]. }
  refine (calm_preorder.(PreOrder_Transitive) s s1 _ _ _ Hs);
    [by intros _ | apply Hrest].
Qed.

Lemma permissions_nil (l : list record) :
  (forall n, n ∈ desired args Permissions -> n ∈ rec_key <$> l) ->
  List.filter (fun kv : string * permConfig =>
                 negb (bool_decide (perm_name kv.2 = ""))
                 && negb (Dict.mem (perm_name kv.2) (by_key l)))
    (DEFAULT_PERMISSIONS args) = [].
Proof.
  unfold desired. intros H.
  induction (DEFAULT_PERMISSIONS args) as [|kv d IH]; [done|]. simpl.
  assert (Hn : Dict.mem (perm_name kv.2) (by_key l) = true).
  { apply mem_by_key, H. rewrite fmap_cons. by left. }
  rewrite Hn, andb_false_r. apply IH. intros n Hin. apply H.
  rewrite fmap_cons. by right.
Qed.

Lemma calm_permissions groups :
  (forall n, n ∈ desired args Permissions -> n ∈ rec_key <$> r0 Permissions) ->
  steps (calm res r0) (reconcile_permissions R args groups).
Proof.
  intros Hnames s Hs. unfold reconcile_permissions.
  rewrite bind_run, call_run.
  pose proof (calm_call ListObjectTypes (fun H => H) s Hs) as Hc.
  rewrite call_run in Hc. simpl in Hc.
  set (s1 := {| server := (api R ListObjectTypes (server s)).2;
                trace := trace s ++ [Called ListObjectTypes
                                       (api R ListObjectTypes (server s)).1];
                colors := colors s |}) in *.
  refine (calm_preorder.(PreOrder_Transitive) s s1 _ _ _ Hs); [by intros _|].
  destruct Hc as [Hs1 _]. clear Hs. change (res (server s1) = r0) in Hs1.
  destruct (api R ListObjectTypes (server s)).1 as [|ots| | | |];
    try (simpl; reflexivity).
  rewrite bind_run. unfold ret at 1. rewrite bind_run.
  pose proof (calm_all Permissions s1) as Hc2.
  destruct (all R Permissions s1) as [[pre|msg] s2] eqn:E; simpl in Hc2;
    [|exact Hc2].
  apply all_value in E. rewrite Hs1 in E. subst pre.
  rewrite permissions_nil by done. simpl.
  assert (Hrest : steps (calm res r0)
                    (bind (ret tt)
                       (fun _ : unit =>
                          bind (all R Permissions)
                            (fun post => ret (by_key post))))).
  { repeat first [apply calm_all | calm_step]. }
  exact (calm_preorder.(PreOrder_Transitive) s1 s2 _ Hc2 (Hrest s2)).
Qed.

Lemma calm_backfill : steps (calm res r0) (backfill_prefixes R).
Proof. unfold backfill_prefixes. repeat calm_step. Qed.

Lemma calm_block {A} what (body : M (state St) (list A)) :
  steps (calm res r0) body -> steps (calm res r0) (block what body).
Proof. intros Hb. unfold block. repeat calm_step. exact Hb. Qed.

Lemma calm_populate :
  (forall k n, n ∈ desired args k -> n ∈ rec_key <$> r0 k) ->
  steps (calm res r0) (populate R args).
Proof.
  intros Hd. unfold populate.
  apply (steps_bind (calm res r0)).
  { apply calm_block, calm_reconcile, (Hd Groups). }
  intros groups. apply (steps_bind (calm res r0)).
  { apply calm_block, calm_permissions, (Hd Permissions). }
  intros perms. apply (steps_bind (calm res r0)).
  { apply calm_block, calm_reconcile, (Hd Manufacturers). }
  intros manufs. apply (steps_bind (calm res r0)).
  { apply calm_block, calm_reconcile, (Hd Roles). }
  intros roles_. apply (steps_bind (calm res r0)).
  { apply calm_block, calm_reconcile, (Hd DeviceTypes). }
  intros dts. apply (steps_bind (calm res r0)).
  { apply calm_block, calm_reconcile, (Hd Sites). }
  intros sites. apply calm_backfill.
Qed.

Lemma calm_wait_loop fuel (s s' : state St) :
  wait_loop R fuel s = Some s' -> calm res r0 s s'.
Proof.
  revert s. induction fuel as [|fuel IH]; simpl; intros s; [done|].
  pose proof (calm_all Sites s) as Hc.
  destruct (all R Sites s) as [[l|msg] s1]; simpl in Hc.
  - by intros [= <-].
  - intros Hw. apply IH in Hw.
    apply (calm_preorder.(PreOrder_Transitive) s s1); [exact Hc|].
    eapply (calm_preorder.(PreOrder_Transitive)); [|exact Hw].
    intros Hs1. simpl. split; [by rewrite sleep_keeps|].
    eexists. split; [reflexivity|].
    constructor; [simpl; tauto|]. constructor; [simpl; tauto|]. constructor.
Qed.
End ReconcilerCalm.

(** ** Resource reconciler: idempotence *)

Section ReconcilerTheorems.
Import Steps Reconciler ReconcilerProps.

(** C7.  On a remote side whose listings are faithful and whose reads and
    sleeps change no resource, when every desired name of every kind is
    already there, a run of the reconciler (which ends as soon as the gate
    lets it through) issues no create call and leaves the resources of
    every kind as they were. *)
Theorem reconciler_idempotent :
  forall St (R : remote St) (args : arguments)
         (res : St -> kind -> list record),
    (forall r st, ~ is_Create r -> res (api R r st).2 = res st) ->
    (forall k st l, (api R (ListAll k) st).1 = Records l -> l = res st k) ->
    (forall n st, res (sleep R n st) = res st) ->
    forall (st : St) (fuel : nat),
      (forall k n, n ∈ desired args k -> n ∈ rec_key <$> res st k) ->
      wait args = false \/ (exists n, (n < fuel)%nat /\ ready_after R n st) ->
      exists s', reconciler R args fuel (initial st) = Some s'
                 /\ res (server s') = res st
                 /\ forall k p resp, ~ Called (Create k p) resp ∈ trace s'.
Proof.
  intros St R args res Hread Hlist Hsleep st fuel Hdesired Hgate.
  set (r0 := res st).
  assert (Hw : exists s1, wait_for_connection R args fuel (initial st) = Some s1
                          /\ calm res r0 (initial st) s1).
  { unfold wait_for_connection. destruct Hgate as [-> | (n & Hlt & Hready)].
    - exists (initial st). split; [done|].
      apply (calm_preorder res r0).(PreOrder_Reflexive).
    - destruct (wait args).
      + destruct (wait_loop_ready R n fuel (initial st) Hlt Hready)
          as (s1 & evs & Hs1 & _).
        exists s1. split; [done|].
        by apply (calm_wait_loop R res r0 Hread Hsleep fuel).
      + exists (initial st). split; [done|].
        apply (calm_preorder res r0).(PreOrder_Reflexive). }
  destruct Hw as (s1 & Hw & Hc1).
  unfold reconciler. rewrite Hw. simpl.
  exists (populate R args s1).2. split; [done|].
  pose proof (calm_populate R args res r0 Hread Hlist Hdesired s1) as Hc2.
  destruct ((calm_preorder res r0).(PreOrder_Transitive) _ _ _ Hc1 Hc2 eq_refl)
    as [Hres (evs & Ht & Hq)].
  split; [exact Hres|].
  intros k p resp Hin. rewrite Ht in Hin. simpl in Hin.
  rewrite Forall_forall in Hq. by apply (Hq _ Hin).
Qed.

End ReconcilerTheorems.

Section ReconcilerExamples.
Import Reconciler ReconcilerProps.

Lemma sim_read_only r st :
  ~ is_Create r -> Sim.records_of (Sim.api r st).2 = Sim.records_of st.
Proof.
  intros Hr. unfold Sim.api. case_bool_decide; [done|].
  destruct r; simpl in Hr |- *; try done; by destruct Hr.
Qed.

Lemma sim_list_sound k st l :
  (Sim.api (ListAll k) st).1 = Records l -> l = Sim.records_of st k.
Proof. unfold Sim.api. case_bool_decide; [done|]. simpl. by intros [= <-]. Qed.

Lemma populated_holds_desired k n :
  n ∈ desired (Examples.api_arguments true) k ->
  n ∈ rec_key <$> Sim.records_of Examples.populated k.
Proof.
  revert n. apply Forall_forall. destruct k; by apply (bool_decide_unpack _).
Qed.

Lemma reconciler_idempotent_witness :
  exists s', reconciler Sim.remote (Examples.api_arguments true) 1
               (initial Examples.populated) = Some s'
             /\ Sim.records_of (server s') = Sim.records_of Examples.populated
             /\ forall k p resp, ~ Called (Create k p) resp ∈ trace s'.
Proof.
  apply (reconciler_idempotent Sim.st Sim.remote (Examples.api_arguments true)
           Sim.records_of sim_read_only sim_list_sound
           (fun _ _ => eq_refl) Examples.populated 1
           populated_holds_desired).
  right. exists 0%nat. split; [lia | exact I].
Defined.

End ReconcilerExamples.

(** ** Package install gate *)

Section InstallGateFacts.
Import InstallGate InstallGateProps.
Context {version : Type}.
Variable Version : option string -> option version.
Variable version_gt : version -> version -> bool.
Variable installed : gmap string package.

Lemma item_needs_install_true name v :
  item_needs_install Version version_gt installed name v = Some true
  <-> new_or_newer Version version_gt installed name v.
Proof.
  unfold item_needs_install, new_or_newer. destruct name as [n|]; [|done].
  destruct (installed !! n) as [p|]; [|done]. split.
  - destruct (Version v) as [new|]; simpl; [|done].
    destruct (Version (Some (pkg_version p))) as [old|]; simpl; [|done].
    intros [= Hgt]. by exists new, old.
  - intros (new & old & -> & -> & Hgt). simpl. by rewrite Hgt.
Qed.

Lemma item_needs_install_total info :
  comparable Version installed info ->
  Forall (fun kv => is_Some (item_needs_install Version version_gt installed
                               kv.1 kv.2)) info.
Proof.
  intros Hc. apply Forall_forall. intros [name v] Hin. simpl.
  unfold item_needs_install. destruct name as [n|]; [|by eexists].
  destruct (installed !! n) as [p|] eqn:E; [|by eexists].
  destruct (Hc n v p Hin E) as [[new ->] [old ->]]. simpl. by eexists.
Qed.

Lemma selected_names (f : option string * option string -> option bool)
    (info : list (option string * option string)) (conds : list bool) :
  Forall2 (fun kv c => f kv = Some c) info conds ->
  existsb truthy (fst <$> List.filter snd (zip (fst <$> info) conds)) = true
  <-> exists kv, kv ∈ info /\ truthy kv.1 = true /\ f kv = Some true.
Proof.
  induction 1 as [|kv c info conds Hkv _ IH]; simpl.
  - split; [done|]. intros (kv & Hin & _). by apply elem_of_nil in Hin.
  - destruct c; simpl.
    + rewrite orb_true_iff, IH. split.
      * intros [Ht | (kv' & Hin & Ht & Hf)].
        -- exists kv. split; [by left | done].
        -- exists kv'. split; [by right | done].
      * intros (kv' & Hin & Ht & Hf).
        apply elem_of_cons in Hin as [->|Hin]; [by left|].
        right. by exists kv'.
    + rewrite IH. split.
      * intros (kv' & Hin & Ht & Hf). exists kv'. split; [by right | done].
      * intros (kv' & Hin & Ht & Hf).
        apply elem_of_cons in Hin as [->|Hin]; [congruence|]. by exists kv'.
Qed.

(** The decision on a report whose versions parse wherever the gate
    compares them: the names selected by the comprehension are tested for
    their truth value. *)
Lemma any_selected_decision info :
  comparable Version installed info ->
  exists b,
    any_selected Version version_gt installed info = Some b
    /\ (b = true
        <-> exists name v,
              (name, v) ∈ info
              /\ truthy name = true
              /\ new_or_newer Version version_gt installed name v).
Proof.
  intros Hcomp. unfold any_selected.
  destruct (mapM_is_Some_2 _ _ (item_needs_install_total _ Hcomp))
    as [conds Hconds].
  rewrite Hconds. simpl. eexists. split; [reflexivity|].
  apply mapM_Some in Hconds.
  rewrite (selected_names _ _ _ Hconds). split.
  - intros ([name v] & Hin & Ht & Hf). exists name, v.
    split; [done|]. split; [done|]. by apply item_needs_install_true.
  - intros (name & v & Hin & Ht & Hf). exists (name, v).
    split; [done|]. split; [done|]. by apply item_needs_install_true.
Qed.

(** A version that does not parse, where the gate compares, makes the
    comprehension raise. *)
Lemma any_selected_raises info n v p :
  (Some n, v) ∈ info ->
  installed !! n = Some p ->
  Version v = None \/ Version (Some (pkg_version p)) = None ->
  any_selected Version version_gt installed info = None.
Proof.
  intros Hin Hp Hbad. unfold any_selected.
  assert (Hnone : mapM (fun kv => item_needs_install Version version_gt
                                    installed kv.1 kv.2) info = None).
  { apply mapM_None, Exists_exists. exists (Some n, v). split; [done|].
    simpl. rewrite Hp. destruct Hbad as [-> | Hold]; [done|].
    rewrite Hold. by destruct (Version v). }
  by rewrite Hnone.
Qed.

(** C8, as the code has it.  Without a report (non-zero exit or no report
    file) installation is taken to be necessary.  With a report whose
    package names are non-empty and whose versions parse wherever the gate
    compares them, installation is decided necessary exactly when the
    report holds a package that is not installed, or whose reported version
    is above the installed one in the order of [Version].  A compared
    version that does not parse makes the gate raise instead of decide. *)
Theorem install_gate_decision :
  forall dry : dryRun,
    (dry_err dry <> 0 \/ dry_report_isfile dry = false ->
     pluginNeedsInstall Version version_gt installed dry = Some true)
    /\ (forall report,
          dry_err dry = 0 ->
          dry_report_isfile dry = true ->
          dry_report dry = Some report ->
          (forall name v, (name, v) ∈ wouldInstallInfo report ->
                          truthy name = true) ->
          comparable Version installed (wouldInstallInfo report) ->
          exists b,
            pluginNeedsInstall Version version_gt installed dry = Some b
            /\ (b = true
                <-> exists name v,
                      (name, v) ∈ wouldInstallInfo report
                      /\ new_or_newer Version version_gt installed name v))
    /\ (forall report n v p,
          dry_err dry = 0 ->
          dry_report_isfile dry = true ->
          dry_report dry = Some report ->
          (Some n, v) ∈ wouldInstallInfo report ->
          installed !! n = Some p ->
          Version v = None \/ Version (Some (pkg_version p)) = None ->
          pluginNeedsInstall Version version_gt installed dry = None).
Proof.
  intros dry. split; [|split].
  - intros [Herr | Hfile]; unfold pluginNeedsInstall.
    + by rewrite (bool_decide_false _ Herr).
    + by rewrite Hfile, andb_false_r.
  - intros report Herr Hfile Hreport Hnames Hcomp. unfold pluginNeedsInstall.
    rewrite (bool_decide_true _ Herr), Hfile, Hreport. simpl.
    destruct (any_selected_decision _ Hcomp) as (b & Hb & Hiff).
    exists b. split; [done|]. rewrite Hiff. split.
    + intros (name & v & Hin & _ & Hn). by exists name, v.
    + intros (name & v & Hin & Hn). exists name, v.
      split; [done|]. split; [by eapply Hnames | done].
  - intros report n v p Herr Hfile Hreport Hin Hp Hbad.
    unfold pluginNeedsInstall.
    rewrite (bool_decide_true _ Herr), Hfile, Hreport. simpl.
    by eapply any_selected_raises.
Qed.
End InstallGateFacts.

Section InstallGateExamples.
Import InstallGate InstallGateProps.

(** The gate compares versions, not strings: 1.10.0 is above 1.9.0. *)
Lemma release_order_not_string_order :
  (Release.Version (Some "1.10.0") ≫= fun a =>
   Release.Version (Some "1.9.0") ≫= fun b => Some (Release.gt a b))
  = Some true
  /\ String.ltb "1.10.0" "1.9.0" = true.
Proof. split; reflexivity. Qed.

(** The example of the specification: [foo] installed at 1.0.0. *)
Lemma version_gated_install :
  pluginNeedsInstall Release.Version Release.gt Examples.foo_installed
    (Examples.dry_run_of [("foo", "1.0.0")]) = Some false
  /\ pluginNeedsInstall Release.Version Release.gt Examples.foo_installed
       (Examples.dry_run_of [("foo", "1.1.0")]) = Some true
  /\ pluginNeedsInstall Release.Version Release.gt Examples.foo_installed
       (Examples.dry_run_of [("foo", "1.0.0"); ("bar", "0.1")]) = Some true.
Proof. repeat split; vm_compute; reflexivity. Qed.

(** C8 as stated fails.  A report that holds only the empty package name,
    which is not installed, is decided unnecessary; and a report that holds
    a package that is not installed, next to an installed one whose
    reported version does not parse, is not decided at all. *)
Lemma install_gate_counterexample :
  ((Some "", Some "1.0.0")
     ∈ wouldInstallInfo
         (default [] (dry_report (Examples.dry_run_of [("", "1.0.0")])))
   /\ not_installed Examples.foo_installed (Some "") = true
   /\ pluginNeedsInstall Release.Version Release.gt Examples.foo_installed
        (Examples.dry_run_of [("", "1.0.0")]) = Some false)
  /\ ((Some "bar", Some "0.1")
        ∈ wouldInstallInfo
            (default [] (dry_report
                           (Examples.dry_run_of
                              [("bar", "0.1"); ("foo", "unknown")])))
      /\ not_installed Examples.foo_installed (Some "bar") = true
      /\ pluginNeedsInstall Release.Version Release.gt Examples.foo_installed
           (Examples.dry_run_of [("bar", "0.1"); ("foo", "unknown")]) = None).
Proof.
  split; (split; [|split; vm_compute; reflexivity]).
  - by left.
  - by left.
Qed.

Lemma install_gate_decision_witness :
  exists b,
    pluginNeedsInstall Release.Version Release.gt Examples.foo_installed
      (Examples.dry_run_of [("foo", "1.1.0")]) = Some b
    /\ (b = true
        <-> exists name v,
              (name, v) ∈ wouldInstallInfo
                            [ {| metadata_name := Some "foo";
                                 metadata_version := Some "1.1.0" |} ]
              /\ new_or_newer Release.Version Release.gt
                   Examples.foo_installed name v).
Proof.
  apply (install_gate_decision Release.Version Release.gt
           Examples.foo_installed (Examples.dry_run_of [("foo", "1.1.0")]));
    [reflexivity | reflexivity | reflexivity | |].
  - intros name v Hin. apply list_elem_of_singleton in Hin.
    by injection Hin as -> ->.
  - intros n v p Hin Hp. apply list_elem_of_singleton in Hin.
    injection Hin as -> ->.
    vm_compute in Hp. injection Hp as <-. split; by eexists.
Defined.
End InstallGateExamples.

(** ** Worked examples *)

Section WorkedExamples.

(** The media archive that goes with a dump. *)
Lemma media_archive_name :
  Path.splitext_root "/preload/2024-01-01.gz" +:+ ".media.tar.gz"
  = "/preload/2024-01-01.media.tar.gz".
Proof. reflexivity. Qed.

(** The media archive is not a candidate dump. *)
Lemma media_archive_excluded :
  Backup.preloadFiles Examples.preload_fs "/preload"
  = ["/preload/2024-01-01.gz"; "/preload/2023-06-30.gz"].
Proof. reflexivity. Qed.

(** The object types of a permission are the known ones less the excluded
    ones. *)
Lemma permission_object_types :
  Reconciler.applied_object_types ["a.b"; "c.d"; "e.f"] ["c.d"] = ["a.b"; "e.f"].
Proof. reflexivity. Qed.

(** A restore in which every command succeeds records success; the
    reconciler phase is then skipped. *)
Lemma healthy_restore :
  Restore.preloadDatabaseSuccess
    (Main.restored Examples.preload_fs Examples.healthy
       (Examples.main_arguments "" true)) = true
  /\ Main.populate_via_api Examples.preload_fs Examples.healthy
       (Examples.main_arguments "" true) = false.
Proof. split; reflexivity. Qed.

(** A first run on the empty simulated remote creates what is desired. *)
Lemma first_run_store :
  (fun s => Sim.store (Reconciler.server s))
    <$> Reconciler.reconciler Sim.remote (Examples.api_arguments true) 1
          (Reconciler.initial (Sim.empty []))
  = Some (Sim.store Examples.populated).
Proof. vm_compute. reflexivity. Qed.

(** A second run on the simulated remote leaves its store as the first run
    left it. *)
Lemma second_run_same_store :
  (fun s => Sim.store (Reconciler.server s))
    <$> Reconciler.reconciler Sim.remote (Examples.api_arguments true) 1
          (Reconciler.initial Examples.populated)
  = Some (Sim.store Examples.populated).
Proof. vm_compute. reflexivity. Qed.
End WorkedExamples.

(** * Further properties *)

(** ** The steps of a restore *)

Section RestoreSequenceFacts.
Import Restore RestoreSequence.
Variable fs : Backup.filesystem.
Variable e : env.
Variable netboxDir : string.

Lemma oblivious_ret {A} (a : A) : oblivious (ret a).
Proof. intros s. simpl. by rewrite app_nil_r, orb_false_r. Qed.

Lemma oblivious_raise {A} msg : oblivious (@raise state A msg).
Proof. intros s. simpl. by rewrite app_nil_r, orb_false_r. Qed.

Lemma oblivious_emit ev : oblivious (emit ev).
Proof. intros s. unfold emit, modify. simpl. by rewrite orb_false_r. Qed.

Lemma oblivious_set_success : oblivious set_success.
Proof.
  intros s. unfold set_success, modify. simpl.
  by rewrite app_nil_r, orb_true_r.
Qed.

Lemma oblivious_bind {A B} (m : M state A) (k : A -> M state B) :
  oblivious m -> (forall a, oblivious (k a)) -> oblivious (bind m k).
Proof.
  intros Hm Hk s. rewrite !bind_run. destruct (Hm s) as (H1 & H2 & H3).
  destruct (m s) as [[a|msg] s1], (m initial) as [[a0|msg0] s0];
    simpl in *; try discriminate.
  - injection H1 as ->.
    destruct (Hk a0 s1) as (K1 & K2 & K3), (Hk a0 s0) as (L1 & L2 & L3).
    split; [congruence|]. split.
    + rewrite K2, H2, L2. by rewrite app_assoc.
    + rewrite K3, H3, L3. by rewrite orb_assoc.
  - injection H1 as ->. by split_and!.
Qed.

Lemma oblivious_try_except {A} (m : M state A) (h : string -> M state A) :
  oblivious m -> (forall msg, oblivious (h msg)) -> oblivious (try_except m h).
Proof.
  intros Hm Hh s. rewrite !try_except_run. destruct (Hm s) as (H1 & H2 & H3).
  destruct (m s) as [[a|msg] s1], (m initial) as [[a0|msg0] s0];
    simpl in *; try discriminate; [by split_and!|].
  injection H1 as ->.
  destruct (Hh msg0 s1) as (K1 & K2 & K3), (Hh msg0 s0) as (L1 & L2 & L3).
  split; [congruence|]. split.
  - rewrite K2, H2, L2. by rewrite app_assoc.
  - rewrite K3, H3, L3. by rewrite orb_assoc.
Qed.

Lemma oblivious_when b (m : M state unit) : oblivious m -> oblivious (when b m).
Proof. intros Hm. destruct b; [done | apply oblivious_ret]. Qed.

Lemma oblivious_for_each {A} (l : list A) (body : A -> M state unit) :
  (forall x, oblivious (body x)) -> oblivious (for_each l body).
Proof.
  intros Hb. induction l as [|x l IH]; simpl; [apply oblivious_ret|].
  apply oblivious_bind; [apply Hb | done].
Qed.

Lemma oblivious_run c : oblivious (run e c).
Proof.
  unfold run. cbv zeta. apply oblivious_bind; [apply oblivious_emit|].
  intros _. apply oblivious_ret.
Qed.

Ltac oblivious_step :=
  first
    [ apply oblivious_run
    | apply oblivious_emit
    | apply oblivious_set_success
    | apply oblivious_ret
    | apply oblivious_raise
    | apply oblivious_when
    | apply oblivious_for_each; intros ?
    | apply oblivious_bind; [|intros ?]
    | match goal with
      | |- oblivious (let (_, _) := ?x in _) => destruct x
      | |- oblivious (match ?x with _ => _ end) => destruct x
      | |- oblivious (log _ _) => unfold log
      end ].

Ltac oblivious_tac :=
  intros;
  repeat first
    [ match goal with H : forall a, oblivious (_ a) |- _ => apply H end
    | oblivious_step ].

Lemma oblivious_after_load file : oblivious (after_load fs e netboxDir file).
Proof. unfold after_load. oblivious_tac. Qed.

Lemma oblivious_load_backup file : oblivious (load_backup e file).
Proof. unfold load_backup. oblivious_tac. Qed.

(** How a sequence sums up, from the summary of what follows. *)
Lemma summary_bind {A B} (m : M state A) (k : A -> M state B) :
  (forall a, oblivious (k a)) ->
  summary (bind m k)
  = match (m initial).1 with
    | Ok a =>
        ((summary (k a)).1.1,
         steps_of (trace (m initial).2) ++ (summary (k a)).1.2,
         preloadDatabaseSuccess (m initial).2 || (summary (k a)).2)
    | Raised msg =>
        (Raised msg, steps_of (trace (m initial).2),
         preloadDatabaseSuccess (m initial).2)
    end.
Proof.
  intros Hk. unfold summary. rewrite bind_run.
  destruct (m initial) as [[a|msg] s1]; simpl; [|done].
  destruct (Hk a s1) as (K1 & K2 & K3). rewrite K1, K2, K3.
  unfold steps_of. by rewrite List.filter_app.
Qed.

Lemma summary_run_bind {B} c (k : Z * list string -> M state B) :
  (forall a, oblivious (k a)) ->
  summary (bind (run e c) k) = prepend [ran e c] (summary (k (run_process e c))).
Proof. intros Hk. by rewrite summary_bind. Qed.

Lemma summary_log_bind {B} b l c (k : unit -> M state B) :
  (forall a, oblivious (k a)) ->
  summary (bind (when b (log l c)) k) = summary (k tt).
Proof.
  intros Hk. rewrite summary_bind by done.
  destruct b; unfold when, log, emit, modify, ret; reflexivity.
Qed.

Lemma summary_ext {A} (m m' : M state A) :
  (forall s, m s = m' s) -> summary m = summary m'.
Proof. intros H. unfold summary. by rewrite H. Qed.

Lemma bind_assoc_run {A B C} (m : M state A) (f : A -> M state B)
    (g : B -> M state C) s :
  bind (bind m f) g s = bind m (fun a => bind (f a) g) s.
Proof. rewrite !bind_run. by destruct (m s) as [[a|msg] s1]. Qed.

(** The migration operations all run, whatever each of them returns. *)
Lemma summary_operations {B} (ops : list (list string)) (k : unit -> M state B) :
  (forall a, oblivious (k a)) ->
  summary
    (bind (for_each ops
             (fun operation =>
                bind (run e (Manage operation))
                  (fun '(err, results) =>
                     when (negb (bool_decide (err = 0)) || negb (nonempty results))
                       (log Error "performing NetBox operation"))))
       k)
  = prepend ((fun op => ran e (Manage op)) <$> ops) (summary (k tt)).
Proof.
  intros Hk. induction ops as [|op ops IH]; simpl.
  - change (summary (k tt) = prepend [] (summary (k tt))).
    by destruct (summary (k tt)) as [[? ?] ?].
  - erewrite summary_ext.
    2:{ intros s. rewrite bind_assoc_run, bind_assoc_run. reflexivity. }
    rewrite summary_run_bind by oblivious_tac.
    destruct (run_process e (Manage op)) as [err res] eqn:E.
    cbv beta iota. rewrite summary_log_bind by oblivious_tac.
    rewrite IH. by destruct (summary (k tt)) as [[? ?] ?].
Qed.

Lemma summary_ret_bind {A B} (a : A) (k : A -> M state B) :
  summary (bind (ret a) k) = summary (k a).
Proof. reflexivity. Qed.

Lemma summary_raise_bind {A B} msg (k : A -> M state B) :
  summary (bind (raise msg) k) = (Raised msg, [], false).
Proof. reflexivity. Qed.

Ltac run_step c E :=
  rewrite (summary_run_bind c) by oblivious_tac;
  destruct (run_process e c) as [? ?] eqn:E;
  cbv beta iota;
  try rewrite summary_log_bind by oblivious_tac.

(** The steps after a successful load, in order. *)
Lemma summary_after_load file :
  (summary (after_load fs e netboxDir file)).1.2
  = [ran e MigrateVrfNames; ran e TruncateUsers; ran e SupervisorStart]
    ++ steps_in_manage_dir fs e netboxDir file
  /\ (summary (after_load fs e netboxDir file)).2 = false.
Proof.
  unfold after_load, steps_in_manage_dir, migrations_pending.
  run_step MigrateVrfNames E1. run_step TruncateUsers E2.
  run_step SupervisorStart E3.
  destruct (pushd_manage e); [|by rewrite summary_raise_bind].
  rewrite summary_ret_bind. run_step MigrateCheck E4.
  change ((z2, l2).1) with z2.
  assert (Htail :
    forall k : unit -> M state unit,
      (forall a, oblivious (k a)) ->
      summary
        (bind
           (when (negb (bool_decide (z2 = 0)))
              (for_each operations
                 (fun operation =>
                    bind (run e (Manage operation))
                      (fun '(err, results) =>
                         when (negb (bool_decide (err = 0))
                               || negb (nonempty results))
                           (log Error "performing NetBox operation")))))
           k)
      = prepend (if negb (bool_decide (z2 = 0))
                 then (fun op => ran e (Manage op)) <$> operations else [])
          (summary (k tt))).
  { intros k Hk. destruct (bool_decide (z2 = 0)); cbn [negb when].
    - rewrite summary_ret_bind. by destruct (summary (k tt)) as [[? ?] ?].
    - by apply summary_operations. }
  rewrite Htail by oblivious_tac. clear Htail.
  destruct (superuser_script e) as [script|].
  2:{ rewrite summary_raise_bind. unfold prepend. simpl.
      by rewrite app_nil_r. }
  rewrite summary_ret_bind. run_step (SuperuserCreate script) E5.
  fold (mediaFileName file).
  destruct (Backup.isfile fs (mediaFileName file)
            && Backup.isdir fs (mediaPath netboxDir));
    [destruct (extract_media e (mediaFileName file) (mediaPath netboxDir))|];
    unfold prepend, summary, when, emit, log, emit, modify, ret; simpl;
    by rewrite ?app_nil_r.
Qed.

Lemma summary_log b l c : summary (when b (log l c)) = (Ok tt, [], false).
Proof. by destruct b. Qed.

Lemma summary_recreate :
  summary (recreate_database e)
  = (if create_ok e then Ok tt
     else Raised "Error creating new NetBox database",
     [ran e SupervisorStop; ran e DropDb; ran e CreateDb]
     ++ (if create_ok e then [ran e GrantPrivileges] else []),
     false).
Proof.
  unfold recreate_database, create_ok.
  run_step SupervisorStop E1. run_step DropDb E2. run_step CreateDb E3.
  change ((z1, l1).1) with z1.
  destruct (bool_decide (z1 = 0)); cbn [negb].
  - rewrite summary_ret_bind. run_step GrantPrivileges E4.
    by rewrite summary_log.
  - by rewrite summary_raise_bind.
Qed.

Lemma summary_load file :
  summary (load_backup e file)
  = match read_backup e file with
    | None => (Raised "reading the backup", [], false)
    | Some stdin =>
        (if load_ok e stdin then Ok tt
         else Raised "Error loading NetBox database",
         [ran e (LoadDump stdin)], load_ok e stdin)
    end.
Proof.
  unfold load_backup. destruct (read_backup e file) as [stdin|]; [|done].
  rewrite summary_ret_bind. unfold load_ok.
  rewrite (summary_run_bind (LoadDump stdin)) by oblivious_tac.
  destruct (run_process e (LoadDump stdin)) as [err res] eqn:E. simpl.
  by destruct (bool_decide (err = 0) && nonempty res).
Qed.

(** The steps of a restore and its success flag, for every environment. *)
Lemma restore_summary file :
  Backup.isfile fs file = true ->
  steps_of (trace (restore fs e netboxDir file initial).2)
  = restore_steps fs e netboxDir file
  /\ preloadDatabaseSuccess (restore fs e netboxDir file initial).2
     = restore_succeeds e file.
Proof.
  intros Hfile. unfold restore. rewrite Hfile. cbn [when].
  assert (Hbody : (summary (restore_body fs e netboxDir file)).1.2
                  = restore_steps fs e netboxDir file
                  /\ (summary (restore_body fs e netboxDir file)).2
                     = restore_succeeds e file).
  { unfold restore_body, restore_steps, restore_succeeds.
    rewrite summary_bind.
    2:{ intros _. apply oblivious_bind; [apply oblivious_load_backup|].
        intros _. apply oblivious_after_load. }
    pose proof summary_recreate as Hr. unfold summary in Hr at 1.
    injection Hr as Hr1 Hr2 Hr3. rewrite Hr1, Hr2, Hr3. clear Hr1 Hr2 Hr3.
    destruct (create_ok e); cbv beta iota; [|by rewrite ?app_nil_r].
    rewrite summary_bind by (intros _; apply oblivious_after_load).
    pose proof (summary_load file) as Hl. unfold summary in Hl at 1.
    destruct (read_backup e file) as [stdin|];
      injection Hl as Hl1 Hl2 Hl3; rewrite Hl1, Hl2, Hl3; [|done].
    destruct (load_ok e stdin); cbv beta iota; [|done].
    destruct (summary_after_load file) as [Ha1 Ha2]. by rewrite Ha1, Ha2. }
  destruct Hbody as [Hsteps Hflag]. unfold summary in Hsteps, Hflag.
  simpl in Hsteps, Hflag. rewrite try_except_run.
  destruct (restore_body fs e netboxDir file initial) as [[[]|msg] s1];
    simpl in *; [done|].
  split; [|done]. unfold steps_of in *. rewrite List.filter_app. simpl.
  by rewrite app_nil_r.
Qed.

Lemma elem_of_steps_of ev t : ev ∈ steps_of t <-> ev ∈ t /\ is_step ev = true.
Proof. unfold steps_of. by rewrite !list_elem_of_In, filter_In. Qed.

Lemma not_in_early_steps c' err res (early : list command) :
  c' ∉ early -> ~ Ran c' err res ∈ (ran e <$> early).
Proof.
  intros Hc Hin. apply list_elem_of_fmap in Hin as (c & Heq & Hin).
  unfold ran in Heq. injection Heq as -> _ _. by apply Hc.
Qed.

(** X1.  The services stopped at the start of a restore are started again
    exactly when the restore records success: after a failed recreation or
    a failed load they stay stopped. *)
Theorem services_restarted_iff_success :
  forall file : string,
    Backup.isfile fs file = true ->
    let s := (restore fs e netboxDir file initial).2 in
    head (steps_of (trace s)) = Some (ran e SupervisorStop)
    /\ ((exists err res, Ran SupervisorStart err res ∈ trace s)
        <-> preloadDatabaseSuccess s = true).
Proof.
  intros file Hfile s. subst s.
  destruct (restore_summary file Hfile) as [Hs Hf]. split.
  { by rewrite Hs. }
  rewrite Hf. unfold restore_succeeds. split.
  - intros (err & res & Hin).
    assert (Hin' : Ran SupervisorStart err res
                   ∈ steps_of (trace (restore fs e netboxDir file initial).2)).
    { by apply elem_of_steps_of. }
    rewrite Hs in Hin'. unfold restore_steps in Hin'.
    destruct (create_ok e); simpl in *.
    2:{ exfalso.
        apply (not_in_early_steps SupervisorStart err res
                 [SupervisorStop; DropDb; CreateDb]); [|done].
        rewrite !elem_of_cons, elem_of_nil. intuition discriminate. }
    destruct (read_backup e file) as [stdin|].
    2:{ exfalso.
        apply (not_in_early_steps SupervisorStart err res
                 [SupervisorStop; DropDb; CreateDb; GrantPrivileges]); [|done].
        rewrite !elem_of_cons, elem_of_nil. intuition discriminate. }
    destruct (load_ok e stdin); [done|]. exfalso.
    apply (not_in_early_steps SupervisorStart err res
             [SupervisorStop; DropDb; CreateDb; GrantPrivileges; LoadDump stdin]);
      [|done].
    rewrite !elem_of_cons, elem_of_nil. intuition discriminate.
  - intros Hok. exists (run_process e SupervisorStart).1,
      (run_process e SupervisorStart).2.
    apply (elem_of_steps_of (ran e SupervisorStart)). rewrite Hs.
    unfold restore_steps. destruct (create_ok e); [|done]. simpl in Hok.
    destruct (read_backup e file) as [stdin|]; [|done]. rewrite Hok.
    rewrite elem_of_app, !elem_of_cons, elem_of_app, !elem_of_cons. tauto.
Qed.

Lemma filter_steps (P : event -> bool) (t : list event) :
  (forall ev, P ev = true -> is_step ev = true) ->
  List.filter P (steps_of t) = List.filter P t.
Proof.
  intros HP. unfold steps_of. induction t as [|ev t IH]; [done|]. simpl.
  destruct (is_step ev) eqn:Es; simpl; [by rewrite IH|].
  destruct (P ev) eqn:Ep; [|done]. apply HP in Ep. congruence.
Qed.

(** X2.  After a successful load, when the management directory can be
    entered and the migration check reports pending migrations, the five
    management operations all run, in the order of the source, whatever
    each of them returns; in every other case none of them runs. *)
Theorem migrations_all_or_none :
  forall file : string,
    Backup.isfile fs file = true ->
    let s := (restore fs e netboxDir file initial).2 in
    List.filter is_Manage (trace s)
    = if preloadDatabaseSuccess s && pushd_manage e && migrations_pending e
      then (fun op => ran e (Manage op)) <$> operations
      else [].
Proof.
  intros file Hfile s. subst s.
  destruct (restore_summary file Hfile) as [Hs Hf].
  rewrite <- filter_steps by (by intros [[] | |]).
  rewrite Hs, Hf. unfold restore_steps, restore_succeeds.
  destruct (create_ok e); [|done].
  destruct (read_backup e file) as [stdin|]; [|done].
  destruct (load_ok e stdin); [|done].
  unfold steps_in_manage_dir. destruct (pushd_manage e); [|done].
  destruct (migrations_pending e);
    (destruct (superuser_script e) as [script|]; [|done]);
    by destruct (Backup.isfile fs (mediaFileName file)
                 && Backup.isdir fs (mediaPath netboxDir)
                 && extract_media e (mediaFileName file) (mediaPath netboxDir)).
Qed.

(** X3.  A restore always stops the services, drops the database and tries
    to create it, in that order, whatever the first two commands return;
    privileges are granted exactly when the creation succeeded. *)
Theorem database_always_recreated :
  forall file : string,
    Backup.isfile fs file = true ->
    let s := (restore fs e netboxDir file initial).2 in
    take 3 (steps_of (trace s))
    = [ran e SupervisorStop; ran e DropDb; ran e CreateDb]
    /\ (ran e GrantPrivileges ∈ trace s <-> (run_process e CreateDb).1 = 0).
Proof.
  intros file Hfile s. subst s.
  destruct (restore_summary file Hfile) as [Hs _]. split.
  { by rewrite Hs. }
  assert (Hg : ran e GrantPrivileges
               ∈ trace (restore fs e netboxDir file initial).2
               <-> ran e GrantPrivileges ∈ restore_steps fs e netboxDir file).
  { rewrite <- Hs, elem_of_steps_of. unfold ran. simpl. tauto. }
  rewrite Hg. unfold restore_steps, create_ok. case_bool_decide as Hc.
  - split; [done|]. intros _. rewrite elem_of_app, !elem_of_cons. tauto.
  - split; [|done]. intros Hin. exfalso. rewrite app_nil_r in Hin.
    apply (not_in_early_steps GrantPrivileges _ _
             [SupervisorStop; DropDb; CreateDb]) in Hin; [done|].
    rewrite !elem_of_cons, elem_of_nil. intuition discriminate.
Qed.

(** X4.  The media archive that goes with the dump is extracted only at the
    very end of a successful restore: the load succeeded, the management
    directory could be entered, the superuser script could be read, the
    archive and the media directory exist, and the extraction went
    through.  Nothing else is ever extracted. *)
Theorem media_extracted_iff :
  forall file archive : string,
    Backup.isfile fs file = true ->
    let s := (restore fs e netboxDir file initial).2 in
    MediaExtracted archive ∈ trace s
    <-> archive = mediaFileName file
        /\ preloadDatabaseSuccess s = true
        /\ pushd_manage e = true
        /\ is_Some (superuser_script e)
        /\ Backup.isfile fs archive = true
        /\ Backup.isdir fs (mediaPath netboxDir) = true
        /\ extract_media e archive (mediaPath netboxDir) = true.
Proof.
  intros file archive Hfile s. subst s.
  destruct (restore_summary file Hfile) as [Hs Hf].
  assert (Hm : MediaExtracted archive
               ∈ trace (restore fs e netboxDir file initial).2
               <-> MediaExtracted archive ∈ restore_steps fs e netboxDir file).
  { rewrite <- Hs, elem_of_steps_of. simpl. tauto. }
  rewrite Hm, Hf. clear Hm Hs Hf.
  assert (Hran : forall cs : list command,
             ~ MediaExtracted archive ∈ (ran e <$> cs)).
  { intros cs Hin. apply list_elem_of_fmap in Hin as (c & Heq & _).
    discriminate. }
  unfold restore_steps, restore_succeeds.
  destruct (create_ok e); simpl.
  2:{ split; [|by intros (_ & ? & _)]. intros Hin. exfalso.
      by apply (Hran [SupervisorStop; DropDb; CreateDb]). }
  destruct (read_backup e file) as [stdin|].
  2:{ split; [|by intros (_ & ? & _)]. intros Hin. exfalso.
      by apply (Hran [SupervisorStop; DropDb; CreateDb; GrantPrivileges]). }
  destruct (load_ok e stdin).
  2:{ split; [|by intros (_ & ? & _)]. intros Hin. exfalso.
      by apply (Hran [SupervisorStop; DropDb; CreateDb; GrantPrivileges;
                      LoadDump stdin]). }
  unfold steps_in_manage_dir. destruct (pushd_manage e).
  2:{ split; [|by intros (_ & _ & ? & _)]. intros Hin. exfalso.
      rewrite ?app_nil_r in Hin.
      by apply (Hran [SupervisorStop; DropDb; CreateDb; GrantPrivileges;
                      LoadDump stdin; MigrateVrfNames; TruncateUsers;
                      SupervisorStart]). }
  set (ops := if migrations_pending e
              then (fun op => ran e (Manage op)) <$> operations else []).
  assert (Hops : ~ MediaExtracted archive ∈ ops).
  { subst ops. destruct (migrations_pending e); [|apply not_elem_of_nil].
    intros Hin. apply list_elem_of_fmap in Hin as (c & Heq & _).
    discriminate. }
  assert (Hpre : forall rest,
             MediaExtracted archive
             ∈ ran e SupervisorStop :: ran e DropDb :: ran e CreateDb
               :: ran e GrantPrivileges :: ran e (LoadDump stdin)
               :: ran e MigrateVrfNames :: ran e TruncateUsers
               :: ran e SupervisorStart :: ran e MigrateCheck :: ops ++ rest
             <-> MediaExtracted archive ∈ rest).
  { intros rest. rewrite !elem_of_cons, elem_of_app. unfold ran.
    split; [|tauto]. intros H.
    repeat match type of H with
           | _ \/ _ => destruct H as [H|H]; [discriminate|]
           end.
    destruct H as [H|H]; [by destruct Hops | done]. }
  rewrite Hpre. clear Hpre Hops.
  destruct (superuser_script e) as [script|].
  2:{ rewrite elem_of_nil. split; [done|]. by intros (_ & _ & _ & [? ?] & _). }
  rewrite elem_of_cons. unfold ran at 1.
  destruct (Backup.isfile fs (mediaFileName file)) eqn:Ef;
    destruct (Backup.isdir fs (mediaPath netboxDir)) eqn:Ed;
    destruct (extract_media e (mediaFileName file) (mediaPath netboxDir)) eqn:Ex;
    simpl; rewrite ?list_elem_of_singleton, ?elem_of_nil;
    (split;
     [ intros [H|H]; [discriminate|]; try done;
       injection H as ->; by eauto 10
     | intros (-> & _ & _ & _ & Hf' & Hd' & Hx'); right; congruence ]).
Qed.
End RestoreSequenceFacts.

Section RestoreSequenceExamples.
Import Restore RestoreSequence.

Lemma services_restarted_iff_success_witness :
  exists err res,
    Ran SupervisorStart err res
    ∈ trace (restore Examples.preload_fs Examples.healthy "/opt/netbox"
               "/preload/2023-06-30.gz" initial).2.
Proof.
  apply (services_restarted_iff_success Examples.preload_fs Examples.healthy
           "/opt/netbox" "/preload/2023-06-30.gz"); reflexivity.
Defined.

Lemma migrations_all_or_none_witness :
  List.filter is_Manage
    (trace (restore Examples.preload_fs Examples.createdb_fails "/opt/netbox"
              "/preload/2023-06-30.gz" initial).2)
  = [].
Proof.
  rewrite (migrations_all_or_none Examples.preload_fs Examples.createdb_fails
             "/opt/netbox" "/preload/2023-06-30.gz"); reflexivity.
Defined.

Lemma database_always_recreated_witness :
  take 3 (steps_of
            (trace (restore Examples.preload_fs Examples.createdb_fails
                      "/opt/netbox" "/preload/2023-06-30.gz" initial).2))
  = [ran Examples.createdb_fails SupervisorStop;
     ran Examples.createdb_fails DropDb;
     ran Examples.createdb_fails CreateDb].
Proof.
  apply (database_always_recreated Examples.preload_fs Examples.createdb_fails
           "/opt/netbox" "/preload/2023-06-30.gz").
  reflexivity.
Defined.

Lemma media_extracted_iff_witness :
  MediaExtracted "/preload/2024-01-01.media.tar.gz"
  ∈ trace (restore Examples.preload_fs Examples.healthy "/opt/netbox"
             "/preload/2024-01-01.gz" initial).2.
Proof.
  apply (media_extracted_iff Examples.preload_fs Examples.healthy
           "/opt/netbox" "/preload/2024-01-01.gz"
           "/preload/2024-01-01.media.tar.gz"); [reflexivity|].
  repeat split. by eexists.
Defined.
End RestoreSequenceExamples.

(** ** The dict helpers, by key and from the top *)

Section StringOrder.
Import MinHash MinHashProps.

Lemma ascii_compare_refl (a : ascii) : Ascii.compare a a = Eq.
Proof. unfold Ascii.compare. apply N.compare_refl. Qed.

Lemma ascii_compare_trans (a b c : ascii) :
  Ascii.compare a b = Lt -> Ascii.compare b c = Lt -> Ascii.compare a c = Lt.
Proof. unfold Ascii.compare. rewrite !N.compare_lt_iff. lia. Qed.

Lemma string_compare_trans (a b c : string) :
  String.compare a b = Lt -> String.compare b c = Lt -> String.compare a c = Lt.
Proof.
  revert b c. induction a as [|x a IH]; intros [|y b] [|z c]; simpl; try done.
  destruct (Ascii.compare x y) eqn:Exy; try done;
    destruct (Ascii.compare y z) eqn:Eyz; try done.
  - apply Ascii.compare_eq_iff in Exy, Eyz. subst.
    rewrite ascii_compare_refl. apply IH.
  - apply Ascii.compare_eq_iff in Exy. subst. by rewrite Eyz.
  - apply Ascii.compare_eq_iff in Eyz. subst. by rewrite Exy.
  - by rewrite (ascii_compare_trans _ _ _ Exy Eyz).
Qed.

Lemma string_compare_refl (a : string) : String.compare a a = Eq.
Proof.
  induction a as [|x a IH]; simpl; [done|]. by rewrite ascii_compare_refl.
Qed.

(** [<] on strings never raises and ranks them. *)
Lemma str_lt_strict : strict_order str_lt.
Proof.
  split; unfold str_lt, String.ltb.
  - by eauto.
  - intros a b Hab. rewrite String.compare_antisym.
    destruct (String.compare a b); try done.
  - intros a b c Hab Hbc.
    rewrite (string_compare_trans a b c); [done| |].
    + by destruct (String.compare a b).
    + by destruct (String.compare b c).
  - intros a b c Hab Hbc.
    destruct (String.compare a c) eqn:Eac; try done. exfalso.
    rewrite String.compare_antisym in Hab, Hbc.
    destruct (String.compare b a) eqn:Eba; simpl in Hab; try done;
      destruct (String.compare c b) eqn:Ecb; simpl in Hbc; try done.
    + apply String.compare_eq_iff in Eba, Ecb. subst.
      by rewrite string_compare_refl in Eac.
    + apply String.compare_eq_iff in Eba. subst.
      rewrite String.compare_antisym, Ecb in Eac. done.
    + apply String.compare_eq_iff in Ecb. subst.
      rewrite String.compare_antisym, Eba in Eac. done.
    + pose proof (string_compare_trans _ _ _ Ecb Eba) as Hca.
      rewrite String.compare_antisym, Hca in Eac. done.
Qed.
End StringOrder.

Section HashEnds.
Import MinHash MaxHash MinHashProps.
Context {K V : Type} `{EqDecision K}.

(** X5.  With a builtin [sorted] that keeps to its contract, on a dict
    whose keys [<] ranks without raising, [min_hash_value_by_key] returns
    the value stored under a key that no key of the dict is below. *)
Theorem min_hash_value_by_key_least :
  forall (sorted : sorter) (lt : K -> K -> option bool) (x : list (K * V)),
    python_sorted sorted ->
    strict_order lt ->
    NoDup (Dict.keys x) ->
    x <> [] ->
    exists k v,
      min_hash_value_by_key sorted lt x = Ok (Some v)
      /\ (k, v) ∈ x
      /\ forall k', k' ∈ Dict.keys x -> lt k' k = Some false.
Proof.
  intros sorted lt x Hsorted Hord Hnd Hne. unfold min_hash_value_by_key.
  destruct (sorted_ranked sorted Hsorted _ _ fst lt x Hord)
    as (items & -> & Hperm & Hs).
  rewrite (values_sorted x items Hnd Hperm).
  destruct items as [|[k v] items].
  { symmetry in Hperm. apply Permutation_nil_r in Hperm. congruence. }
  exists k, v. split; [done|]. split.
  - rewrite <- Hperm. by left.
  - intros k' Hk'. unfold Dict.keys in Hk'. rewrite <- Hperm in Hk'.
    apply list_elem_of_fmap in Hk' as (y & -> & Hy).
    by apply (nondecreasing_head fst lt Hord (k, v) _ Hs).
Qed.

(** X6.  With a builtin [sorted] that keeps to its contract, the two
    [max_hash_value] helpers never raise: on an empty dict, or when no two
    items can be compared, they return [None]; on a dict whose values
    (keys) [<] ranks without raising they return a value (the value under
    a key) that is below none of the others. *)
Theorem max_hash_value_greatest :
  forall (sorted : sorter) (x : list (K * V)),
    python_sorted sorted ->
    (forall ltv ltk,
       x = [] ->
       max_hash_value_by_value sorted ltv x = None
       /\ max_hash_value_by_key sorted ltk x = None)
    /\ (forall ltv ltk,
          (2 <= length x)%nat ->
          (forall a b, ltv a b = None) ->
          (forall a b, ltk a b = None) ->
          max_hash_value_by_value sorted ltv x = None
          /\ max_hash_value_by_key sorted ltk x = None)
    /\ (forall ltv,
          strict_order ltv -> NoDup (Dict.keys x) -> x <> [] ->
          exists v,
            max_hash_value_by_value sorted ltv x = Some v
            /\ v ∈ Dict.values x
            /\ forall v', v' ∈ Dict.values x -> ltv v v' = Some false)
    /\ (forall ltk,
          strict_order ltk -> NoDup (Dict.keys x) -> x <> [] ->
          exists k v,
            max_hash_value_by_key sorted ltk x = Some v
            /\ (k, v) ∈ x
            /\ forall k', k' ∈ Dict.keys x -> ltk k k' = Some false).
Proof.
  intros sorted x Hsorted. split_and!.
  - intros ltv ltk ->. unfold max_hash_value_by_value, max_hash_value_by_key.
    by rewrite !(sorted_short sorted Hsorted) by (simpl; lia).
  - intros ltv ltk Hlen Hv Hk.
    unfold max_hash_value_by_value, max_hash_value_by_key.
    by rewrite (sorted_raises sorted Hsorted _ _ snd ltv x Hv Hlen),
      (sorted_raises sorted Hsorted _ _ fst ltk x Hk Hlen).
  - intros ltv Hord Hnd Hne. unfold max_hash_value_by_value.
    destruct (sorted_ranked sorted Hsorted _ _ snd ltv x Hord)
      as (items & -> & Hperm & Hs).
    rewrite (values_sorted x items Hnd Hperm), fmap_last.
    destruct (last items) as [[k v]|] eqn:El.
    2:{ apply last_None in El. subst.
        symmetry in Hperm. apply Permutation_nil_r in Hperm. congruence. }
    exists v. split; [done|]. split.
    + unfold Dict.values. rewrite <- Hperm.
      apply list_elem_of_fmap. exists (k, v). split; [done|].
      by apply last_Some_elem_of.
    + intros v' Hv'. unfold Dict.values in Hv'. rewrite <- Hperm in Hv'.
      apply list_elem_of_fmap in Hv' as (y & -> & Hy).
      by apply (nondecreasing_last snd ltv Hord (k, v) _ Hs).
  - intros ltk Hord Hnd Hne. unfold max_hash_value_by_key.
    destruct (sorted_ranked sorted Hsorted _ _ fst ltk x Hord)
      as (items & -> & Hperm & Hs).
    rewrite (values_sorted x items Hnd Hperm), fmap_last.
    destruct (last items) as [[k v]|] eqn:El.
    2:{ apply last_None in El. subst.
        symmetry in Hperm. apply Permutation_nil_r in Hperm. congruence. }
    exists k, v. split; [done|]. split.
    + rewrite <- Hperm. by apply last_Some_elem_of.
    + intros k' Hk'. unfold Dict.keys in Hk'. rewrite <- Hperm in Hk'.
      apply list_elem_of_fmap in Hk' as (y & -> & Hy).
      by apply (nondecreasing_last fst ltk Hord (k, v) _ Hs).
Qed.
End HashEnds.

Section HashEndsExamples.
Import MinHash MaxHash Reconciler.

Lemma min_hash_value_by_key_least_witness :
  exists k v,
    min_hash_value_by_key InsertionSort.sorted str_lt Examples.two_manufacturers
    = Ok (Some v)
    /\ (k, v) ∈ Examples.two_manufacturers
    /\ forall k', k' ∈ Dict.keys Examples.two_manufacturers ->
                  str_lt k' k = Some false.
Proof.
  apply (min_hash_value_by_key_least InsertionSort.sorted str_lt
           Examples.two_manufacturers).
  - apply insertion_sort_python_sorted.
  - apply str_lt_strict.
  - apply (bool_decide_unpack _). reflexivity.
  - discriminate.
Defined.

Lemma max_hash_value_greatest_witness :
  exists k v,
    max_hash_value_by_key InsertionSort.sorted str_lt Examples.two_manufacturers
    = Some v
    /\ (k, v) ∈ Examples.two_manufacturers
    /\ forall k', k' ∈ Dict.keys Examples.two_manufacturers ->
                  str_lt k k' = Some false.
Proof.
  apply (max_hash_value_greatest InsertionSort.sorted
           Examples.two_manufacturers).
  - apply insertion_sort_python_sorted.
  - apply str_lt_strict.
  - apply (bool_decide_unpack _). reflexivity.
  - discriminate.
Defined.
End HashEndsExamples.

(** ** What the reconciler creates, and in which order *)

Section ReconcilerTraceFacts.
Import Reconciler ReconcilerProps ReconcilerTrace.
Context {St : Type} (R : remote St) (args : arguments).

Lemma creations_app (t1 t2 : list event) :
  creations (t1 ++ t2) = creations t1 ++ creations t2.
Proof. apply omap_app. Qed.

Lemma updates_app (t1 t2 : list event) :
  updates (t1 ++ t2) = updates t1 ++ updates t2.
Proof. apply omap_app. Qed.

Section Adds.
Variable Q : kind * payload -> Prop.

Lemma adds_refl (s : state St) : adds Q 0 s s.
Proof.
  exists []. rewrite app_nil_r. split_and!; [done | constructor | simpl; lia].
Qed.

Lemma adds_trans m1 m2 (s s1 s2 : state St) :
  adds Q m1 s s1 -> adds Q m2 s1 s2 -> adds Q (m1 + m2) s s2.
Proof.
  intros (e1 & T1 & F1 & L1) (e2 & T2 & F2 & L2). exists (e1 ++ e2).
  rewrite T2, T1, creations_app, length_app.
  split_and!; [by rewrite app_assoc | by apply Forall_app | lia].
Qed.

Lemma adds_mono m m' (s s' : state St) :
  (m <= m')%nat -> adds Q m s s' -> adds Q m' s s'.
Proof.
  intros Hm (evs & T & F & L). exists evs. split_and!; [done | done | lia].
Qed.

Lemma run_adds_mono {A} m m' (c : M (state St) A) :
  (m <= m')%nat -> run_adds Q m c -> run_adds Q m' c.
Proof. intros Hm Hc s. by apply (adds_mono m). Qed.

Lemma run_adds_ret {A} (a : A) : run_adds Q 0 (@ret (state St) A a).
Proof. intros s. apply adds_refl. Qed.

Lemma run_adds_raise {A} msg : run_adds Q 0 (@raise (state St) A msg).
Proof. intros s. apply adds_refl. Qed.

Lemma run_adds_ret_bind {A B} m (a : A) (k : A -> M (state St) B) :
  run_adds Q m (k a) -> run_adds Q m (bind (ret a) k).
Proof. intros Hk s. exact (Hk s). Qed.

Lemma run_adds_raise_bind {A B} msg (k : A -> M (state St) B) :
  run_adds Q 0 (bind (raise msg) k).
Proof. intros s. apply adds_refl. Qed.

Lemma run_adds_bind {A B} m1 m2 (c : M (state St) A) (k : A -> M (state St) B) :
  run_adds Q m1 c -> (forall a, run_adds Q m2 (k a)) ->
  run_adds Q (m1 + m2) (bind c k).
Proof.
  intros Hc Hk s. unfold bind. specialize (Hc s).
  destruct (c s) as [[a|e] s']; simpl in *.
  - eapply adds_trans; [exact Hc | apply Hk].
  - eapply adds_mono; [|exact Hc]. lia.
Qed.

Lemma run_adds_try_except {A} m1 m2 (c : M (state St) A)
    (h : string -> M (state St) A) :
  run_adds Q m1 c -> (forall e, run_adds Q m2 (h e)) ->
  run_adds Q (m1 + m2) (try_except c h).
Proof.
  intros Hc Hh s. unfold try_except. specialize (Hc s).
  destruct (c s) as [[a|e] s']; simpl in *.
  - eapply adds_mono; [|exact Hc]. lia.
  - eapply adds_trans; [exact Hc | apply Hh].
Qed.

Lemma run_adds_for_each {A} (l : list A) (body : A -> M (state St) unit) :
  Forall (fun x => run_adds Q 1 (body x)) l ->
  run_adds Q (length l) (for_each l body).
Proof.
  induction 1 as [|x l Hx _ IH]; simpl; [apply run_adds_ret|].
  apply (run_adds_bind 1 (length l)); [done | by intros _].
Qed.

Lemma run_adds_for_each_none {A} (l : list A) (body : A -> M (state St) unit) :
  (forall x, run_adds Q 0 (body x)) -> run_adds Q 0 (for_each l body).
Proof.
  intros Hb. induction l as [|x l IH]; simpl; [apply run_adds_ret|].
  apply (run_adds_bind 0 0); [done | by intros _].
Qed.

Lemma run_adds_call r : ~ is_Create r -> run_adds Q 0 (call R r).
Proof.
  intros Hr s. rewrite call_run. simpl.
  exists [Called r (api R r (server s)).1]. split; [done|].
  destruct r; simpl in *; try tauto; split; (constructor || lia).
Qed.

Lemma run_adds_call_create k p : Q (k, p) -> run_adds Q 1 (call R (Create k p)).
Proof.
  intros Hq s. rewrite call_run. simpl.
  exists [Called (Create k p) (api R (Create k p) (server s)).1].
  split; [done|]. simpl. split; [by repeat constructor | lia].
Qed.

Lemma run_adds_log l c : run_adds Q 0 (@log St l c).
Proof.
  intros s. exists [Logged l c]. split; [done|]. simpl.
  split; [constructor | lia].
Qed.

Lemma run_adds_next_color : run_adds Q 0 (next_color R).
Proof.
  intros s. exists []. simpl. rewrite app_nil_r.
  split_and!; [done | constructor | lia].
Qed.

Lemma run_adds_all k : run_adds Q 0 (all R k).
Proof.
  unfold all. apply (run_adds_bind 0 0).
  - apply run_adds_call. simpl. tauto.
  - intros []; first [apply run_adds_ret | apply run_adds_raise].
Qed.

Lemma run_adds_create k p what : Q (k, p) -> run_adds Q 1 (create R k p what).
Proof.
  intros Hq. unfold create. apply (run_adds_bind 1 0).
  - by apply run_adds_call_create.
  - intros []; first [apply run_adds_ret | apply run_adds_raise | apply run_adds_log].
Qed.

Lemma run_adds_device_type_payload manufs model :
  run_adds Q 0 (device_type_payload R manufs model).
Proof.
  unfold device_type_payload.
  destruct (MinHash.min_hash_value_by_value (sorted R) (record_lt R) manufs);
    [apply run_adds_ret | apply run_adds_raise].
Qed.

(** A block never raises, and adds what its body adds. *)
Lemma block_adds {A} m what (body : M (state St) (list A)) (s : state St) :
  run_adds Q m body ->
  exists d s', block what body s = (Ok d, s') /\ adds Q m s s'.
Proof.
  intros Hb. unfold block.
  assert (Hblock : run_adds Q (m + 0)
                     (try_except body (fun _ => bind (log Error what)
                                                     (fun _ => ret [])))).
  { apply run_adds_try_except; [done|]. intros _.
    apply (run_adds_bind 0 0); [apply run_adds_log | intros _; apply run_adds_ret]. }
  specialize (Hblock s). rewrite Nat.add_0_r in Hblock.
  revert Hblock. unfold try_except.
  destruct (body s) as [[d|e] s1]; simpl; intros Hblock; by eauto.
Qed.

Lemma backfill_adds : run_adds Q 0 (backfill_prefixes R).
Proof.
  unfold backfill_prefixes. apply (run_adds_try_except 0 0).
  2:{ intros _. apply run_adds_log. }
  apply (run_adds_bind 0 0); [apply run_adds_call; simpl; tauto|].
  intros resp. apply (run_adds_bind 0 0).
  { destruct resp; first [apply run_adds_ret | apply run_adds_raise]. }
  intros found. apply run_adds_for_each_none. intros p.
  destruct (prefix_vrf p) as [vrf|]; [|apply run_adds_ret].
  apply (run_adds_bind 0 0); [apply run_adds_call; simpl; tauto|].
  intros []; first [apply run_adds_ret | apply run_adds_raise].
Qed.
End Adds.

(** A block of the shared shape creates records of its own kind only, and
    at most one for each name wanted. *)
Lemma reconcile_adds k desired mk :
  (forall n, run_adds (of_kind k) 0 (mk n)) ->
  run_adds (of_kind k) (length desired) (reconcile R k desired mk).
Proof.
  intros Hmk. unfold reconcile.
  apply (run_adds_bind _ 0 (length desired)); [apply run_adds_all|].
  intros pre.
  apply (run_adds_mono _ (length (absent (by_key pre) desired) + 0)).
  { rewrite Nat.add_0_r. apply List.filter_length_le. }
  apply run_adds_bind.
  - apply run_adds_for_each, Forall_forall. intros n _.
    apply (run_adds_bind _ 0 1); [apply Hmk|].
    intros p. by apply run_adds_create.
  - intros _. apply (run_adds_bind _ 0 0); [apply run_adds_all|].
    intros post. apply run_adds_ret.
Qed.

Lemma applied_object_types_excludes (allObjectTypeNames exclude : list string)
    (ct : string) :
  ct ∈ exclude -> ct ∉ applied_object_types allObjectTypeNames exclude.
Proof.
  intros Hex Hin. unfold applied_object_types in Hin.
  apply list_elem_of_In, List.filter_In in Hin as [_ Hin].
  apply negb_true_iff, bool_decide_eq_false in Hin. by apply Hin.
Qed.

(** The two entries of [DEFAULT_PERMISSIONS], or the one that is left of
    them when the two groups have the same name. *)
Lemma DEFAULT_PERMISSIONS_cases :
  Forall (fun kv =>
            perm_name kv.2 = defaultGroupName args +:+ "_permission"
            /\ perm_enabled kv.2 = true
            /\ perm_groups kv.2 = [defaultGroupName args]
            /\ perm_actions kv.2 = all_actions
            /\ perm_exclude_objects kv.2 = protected_object_types
            \/ staffGroupName args <> defaultGroupName args
               /\ perm_name kv.2 = staffGroupName args +:+ "_permission"
               /\ perm_enabled kv.2 = true
               /\ perm_groups kv.2 = [staffGroupName args]
               /\ perm_actions kv.2 = all_actions)
    (DEFAULT_PERMISSIONS args)
  /\ (length (DEFAULT_PERMISSIONS args) <= 2)%nat.
Proof.
  unfold DEFAULT_PERMISSIONS, Dict.of_items. simpl.
  destruct (decide (defaultGroupName args +:+ "_permission"
                    = staffGroupName args +:+ "_permission")) as [Heq|Hne].
  - split; [|simpl; lia]. constructor; [|constructor]. simpl. left.
    by split_and!.
  - split; [|simpl; lia]. constructor; [|constructor; [|constructor]]; simpl.
    + right. split_and!; try done. intros Heq. apply Hne. by rewrite Heq.
    + left. by split_and!.
Qed.

(** What the permissions block creates. *)
Lemma permissions_adds groups :
  run_adds (permission_of_group args groups) 2 (reconcile_permissions R args groups).
Proof.
  unfold reconcile_permissions.
  apply (run_adds_bind _ 0 2); [apply run_adds_call; simpl; tauto|].
  intros resp. apply (run_adds_bind _ 0 2).
  { destruct resp; first [apply run_adds_ret | apply run_adds_raise]. }
  intros allObjectTypeNames.
  apply (run_adds_bind _ 0 2); [apply run_adds_all|]. intros pre.
  destruct DEFAULT_PERMISSIONS_cases as [Hall Hlen].
  match goal with
  | |- run_adds _ _ (bind (for_each ?l _) _) =>
      apply (run_adds_mono _ (length l + 0))
  end.
  { rewrite Nat.add_0_r. etransitivity; [apply List.filter_length_le | exact Hlen]. }
  apply run_adds_bind.
  2:{ intros _. apply (run_adds_bind _ 0 0); [apply run_adds_all|].
      intros post. apply run_adds_ret. }
  apply run_adds_for_each, Forall_forall. intros kv Hkv.
  apply list_elem_of_In, List.filter_In in Hkv as [Hkv _].
  apply list_elem_of_In in Hkv.
  rewrite Forall_forall in Hall. specialize (Hall kv Hkv).
  destruct Hall as [(Hn & He & Hg & Ha & Hx)|(Hne & Hn & He & Hg & Ha)];
    rewrite Hn, He, Hg, Ha; simpl.
  - destruct (Dict.get (defaultGroupName args) groups) as [r|] eqn:Eg; simpl.
    2:{ apply (run_adds_mono _ 0); [lia | apply run_adds_raise_bind]. }
    apply run_adds_ret_bind, run_adds_create. split; [done|].
    eexists (defaultGroupName args), r, _. split_and!; try done.
    + unfold DEFAULT_GROUP_NAMES. rewrite !elem_of_cons. tauto.
    + intros _ ct Hct. rewrite Hx. by apply applied_object_types_excludes.
  - destruct (Dict.get (staffGroupName args) groups) as [r|] eqn:Eg; simpl.
    2:{ apply (run_adds_mono _ 0); [lia | apply run_adds_raise_bind]. }
    apply run_adds_ret_bind, run_adds_create. split; [done|].
    eexists (staffGroupName args), r, _. split_and!; try done.
    unfold DEFAULT_GROUP_NAMES. rewrite !elem_of_cons. tauto.
Qed.

Lemma permissions_of_kind groups :
  run_adds (of_kind Permissions) 2 (reconcile_permissions R args groups).
Proof.
  intros s. destruct (permissions_adds groups s) as (evs & T & F & L).
  exists evs. split_and!; [done| |done].
  eapply Forall_impl; [exact F|]. by intros kp [Hk _].
Qed.

Lemma of_kind_replicate k (l : list (kind * payload)) :
  Forall (of_kind k) l -> fst <$> l = replicate (length l) k.
Proof.
  induction 1 as [|[k' p] l Hk _ IH]; simpl; [done|].
  f_equal; [exact Hk | exact IH].
Qed.

(** X7.  Whatever the remote side answers, the records are created in the
    order of their dependencies: groups, then permissions, manufacturers,
    roles, device types and sites; and never more of a kind than the names
    wanted of it. *)
Theorem creations_follow_block_order :
  forall s : state St,
    exists evs g p m r d t,
      trace (populate R args s).2 = trace s ++ evs
      /\ created_kinds evs
         = replicate g Groups ++ replicate p Permissions
           ++ replicate m Manufacturers ++ replicate r Roles
           ++ replicate d DeviceTypes ++ replicate t Sites
      /\ (g <= 2)%nat /\ (p <= 2)%nat
      /\ (m <= length (manufacturers args))%nat
      /\ (r <= length (roles args))%nat
      /\ (d <= length (deviceTypes args))%nat
      /\ (t <= length (netboxSites args))%nat.
Proof.
  intros s. unfold populate.
  destruct (block_adds (of_kind Groups) (length (DEFAULT_GROUP_NAMES args))
              "groups"
              (reconcile R Groups (DEFAULT_GROUP_NAMES args)
                 (fun n => ret (GroupPayload n))) s)
    as (groups & s1 & E1 & e1 & T1 & F1 & L1).
  { apply reconcile_adds. intros n. apply run_adds_ret. }
  rewrite bind_run, E1.
  destruct (block_adds (of_kind Permissions) 2 "permissions"
              (reconcile_permissions R args groups) s1)
    as (perms & s2 & E2 & e2 & T2 & F2 & L2).
  { apply permissions_of_kind. }
  rewrite bind_run, E2.
  destruct (block_adds (of_kind Manufacturers) (length (manufacturers args))
              "manufacturers"
              (reconcile R Manufacturers (manufacturers args)
                 (fun n => ret (ManufacturerPayload n (slugify R n)))) s2)
    as (manufs & s3 & E3 & e3 & T3 & F3 & L3).
  { apply reconcile_adds. intros n. apply run_adds_ret. }
  rewrite bind_run, E3.
  destruct (block_adds (of_kind Roles) (length (roles args)) "roles"
              (reconcile R Roles (roles args)
                 (fun n => bind (next_color R)
                             (fun c => ret (RolePayload n (slugify R n) true c)))) s3)
    as (roles_ & s4 & E4 & e4 & T4 & F4 & L4).
  { apply reconcile_adds. intros n.
    apply (run_adds_bind _ 0 0); [apply run_adds_next_color|].
    intros c. apply run_adds_ret. }
  rewrite bind_run, E4.
  destruct (block_adds (of_kind DeviceTypes) (length (deviceTypes args))
              "device types"
              (reconcile R DeviceTypes (deviceTypes args)
                 (device_type_payload R manufs)) s4)
    as (dts & s5 & E5 & e5 & T5 & F5 & L5).
  { apply reconcile_adds. intros n. apply run_adds_device_type_payload. }
  rewrite bind_run, E5.
  destruct (block_adds (of_kind Sites) (length (netboxSites args)) "sites"
              (reconcile R Sites (netboxSites args)
                 (fun n => ret (SitePayload n (slugify R n)))) s5)
    as (sites & s6 & E6 & e6 & T6 & F6 & L6).
  { apply reconcile_adds. intros n. apply run_adds_ret. }
  rewrite bind_run, E6.
  destruct (backfill_adds (of_kind Sites) s6) as (e7 & T7 & F7 & L7).
  exists (e1 ++ e2 ++ e3 ++ e4 ++ e5 ++ e6 ++ e7),
    (length (creations e1)), (length (creations e2)), (length (creations e3)),
    (length (creations e4)), (length (creations e5)), (length (creations e6)).
  split.
  { rewrite T7, T6, T5, T4, T3, T2, T1. by rewrite <- !app_assoc. }
  split; [|by simpl in L1].
  assert (H7 : creations e7 = []).
  { destruct (creations e7); [done | simpl in L7; lia]. }
  unfold created_kinds. rewrite !creations_app, H7, app_nil_r, !fmap_app.
  by rewrite (of_kind_replicate _ _ F1), (of_kind_replicate _ _ F2),
    (of_kind_replicate _ _ F3), (of_kind_replicate _ _ F4),
    (of_kind_replicate _ _ F5), (of_kind_replicate _ _ F6).
Qed.

(** X8.  A permission is created only for one of the two default groups
    and bound to the id that group has among the groups just reconciled;
    the permission of the default group leaves out the protected object
    types.  When the groups block left no group, no permission is
    created. *)
Theorem permissions_bound_to_groups :
  forall (groups : list (string * record)) (s : state St),
    exists evs,
      trace (reconcile_permissions R args groups s).2 = trace s ++ evs
      /\ Forall (permission_of_group args groups) (creations evs)
      /\ (length (creations evs) <= 2)%nat
      /\ (groups = [] -> creations evs = []).
Proof.
  intros groups s. destruct (permissions_adds groups s) as (evs & T & F & L).
  exists evs. split_and!; try done.
  intros ->. destruct (creations evs) as [|kp l]; [done|].
  apply Forall_cons in F as [(_ & g & r & types & _ & Hget & _) _].
  discriminate.
Qed.

Lemma create_run k p what (s : state St) :
  create R k p what s
  = let resp := (api R (Create k p) (server s)).1 in
    let s1 := {| server := (api R (Create k p) (server s)).2;
                 trace := trace s ++ [Called (Create k p) resp];
                 colors := colors s |} in
    match resp with
    | RequestError _ =>
        (Ok tt, {| server := server s1;
                   trace := trace s1 ++ [Logged Warning what];
                   colors := colors s1 |})
    | Failure msg => (Raised msg, s1)
    | _ => (Ok tt, s1)
    end.
Proof.
  unfold create. rewrite bind_run, call_run. cbv zeta.
  by destruct (api R (Create k p) (server s)).1.
Qed.

(** The loop over the absent names, when the payload needs no call. *)
Lemma for_each_create_run k (f : string -> payload) (l : list string)
    (s : state St) :
  exists evs,
    trace (for_each l (fun name => bind (ret (f name))
                                     (fun p => create R k p name)) s).2
    = trace s ++ evs
    /\ Forall (fun ev => match ev with Called r _ => is_Create r | _ => True end) evs
    /\ ((forall ev, ev ∈ evs -> ~ is_Failure ev) ->
        (for_each l (fun name => bind (ret (f name))
                                   (fun p => create R k p name)) s).1 = Ok tt
        /\ creations evs = (fun n => (k, f n)) <$> l).
Proof.
  revert s. induction l as [|x l IH]; intros s.
  { exists []. simpl. rewrite app_nil_r. by split_and!. }
  cbn [for_each]. rewrite bind_run.
  change (bind (ret (f x)) (fun p => create R k p x) s)
    with (create R k (f x) x s).
  rewrite create_run. cbv zeta.
  destruct (api R (Create k (f x)) (server s)).1 eqn:E;
    try (match goal with
         | |- context [for_each l _ ?s1] =>
             destruct (IH s1) as (evs & T & C & H)
         end;
         eexists (_ :: evs); cbn [trace] in T |- *;
         split; [rewrite T, <- ?app_assoc; reflexivity|];
         split; [by constructor|];
         intros Hno; destruct H as [H1 H2];
         [ intros ev Hev; apply Hno; by right
         | split; [done|]; simpl; by rewrite H2 ]).
  - match goal with
    | |- context [for_each l _ ?s1] => destruct (IH s1) as (evs & T & C & H)
    end.
    eexists (_ :: _ :: evs). cbn [trace] in T |- *.
    split; [rewrite T, <- !app_assoc; reflexivity|].
    split; [by repeat constructor|].
    intros Hno. destruct H as [H1 H2].
    { intros ev Hev. apply Hno. by do 2 right. }
    split; [done|]. simpl. by rewrite H2.
  - eexists [_]. cbn [trace snd]. split; [reflexivity|].
    split; [by repeat constructor|].
    intros Hno. exfalso. eapply Hno; [by left|]. done.
Qed.

(** X9.  In a block of the shared shape whose payload is built from the
    name alone (groups, manufacturers, sites), the create calls are those
    of the wanted names that the first listing does not hold, one call
    each, in the order wanted; a name that the listing holds is never
    created, and a create call that the remote side refuses does not keep
    the later ones from being made. *)
Theorem creation_goes_on_after_refusal :
  forall (k : kind) (desired : list string) (f : string -> payload)
         (s : state St) (pre : list record),
    (api R (ListAll k) (server s)).1 = Records pre ->
    exists evs,
      trace (reconcile R k desired (fun n => ret (f n)) s).2 = trace s ++ evs
      /\ ((forall ev, ev ∈ evs -> ~ is_Failure ev) ->
          creations evs = (fun n => (k, f n)) <$> absent (by_key pre) desired).
Proof.
  intros k desired f s pre Hpre. unfold reconcile.
  rewrite bind_run, all_run. cbv zeta. rewrite Hpre, bind_run.
  match goal with
  | |- context [for_each ?l ?body ?s1] =>
      destruct (for_each_create_run k f l s1) as (evs & T & C & H);
      destruct (for_each l body s1) as [[[]|msg] s2] eqn:E
  end; cbn [fst snd trace] in *.
  - rewrite bind_run, all_run. cbv zeta.
    set (resp := (api R (ListAll k) (server s2)).1).
    exists ([Called (ListAll k) (Records pre)] ++ evs
            ++ [Called (ListAll k) resp]).
    split.
    { destruct resp; cbn [snd trace]; rewrite T, <- !app_assoc; reflexivity. }
    intros Hno. rewrite !creations_app. simpl. rewrite app_nil_r.
    apply H. intros ev Hev. apply Hno. rewrite !elem_of_app. tauto.
  - exists ([Called (ListAll k) (Records pre)] ++ evs).
    split; [by rewrite T, <- app_assoc|].
    intros Hno. rewrite creations_app. simpl.
    apply H. intros ev Hev. apply Hno. rewrite elem_of_app. tauto.
Qed.

Lemma vrf_descriptions_cons (p : prefix) (found : list prefix) :
  vrf_descriptions (p :: found)
  = match prefix_vrf p with
    | Some vrf => (prefix_id p, vrf) :: vrf_descriptions found
    | None => vrf_descriptions found
    end.
Proof. unfold vrf_descriptions. simpl. by destruct (prefix_vrf p). Qed.

(** The loop over the prefixes found. *)
Lemma for_each_update_run (found : list prefix) (s : state St) :
  let body := fun p =>
    match prefix_vrf p with
    | Some vrf =>
        bind (call R (UpdatePrefix (prefix_id p) vrf))
          (fun resp => match resp with
                       | RequestError msg => raise msg
                       | Failure msg => raise msg
                       | _ => ret tt
                       end)
    | None => ret tt
    end in
  exists evs n,
    trace (for_each found body s).2 = trace s ++ evs
    /\ Forall (fun ev => match ev with
                         | Called (UpdatePrefix _ _) _ => True
                         | _ => False
                         end) evs
    /\ updates evs = take n (vrf_descriptions found)
    /\ ((forall ev, ev ∈ evs -> ~ is_error ev) ->
        updates evs = vrf_descriptions found)
    /\ (forall before ev after,
          evs = before ++ ev :: after -> is_error ev ->
          after = [] /\ exists msg, (for_each found body s).1 = Raised msg).
Proof.
  intros body. revert s. induction found as [|p found IH]; intros s.
  { exists [], 0%nat. simpl. rewrite app_nil_r. split_and!; try done.
    intros before ev after H. by destruct before. }
  cbn [for_each]. rewrite bind_run, vrf_descriptions_cons.
  destruct (prefix_vrf p) as [vrf|] eqn:Ep.
  2:{ assert (Hb : body p = ret tt) by (unfold body; by rewrite Ep).
      rewrite Hb. unfold ret. cbv beta iota.
      destruct (IH s) as (evs & n & T & C & U & H & Hstop). by exists evs, n. }
  assert (Hb : body p
               = bind (call R (UpdatePrefix (prefix_id p) vrf))
                   (fun resp => match resp with
                                | RequestError msg => raise msg
                                | Failure msg => raise msg
                                | _ => ret tt
                                end))
    by (unfold body; by rewrite Ep).
  rewrite Hb, bind_run, call_run. clear Hb.
  destruct (api R (UpdatePrefix (prefix_id p) vrf) (server s)).1 eqn:E;
    unfold ret, raise; cbv beta iota;
    try (match goal with
         | |- context [for_each found body ?s1] =>
             destruct (IH s1) as (evs & n & T & C & U & H & Hstop)
         end;
         eexists (_ :: evs), (S n); cbn [trace] in T |- *;
         split; [rewrite T, <- ?app_assoc; reflexivity|];
         split; [by constructor|];
         split; [simpl; by rewrite U|];
         split;
         [ intros Hno; simpl; rewrite H; [done|];
           intros ev Hev; apply Hno; by right
         | intros before ev after Hsplit Herr;
           destruct before as [|b before];
           [ injection Hsplit as <- _; by destruct Herr
           | injection Hsplit as _ Hsplit; by apply (Hstop before ev after) ] ]);
    (eexists [_], 1%nat; cbn [trace snd fst raise]; split; [reflexivity|];
     split; [by repeat constructor|]; split; [simpl; by rewrite take_0|];
     split;
     [ intros Hno; exfalso; eapply Hno; [by left|]; done
     | intros before ev after Hsplit _;
       destruct before as [|b [|b' before]]; try discriminate;
       injection Hsplit as _ <-; split; [done | by eexists] ]).
Qed.

(** X10.  The backfill of prefix descriptions updates prefixes only: those
    of the listing that have a VRF, each with the text of its VRF, in the
    order listed.  It stops at the first update that fails: what it has
    updated is an initial part of what it owes, all of it when no call
    failed, and after a call that failed nothing follows but the error it
    logs. *)
Theorem backfill_updates_vrf_prefixes :
  forall (s : state St) (found : list prefix),
    (api R FilterPrefixes (server s)).1 = Prefixes found ->
    exists evs n,
      trace (backfill_prefixes R s).2 = trace s ++ evs
      /\ creations evs = []
      /\ updates evs = take n (vrf_descriptions found)
      /\ ((forall ev, ev ∈ evs -> ~ is_error ev) ->
          updates evs = vrf_descriptions found)
      /\ (forall before ev after,
            evs = before ++ ev :: after -> is_error ev ->
            after = [Logged Error "migrating prefix VRF to prefix description"]).
Proof.
  intros s found Hfound. unfold backfill_prefixes.
  rewrite try_except_run, bind_run, call_run, Hfound.
  change (bind (ret found) ?k ?s1) with (k found s1). cbv beta.
  match goal with
  | |- context [for_each found ?body ?s1] =>
      destruct (for_each_update_run found s1) as (evs & n & T & C & U & H & Hstop);
      cbv zeta in T, Hstop;
      destruct (for_each found body s1) as [[[]|msg] s2] eqn:E
  end; cbn [fst snd trace] in *.
  - exists ([Called FilterPrefixes (Prefixes found)] ++ evs), n.
    split; [by rewrite T, <- app_assoc|].
    rewrite creations_app, updates_app. simpl. split_and!; [|done| |].
    + clear -C. induction C as [|ev evs Hev _ IH]; [done|].
      by destruct ev as [[] ?| |].
    + intros Hno. apply H. intros ev Hev. apply Hno. by right.
    + intros before ev after Hsplit Herr.
      destruct before as [|b before];
        [injection Hsplit as <- _; by destruct Herr|].
      injection Hsplit as _ Hsplit.
      destruct (Hstop before ev after Hsplit Herr) as [_ [msg' Hm]]. discriminate.
  - exists ([Called FilterPrefixes (Prefixes found)] ++ evs
            ++ [Logged Error "migrating prefix VRF to prefix description"]), n.
    split; [simpl; by rewrite T, <- !app_assoc|].
    rewrite !creations_app, !updates_app. simpl. rewrite !app_nil_r.
    split_and!; [|done| |].
    + clear -C. induction C as [|ev evs Hev _ IH]; [done|].
      by destruct ev as [[] ?| |].
    + intros Hno. apply H. intros ev Hev. apply Hno.
      right. rewrite elem_of_app. by left.
    + intros before ev after Hsplit Herr.
      destruct before as [|b before];
        [injection Hsplit as <- _; by destruct Herr|].
      injection Hsplit as _ Hsplit.
      apply List.app_eq_app in Hsplit as [l [[Hb Hl]|[He Hl]]].
      * destruct l as [|x l].
        { injection Hl as -> _. by destruct Herr. }
        injection Hl as <- ->.
        destruct (Hstop before ev l Hb Herr) as [-> _]. done.
      * destruct l as [|x l]; [|by destruct l].
        injection Hl as <- _. by destruct Herr.
Qed.

Lemma wait_loop_run (fuel : nat) (s : state St) :
  wait_loop R fuel s
  = if (ReconcilerRun.wait_run R fuel s).1
    then Some (ReconcilerRun.wait_run R fuel s).2 else None.
Proof.
  revert s. induction fuel as [|fuel IH]; intros s; [done|].
  cbn [wait_loop ReconcilerRun.wait_run].
  destruct (all R Sites s) as [[l|e] s']; [done | apply IH].
Qed.

Lemma reconciler_by_run (fuel : nat) (s : state St) :
  reconciler R args fuel s
  = if (ReconcilerRun.reconciler_run R args fuel s).1
    then Some (ReconcilerRun.reconciler_run R args fuel s).2 else None.
Proof.
  unfold reconciler, wait_for_connection, ReconcilerRun.reconciler_run.
  destruct (wait args); [|done]. rewrite wait_loop_run.
  by destruct (ReconcilerRun.wait_run R fuel s) as [[] s'].
Qed.

Lemma wait_run_unreachable (fuel : nat) (s : state St) :
  (forall st, ~ is_Records (api R (ListAll Sites) st).1) ->
  (ReconcilerRun.wait_run R fuel s).1 = false
  /\ exists evs,
       trace (ReconcilerRun.wait_run R fuel s).2 = trace s ++ evs
       /\ ReconcilerRun.failed_attempts fuel evs.
Proof.
  intros Hdown. revert s. induction fuel as [|fuel IH]; intros s.
  { split; [done|]. exists []. by rewrite app_nil_r. }
  cbn [ReconcilerRun.wait_run]. rewrite all_run. cbv zeta.
  pose proof (Hdown (server s)) as Hno.
  destruct (api R (ListAll Sites) (server s)).1 eqn:E;
    try (by destruct Hno);
    match goal with
    | |- context [ReconcilerRun.wait_run R fuel ?s1] =>
        destruct (IH s1) as (Hf & evs & T & Ha)
    end;
    (split; [done|]);
    eexists (_ :: _ :: _ :: evs);
    (split; [rewrite T; cbn [trace]; rewrite <- !app_assoc; reflexivity|]);
    eexists _, _, evs; (split; [reflexivity|]); by split.
Qed.

(** X11.  The reconciler is the gate followed by the blocks: it returns
    what the run has reached once the gate is through.  With [--wait], and
    a remote side that never lists the sites, the gate is never through:
    after any number of attempts the trace holds that many failed
    listings of the sites, each logged and followed by a sleep of five
    seconds, and nothing else (no block has begun), the reconciler has
    not returned, and neither has [main]. *)
Theorem wait_has_no_retry_limit :
  forall (fs : Backup.filesystem) (e : Restore.env) (margs : Main.arguments)
         (fuel : nat) (st : St),
    (forall s,
       reconciler R (Main.api_args margs) fuel s
       = if (ReconcilerRun.reconciler_run R (Main.api_args margs) fuel s).1
         then Some (ReconcilerRun.reconciler_run R (Main.api_args margs) fuel s).2
         else None)
    /\ (wait (Main.api_args margs) = true ->
        (forall st', ~ is_Records (api R (ListAll Sites) st').1) ->
        (ReconcilerRun.reconciler_run R (Main.api_args margs) fuel
           (initial st)).1 = false
        /\ ReconcilerRun.failed_attempts fuel
             (trace (ReconcilerRun.reconciler_run R (Main.api_args margs) fuel
                       (initial st)).2)
        /\ reconciler R (Main.api_args margs) fuel (initial st) = None
        /\ (Main.populate_via_api fs e margs = true ->
            Main.main fs e R margs fuel st = None)).
Proof.
  intros fs e margs fuel st.
  assert (Hlink : forall s,
             reconciler R (Main.api_args margs) fuel s
             = if (ReconcilerRun.reconciler_run R (Main.api_args margs) fuel s).1
               then Some (ReconcilerRun.reconciler_run R (Main.api_args margs)
                            fuel s).2
               else None).
  { intros s. unfold reconciler, wait_for_connection,
      ReconcilerRun.reconciler_run.
    destruct (wait (Main.api_args margs)); [|done]. rewrite wait_loop_run.
    by destruct (ReconcilerRun.wait_run R fuel s) as [[] s']. }
  split; [exact Hlink|]. intros Hwait Hdown.
  destruct (wait_run_unreachable fuel (initial st) Hdown)
    as (Hf & evs & T & Ha).
  assert (Hrun : ReconcilerRun.reconciler_run R (Main.api_args margs) fuel
                   (initial st)
                 = (false, (ReconcilerRun.wait_run R fuel (initial st)).2)).
  { unfold ReconcilerRun.reconciler_run. rewrite Hwait.
    destruct (ReconcilerRun.wait_run R fuel (initial st)) as [[] s'];
      simpl in *; [discriminate | done]. }
  assert (Hrec : reconciler R (Main.api_args margs) fuel (initial st) = None).
  { by rewrite Hlink, Hrun. }
  rewrite Hrun. split_and!; try done.
  - simpl. by rewrite T.
  - intros Hpop. unfold Main.main. by rewrite Hpop, Hrec.
Qed.
End ReconcilerTraceFacts.

Section ReconcilerTraceExamples.
Import Reconciler ReconcilerProps ReconcilerTrace.

Lemma creation_goes_on_after_refusal_witness :
  exists evs,
    trace (reconcile Sim.remote Sites ["lab"; "lab"; "plant"]
             (fun n => ret (SitePayload n n)) (initial (Sim.empty []))).2
    = trace (initial (Sim.empty [])) ++ evs
    /\ ((forall ev, ev ∈ evs -> ~ is_Failure ev) ->
        creations evs
        = (fun n => (Sites, SitePayload n n))
            <$> absent (by_key []) ["lab"; "lab"; "plant"]).
Proof.
  apply (creation_goes_on_after_refusal Sim.remote Sites
           ["lab"; "lab"; "plant"] (fun n => SitePayload n n)
           (initial (Sim.empty [])) []).
  reflexivity.
Defined.

Lemma backfill_updates_vrf_prefixes_witness :
  exists evs n,
    trace (backfill_prefixes (Fixtures.with_prefixes true) (initial tt)).2
    = trace (initial tt) ++ evs
    /\ creations evs = []
    /\ updates evs = take n [(11, "blue"); (13, "red")]
    /\ ((forall ev, ev ∈ evs -> ~ is_error ev) ->
        updates evs = [(11, "blue"); (13, "red")])
    /\ (forall before ev after,
          evs = before ++ ev :: after -> is_error ev ->
          after = [Logged Error "migrating prefix VRF to prefix description"]).
Proof.
  apply (backfill_updates_vrf_prefixes (Fixtures.with_prefixes true)
           (initial tt)
           [ {| prefix_id := 11; prefix_vrf := Some "blue" |};
             {| prefix_id := 12; prefix_vrf := None |};
             {| prefix_id := 13; prefix_vrf := Some "red" |} ]).
  reflexivity.
Defined.

Lemma wait_has_no_retry_limit_witness :
  (ReconcilerRun.reconciler_run Fixtures.offline (Examples.api_arguments true)
     3 (initial tt)).1 = false
  /\ ReconcilerRun.failed_attempts 3
       (trace (ReconcilerRun.reconciler_run Fixtures.offline
                 (Examples.api_arguments true) 3 (initial tt)).2)
  /\ reconciler Fixtures.offline (Examples.api_arguments true) 3
       (initial tt) = None
  /\ (Main.populate_via_api Examples.preload_fs Examples.createdb_fails
        (Examples.main_arguments "" true) = true ->
      Main.main Examples.preload_fs Examples.createdb_fails Fixtures.offline
        (Examples.main_arguments "" true) 3 tt = None).
Proof.
  apply (wait_has_no_retry_limit Fixtures.offline Examples.preload_fs
           Examples.createdb_fails (Examples.main_arguments "" true) 3 tt).
  - reflexivity.
  - intros st' H. exact H.
Defined.
End ReconcilerTraceExamples.

(** ** What the scan collects and logs *)

Section DiscoveryScanFacts.
Import Discovery DiscoveryProps DiscoveryScan.

Lemma elem_of_names_of_item (v : constant) (item : stmt) :
  v ∈ names_of_item item ->
  exists target0 targets,
    item = Assign target0 targets (Constant v)
    /\ Name "name" ∈ target0 :: targets.
Proof.
  destruct item as [target0 targets value | | |];
    [|by intros ?%elem_of_nil..].
  unfold names_of_item. intros H. apply list_elem_of_In, in_flat_map in H as (target & Ht & Hv).
  destruct target as [id| | | |]; try done.
  case_bool_decide as Hid; [|done]. subst id.
  destruct value as [|c| | |]; try done.
  destruct Hv as [<-|[]]. exists target0, targets.
  split; [done | by apply list_elem_of_In].
Qed.

Lemma mapM_base_true (bases : list expr) (bs : list bool) :
  mapM base_is_PluginConfig bases = Some bs ->
  existsb id bs = true ->
  Name "PluginConfig" ∈ bases.
Proof.
  intros E%mapM_Some_1. induction E as [|x y l k Hxy _ IH]; simpl; [done|].
  intros [H|H]%orb_prop.
  - unfold id in H. subst y. destruct x as [n| | | |]; try discriminate.
    simpl in Hxy. injection Hxy as Hn. apply bool_decide_eq_true in Hn.
    subst. by left.
  - right. by apply IH.
Qed.

Lemma any_base_true (bases : list expr) :
  any_base_PluginConfig bases = Some true ->
  Name "PluginConfig" ∈ bases /\ forallb is_Name bases = true.
Proof.
  intros H. split.
  - unfold any_base_PluginConfig in H.
    destruct (mapM base_is_PluginConfig bases) as [bs|] eqn:E; [|done].
    injection H as H. by apply (mapM_base_true bases bs).
  - destruct (forallb is_Name bases) eqn:F; [done|].
    by rewrite (any_base_raises _ F) in H.
Qed.

Lemma scan_classes_sound (classes : list stmt) (names : list constant) :
  exists new,
    (scan_classes classes names).1 = names ++ new
    /\ forall v, v ∈ new ->
         exists cname bases cbody,
           ClassDef cname bases cbody ∈ classes
           /\ any_base_PluginConfig bases = Some true
           /\ v ∈ names_of_class_body cbody.
Proof.
  revert names. induction classes as [|c classes IH]; intros names.
  { exists []. simpl. rewrite app_nil_r. split; [done|].
    by intros v ?%elem_of_nil. }
  assert (Hskip : exists new,
             (scan_classes classes names).1 = names ++ new
             /\ forall v, v ∈ new ->
                  exists cname bases cbody,
                    ClassDef cname bases cbody ∈ c :: classes
                    /\ any_base_PluginConfig bases = Some true
                    /\ v ∈ names_of_class_body cbody).
  { destruct (IH names) as (new & E & H). exists new. split; [done|].
    intros v Hv. destruct (H v Hv) as (cn & bs & cb & Hin & Hb).
    exists cn, bs, cb. split; [by right | done]. }
  destruct c as [| cname bases cbody | |]; simpl; try exact Hskip.
  destruct (any_base_PluginConfig bases) as [[]|] eqn:Eb; [|exact Hskip|].
  - destruct (IH (names ++ names_of_class_body cbody)) as (new & E & H).
    exists (names_of_class_body cbody ++ new). rewrite E, app_assoc.
    split; [done|]. intros v [Hv|Hv]%elem_of_app.
    + exists cname, bases, cbody. split; [by left | done].
    + destruct (H v Hv) as (cn & bs & cb & Hin & Hb).
      exists cn, bs, cb. split; [by right | done].
  - exists []. simpl. rewrite app_nil_r. split; [done|].
    by intros v ?%elem_of_nil.
Qed.

Lemma scan_file_sound (c : candidate) (names : list constant) :
  exists new,
    (scan_file c names).1 = names ++ new
    /\ forall v, v ∈ new ->
         cand_isfile c = true
         /\ exists body, cand_tree c = Some body /\ declares body v.
Proof.
  unfold scan_file.
  destruct (cand_isfile c); [destruct (cand_tree c) as [body|]|];
    try (exists []; simpl; rewrite app_nil_r; split; [done|];
         by intros v ?%elem_of_nil).
  destruct (scan_classes_sound (classes_of body) names) as (new & E & H).
  destruct (scan_classes (classes_of body) names) as [ns raised].
  simpl in E. subst ns. exists new. split; [done|].
  intros v Hv. split; [done|]. exists body. split; [done|].
  destruct (H v Hv) as (cn & bs & cb & Hin & Hb & Hn).
  apply any_base_true in Hb as [Hb1 Hb2].
  unfold names_of_class_body in Hn.
  apply list_elem_of_In, in_flat_map in Hn as (item & Hitem & Hn).
  apply list_elem_of_In, elem_of_names_of_item in Hn as (t & ts & -> & Ht).
  exists cn, bs, cb, t, ts. split_and!; try done.
  - unfold classes_of in Hin. apply list_elem_of_In, filter_In in Hin as [Hin _].
    by apply list_elem_of_In.
  - by apply list_elem_of_In.
Qed.

(** X12.  The scan only adds to the list of plugin names, and every name
    it adds is declared by a candidate that is a regular file: a constant
    assigned to [name] in the body of a top-level class that has
    [PluginConfig] among its bases, all of them plain names.  Nothing is
    taken from nested classes, from other classes or from other
    assignments. *)
Theorem scan_collects_declared_names :
  forall (results : list candidate) (names : list constant),
    exists new,
      (scan_files results names).1 = names ++ new
      /\ forall v, v ∈ new ->
           exists c body,
             c ∈ results
             /\ cand_isfile c = true
             /\ cand_tree c = Some body
             /\ declares body v.
Proof.
  intros results. induction results as [|c results IH]; intros names.
  { exists []. simpl. rewrite app_nil_r. split; [done|].
    by intros v ?%elem_of_nil. }
  simpl. destruct (scan_file_sound c names) as (new1 & E1 & H1).
  destruct (scan_file c names) as [names1 log1]. simpl in E1. subst names1.
  destruct (IH (names ++ new1)) as (new2 & E2 & H2).
  destruct (scan_files results (names ++ new1)) as [names2 log2].
  simpl in E2. subst names2. exists (new1 ++ new2).
  split; [by rewrite app_assoc|].
  intros v [Hv|Hv]%elem_of_app.
  - destruct (H1 v Hv) as (Hf & body & Hb & Hd).
    exists c, body. split; [by left | done].
  - destruct (H2 v Hv) as (c' & body & Hin & Hrest).
    exists c', body. split; [by right | done].
Qed.

Lemma scan_classes_raised (classes : list stmt) (names : list constant) :
  (scan_classes classes names).2 = negb (forallb simple_bases classes).
Proof.
  revert names. induction classes as [|c classes IH]; intros names; [done|].
  destruct c as [| cname bases cbody | |]; simpl; try apply IH.
  destruct (forallb is_Name bases) eqn:F.
  - destruct (any_base_simple _ F) as [b Hb]. rewrite Hb.
    destruct b; apply IH.
  - by rewrite (any_base_raises _ F).
Qed.

(** X13.  The scan logs one error for each candidate that is a regular
    file and cannot be read or parsed, or has a top-level class with a
    base that is not a plain name; in the order of the candidates, and
    nothing else.  A candidate that is not a regular file is passed over
    without a word. *)
Theorem scan_logs_failing_candidates :
  forall (results : list candidate) (names : list constant),
    (scan_files results names).2
    = omap (fun c => if cand_isfile c && fails c
                     then Some (LogError (cand_name c)) else None) results.
Proof.
  intros results. induction results as [|c results IH]; intros names; [done|].
  simpl.
  assert (H1 : (scan_file c names).2
               = if cand_isfile c && fails c
                 then [LogError (cand_name c)] else []).
  { unfold scan_file, fails. destruct (cand_isfile c); [|done].
    destruct (cand_tree c) as [body|]; [|done].
    pose proof (scan_classes_raised (classes_of body) names) as Hr.
    destruct (scan_classes (classes_of body) names) as [ns raised].
    simpl in Hr. subst raised. simpl.
    by destruct (forallb simple_bases (classes_of body)). }
  destruct (scan_file c names) as [names1 log1]. simpl in H1. subst log1.
  specialize (IH names1).
  destruct (scan_files results names1) as [names2 log2]. simpl in IH.
  subst log2. simpl. by destruct (cand_isfile c && fails c).
Qed.
End DiscoveryScanFacts.

(** ** Running the rewrite again *)

Section RegistrarRunsFacts.
Import Registrar RegistrarProps RegistrarRuns.

Lemma missing_plugins_nil (pluginNames : list constant) (elts : list expr) :
  Forall (fun c => is_CStr c = true) pluginNames ->
  (forall s, CStr s ∈ pluginNames -> Constant (CStr s) ∈ elts) ->
  missing_plugins pluginNames elts = [].
Proof.
  intros Hstr Hin. destruct (missing_plugins pluginNames elts) as [|p l] eqn:E;
    [done|]. exfalso.
  assert (Hp : p ∈ missing_plugins pluginNames elts) by (rewrite E; by left).
  apply elem_of_missing_plugins in Hp as [Hp Hno].
  rewrite Forall_forall in Hstr. specialize (Hstr p Hp).
  destruct p as [s| |]; try discriminate.
  by apply (Hno s eq_refl), Hin.
Qed.

Lemma missing_plugins_after (pluginNames : list constant) (elts : list expr) :
  Forall (fun c => is_CStr c = true) pluginNames ->
  missing_plugins pluginNames
    (elts ++ (Constant <$> missing_plugins pluginNames elts)) = [].
Proof.
  intros Hstr. apply missing_plugins_nil; [done|]. intros s Hs.
  apply elem_of_app.
  destruct (decide (s ∈ existingPlugins elts)) as [Hex|Hex].
  - left. by apply elem_of_existingPlugins.
  - right. apply list_elem_of_fmap. exists (CStr s). split; [done|].
    apply elem_of_missing_plugins. split; [done|].
    intros s' [= <-]. by rewrite <- elem_of_existingPlugins.
Qed.

Lemma map_idem (f : stmt -> stmt) (body : list stmt) :
  Forall (fun s => f (f s) = f s) body -> f <$> (f <$> body) = f <$> body.
Proof.
  induction 1 as [|x l Hx _ IH]; [done|]. by rewrite !fmap_cons, Hx, IH.
Qed.

Lemma visit_twice (pluginNames : list constant) (node : stmt) :
  Forall (fun c => is_CStr c = true) pluginNames ->
  visit pluginNames (visit pluginNames node) = visit pluginNames node.
Proof.
  intros Hstr.
  induction node as [t ts v | n bases body IH | h body IH | src]
    using stmt_nested_ind; simpl.
  - unfold visit_Assign. destruct t as [id| | | |]; try done.
    case_bool_decide as Hid; [|simpl; by rewrite bool_decide_false].
    destruct v as [| |  | elts |]; simpl; rewrite bool_decide_true by done;
      try done.
    simpl. by rewrite missing_plugins_after, app_nil_r.
  - f_equal. by apply map_idem.
  - f_equal. by apply map_idem.
  - done.
Qed.

(** X14.  When the discovered names are strings, extending the [PLUGINS]
    lists of a tree is idempotent: a second visit finds every name in
    place and adds nothing, at any depth of the tree. *)
Theorem visit_idempotent :
  forall (pluginNames : list constant) (tree : list stmt),
    Forall (fun c => is_CStr c = true) pluginNames ->
    visit pluginNames <$> (visit pluginNames <$> tree)
    = visit pluginNames <$> tree.
Proof.
  intros pluginNames tree Hstr. apply map_idem, Forall_forall.
  intros node _. by apply visit_twice.
Qed.

Lemma visit_own_assignment (pluginNames : list constant) :
  Forall (fun c => is_CStr c = true) pluginNames ->
  visit pluginNames (PLUGINS_assignment pluginNames)
  = PLUGINS_assignment pluginNames.
Proof.
  intros Hstr. unfold PLUGINS_assignment. simpl.
  rewrite missing_plugins_nil; [by rewrite app_nil_r | done |].
  intros s Hs. apply list_elem_of_fmap. by exists (CStr s).
Qed.

Lemma parse_update (pluginNames : list constant) (code : source) :
  pluginNames <> [] ->
  ast_parse (update_plugins_file pluginNames code)
  = (visit pluginNames <$> ast_parse code) ++ [PLUGINS_assignment pluginNames].
Proof.
  intros Hne. unfold update_plugins_file.
  destruct pluginNames as [|c l]; [done|].
  rewrite ast_parse_unparse.
  apply (modify_tree_appends_assignment (c :: l) None (ast_parse code)).
Qed.

(** X15.  Every run of the rewrite with the same (string) names adds one
    more assignment of the whole list at the end of the file: after
    [n + 1] runs the file holds its statements as the first run left them,
    followed by [n + 1] copies of [PLUGINS = [names]].  The rewrite has no
    fixed point. *)
Theorem every_run_appends_an_assignment :
  forall (pluginNames : list constant) (code : source) (n : nat),
    pluginNames <> [] ->
    Forall (fun c => is_CStr c = true) pluginNames ->
    ast_parse (Nat.iter (S n) (update_plugins_file pluginNames) code)
    = (visit pluginNames <$> ast_parse code)
      ++ replicate (S n) (PLUGINS_assignment pluginNames).
Proof.
  intros pluginNames code n Hne Hstr. induction n as [|n IH].
  { simpl. by apply parse_update. }
  rewrite Nat.iter_succ, parse_update, IH by done.
  rewrite fmap_app, map_idem, fmap_replicate, visit_own_assignment by
    (try done; apply Forall_forall; intros s _; by apply visit_twice).
  by rewrite <- app_assoc, <- replicate_S_end.
Qed.
End RegistrarRunsFacts.

(** ** Which dump the scan of the preload directory selects *)

Section BackupScanFacts.
Import Backup.

Lemma hd_insert_sorted {A} (key : A -> Z) (d x : A) (acc : list A) :
  hd d (insert_sorted key x acc)
  = match acc with
    | [] => x
    | y :: _ => if key x <? key y then x else y
    end.
Proof. destruct acc as [|y acc]; simpl; [done|]. by destruct (_ <? _). Qed.

(** The sort is stable: its first item is the first of the least items. *)
Lemma sort_by_key_first_least {A} (key : A -> Z) (d : A) (l : list A) :
  l <> [] ->
  exists pre post,
    l = pre ++ hd d (sort_by_key key l) :: post
    /\ (forall x, x ∈ pre -> key (hd d (sort_by_key key l)) < key x)
    /\ (forall x, x ∈ post -> key (hd d (sort_by_key key l)) <= key x).
Proof.
  induction l as [|x l IH] using rev_ind; [done|]. intros _.
  unfold sort_by_key. rewrite foldl_app. simpl.
  fold (sort_by_key key l). rewrite hd_insert_sorted.
  destruct l as [|y l'] using rev_ind.
  { exists [], []. simpl. split; [done|]. split; by intros ? ?%elem_of_nil. }
  clear IHl'. destruct IH as (pre & post & E & Hpre & Hpost).
  { by destruct l'. }
  set (l := l' ++ [y]) in *.
  destruct (sort_by_key key l) as [|f srt] eqn:Es.
  { pose proof (sort_by_key_perm key l) as Hp. rewrite Es in Hp.
    apply Permutation_nil_l in Hp. subst l. by destruct l'. }
  simpl in E, Hpre, Hpost. destruct (key x <? key f) eqn:Hlt.
  - apply Z.ltb_lt in Hlt. exists l, []. split; [done|].
    split; [|by intros ? ?%elem_of_nil].
    intros z Hz. rewrite E in Hz.
    apply elem_of_app in Hz as [Hz|Hz]; [specialize (Hpre z Hz); lia|].
    apply elem_of_cons in Hz as [->|Hz]; [lia|].
    specialize (Hpost z Hz). lia.
  - apply Z.ltb_ge in Hlt. exists pre, (post ++ [x]).
    split; [by rewrite E at 1; rewrite <- app_assoc|].
    split; [done|]. intros z [Hz|Hz]%elem_of_app; [by apply Hpost|].
    apply list_elem_of_singleton in Hz as ->. done.
Qed.

(** X16.  When the explicit file is missing and the preload directory
    exists, what the scan selects is either nothing (no candidate) or a
    path that the pattern [*.gz] matched, that is a regular file, and
    that is not a media archive. *)
Theorem scan_selects_a_database_dump :
  forall (fs : filesystem) (preloadBackupFile preloadDir : string),
    isfile fs preloadBackupFile = false ->
    isdir fs preloadDir = true ->
    let f := select_preloadDatabaseFile fs preloadBackupFile preloadDir in
    (preloadFiles fs preloadDir = [] /\ f = "")
    \/ (f ∈ glob fs (Path.join preloadDir "*.gz")
        /\ isfile fs f = true
        /\ Path.endswith f ".media.tar.gz" = false).
Proof.
  intros fs explicit dir Hfile Hdir f.
  destruct (preloadFiles fs dir) as [|x l] eqn:E.
  { left. split; [done|]. subst f. unfold select_preloadDatabaseFile.
    by rewrite Hfile, Hdir, E. }
  right.
  assert (Hin : f ∈ preloadFiles fs dir).
  { apply selected_in_candidates; [done | done | by rewrite E]. }
  unfold preloadFiles in Hin.
  apply list_elem_of_In, filter_In in Hin as [Hin Hmedia].
  apply filter_In in Hin as [Hin Hisfile].
  split_and!; [by apply list_elem_of_In | done |].
  by apply negb_true_iff.
Qed.

(** X17.  Among the candidates with the least modification time, the scan
    selects the one that the directory listing gives first: every
    candidate listed before the selected one is strictly newer, none
    after it is older. *)
Theorem oldest_ties_go_to_first_listed :
  forall (fs : filesystem) (preloadBackupFile preloadDir : string),
    isfile fs preloadBackupFile = false ->
    isdir fs preloadDir = true ->
    preloadFiles fs preloadDir <> [] ->
    let f := select_preloadDatabaseFile fs preloadBackupFile preloadDir in
    exists pre post,
      preloadFiles fs preloadDir = pre ++ f :: post
      /\ (forall x, x ∈ pre -> getmtime fs f < getmtime fs x)
      /\ (forall x, x ∈ post -> getmtime fs f <= getmtime fs x).
Proof.
  intros fs explicit dir Hfile Hdir Hne f. subst f.
  unfold select_preloadDatabaseFile. rewrite Hfile, Hdir. simpl.
  by apply sort_by_key_first_least.
Qed.
End BackupScanFacts.

(** ** The log level *)

Section VerbosityFacts.
Import Verbosity.

(** X18.  Tracebacks are cut off exactly at the verbosity counts 1 and 2
    (the levels WARNING and INFO); and from a count of 1 on, a higher
    count never gives a higher level. *)
Theorem tracebacks_hidden_at_low_verbosity :
  forall verbose : Z,
    (tracebacklimit_zero verbose = true <-> verbose = 1 \/ verbose = 2)
    /\ (forall more, 1 <= verbose <= more -> level more <= level verbose).
Proof.
  intros verbose. unfold tracebacklimit_zero, level, ERROR, DEBUG. split.
  - destruct (0 <? verbose) eqn:E; rewrite Z.ltb_lt.
    + apply Z.ltb_lt in E. lia.
    + apply Z.ltb_ge in E. lia.
  - intros more Hm.
    destruct (0 <? verbose) eqn:E1; destruct (0 <? more) eqn:E2;
      rewrite ?Z.ltb_lt, ?Z.ltb_ge in *; lia.
Qed.
End VerbosityFacts.

Section FurtherExamples.
Import Discovery Registrar RegistrarRuns Backup.

Lemma visit_idempotent_witness :
  visit Examples.discovered
    <$> (visit Examples.discovered <$> ast_parse Examples.registration_file)
  = visit Examples.discovered <$> ast_parse Examples.registration_file.
Proof.
  apply (visit_idempotent Examples.discovered). by repeat constructor.
Defined.

Lemma every_run_appends_an_assignment_witness :
  ast_parse (Nat.iter 3 (update_plugins_file Examples.discovered)
               Examples.registration_file)
  = (visit Examples.discovered <$> ast_parse Examples.registration_file)
    ++ replicate 3 (PLUGINS_assignment Examples.discovered).
Proof.
  apply (every_run_appends_an_assignment Examples.discovered
           Examples.registration_file 2).
  - discriminate.
  - by repeat constructor.
Defined.

Lemma scan_selects_a_database_dump_witness :
  (preloadFiles Examples.preload_fs "/preload" = []
   /\ select_preloadDatabaseFile Examples.preload_fs "" "/preload" = "")
  \/ (select_preloadDatabaseFile Examples.preload_fs "" "/preload"
        ∈ glob Examples.preload_fs (Path.join "/preload" "*.gz")
      /\ isfile Examples.preload_fs
           (select_preloadDatabaseFile Examples.preload_fs "" "/preload") = true
      /\ Path.endswith
           (select_preloadDatabaseFile Examples.preload_fs "" "/preload")
           ".media.tar.gz" = false).
Proof.
  apply (scan_selects_a_database_dump Examples.preload_fs "" "/preload");
    reflexivity.
Defined.

Lemma oldest_ties_go_to_first_listed_witness :
  exists pre post,
    preloadFiles Examples.preload_fs "/preload"
    = pre ++ select_preloadDatabaseFile Examples.preload_fs "" "/preload" :: post
    /\ (forall x, x ∈ pre ->
          getmtime Examples.preload_fs
            (select_preloadDatabaseFile Examples.preload_fs "" "/preload")
          < getmtime Examples.preload_fs x)
    /\ (forall x, x ∈ post ->
          getmtime Examples.preload_fs
            (select_preloadDatabaseFile Examples.preload_fs "" "/preload")
          <= getmtime Examples.preload_fs x).
Proof.
  apply (oldest_ties_go_to_first_listed Examples.preload_fs "" "/preload");
    [reflexivity | reflexivity | discriminate].
Defined.
End FurtherExamples.

(** ** The installed packages and the gate *)

Section PackagesFacts.
Import InstallGate InstallGateProps Packages.

Lemma packages_by_name_named (items : list listItem) (acc m : gmap string package) :
  packages_by_name items acc = Some m ->
  Forall (fun it => is_Some (item_name it)) items.
Proof.
  revert acc. induction items as [|it rest IH]; intros acc; simpl; [done|].
  destruct (item_name it) as [n|] eqn:En; [|done].
  intros H. constructor; [by rewrite En | by eapply IH].
Qed.

Lemma packages_by_name_unnamed (items : list listItem) (acc : gmap string package)
    (it : listItem) :
  it ∈ items -> item_name it = None -> packages_by_name items acc = None.
Proof.
  intros Hin Hnone. revert acc.
  induction items as [|it' rest IH]; intros acc; [by apply elem_of_nil in Hin|].
  simpl. apply elem_of_cons in Hin as [<-|Hin]; [by rewrite Hnone|].
  destruct (item_name it'); [by apply IH | done].
Qed.

Lemma packages_by_name_lookup (items : list listItem)
    (acc m : gmap string package) (n : string) :
  packages_by_name items acc = Some m ->
  m !! n
  = match last (List.filter (fun it => bool_decide (item_name it = Some n)) items) with
    | Some it => Some (package_of it)
    | None => acc !! n
    end.
Proof.
  revert acc. induction items as [|it rest IH]; intros acc; simpl.
  { by intros [= ->]. }
  destruct (item_name it) as [n'|] eqn:En; [|done].
  intros H. rewrite (IH _ H). case_bool_decide as Hn.
  - injection Hn as ->.
    destruct (List.filter _ rest) as [|x l];
      [simpl; by rewrite lookup_insert_eq | rewrite last_cons_cons].
    destruct (last (x :: l)) eqn:El; [done|]. by apply last_None in El.
  - destruct (last (List.filter _ rest)); [done|].
    rewrite lookup_insert_ne; [done|]. congruence.
Qed.

(** X19.  The dict of installed packages is all or nothing: it holds an
    entry only when [pip list] succeeded and the first line of its output
    is a list all of whose items have a name, and then a name stands for
    the last item of that name; one item without a name leaves the whole
    dict empty. *)
Theorem installed_packages_all_or_nothing :
  forall (err : Z) (results : list (option (list listItem))),
    (forall n p,
       GetInstalledPackages err results !! n = Some p ->
       err = 0
       /\ exists items rest it,
            results = Some items :: rest
            /\ Forall (fun it => is_Some (item_name it)) items
            /\ last (List.filter (fun it => bool_decide (item_name it = Some n))
                       items) = Some it
            /\ p = package_of it)
    /\ (forall items rest it,
          results = Some items :: rest ->
          it ∈ items ->
          item_name it = None ->
          GetInstalledPackages err results = ∅).
Proof.
  intros err results. unfold GetInstalledPackages. split.
  - intros n p. case_bool_decide as Herr; simpl; [|by rewrite lookup_empty].
    destruct results as [|[items|] rest]; simpl; try by rewrite lookup_empty.
    destruct (packages_by_name items ∅) as [m|] eqn:E; simpl;
      [|by rewrite lookup_empty].
    rewrite (packages_by_name_lookup items ∅ m n E), lookup_empty.
    destruct (last _) as [it|] eqn:El; [|done]. intros [= <-].
    split; [done|]. exists items, rest, it. split_and!; try done.
    by eapply packages_by_name_named.
  - intros items rest it -> Hin Hnone.
    destruct (bool_decide (err = 0)); simpl; [|done].
    by rewrite (packages_by_name_unnamed items ∅ it).
Qed.

(** X20.  When [pip list] fails, the gate works on an empty dict and
    compares no versions: it cannot raise on a version it cannot parse,
    and it installs the directory (returning whether pip succeeded)
    exactly when the dry run failed, left no report, or reports a package
    with a non-empty name. *)
Theorem failed_package_list_disables_version_gate :
  forall {version : Type} (Version : option string -> option version)
         (version_gt : version -> version -> bool)
         (err : Z) (results : list (option (list listItem)))
         (dry : dryRun) (install_err : Z),
    err <> 0 ->
    (dry_err dry = 0 -> dry_report_isfile dry = true ->
     is_Some (dry_report dry)) ->
    exists b,
      InstallPackageDirIfNeeded Version version_gt
        (GetInstalledPackages err results) dry install_err = Some b
      /\ (b = true
          <-> install_err = 0
              /\ (dry_err dry <> 0
                  \/ dry_report_isfile dry = false
                  \/ exists report name v,
                       dry_report dry = Some report
                       /\ (name, v) ∈ wouldInstallInfo report
                       /\ truthy name = true)).
Proof.
  intros version Version version_gt err results dry install_err Herr Hrep.
  assert (Hempty : GetInstalledPackages err results = ∅).
  { unfold GetInstalledPackages. by rewrite bool_decide_false. }
  rewrite Hempty. unfold InstallPackageDirIfNeeded, pluginNeedsInstall.
  assert (Hok : bool_decide (install_err = 0) = true <-> install_err = 0)
    by apply bool_decide_eq_true.
  set (ok := bool_decide (install_err = 0)) in *.
  destruct (decide (dry_err dry = 0)) as [Hdry|Hdry].
  2:{ rewrite bool_decide_false by done. simpl. exists ok. split; [done|].
      rewrite Hok. tauto. }
  rewrite bool_decide_true by done.
  destruct (dry_report_isfile dry) eqn:Hfile; simpl.
  2:{ exists ok. split; [done|]. rewrite Hok. tauto. }
  destruct (Hrep Hdry eq_refl) as [report Hreport]. rewrite Hreport. simpl.
  destruct (any_selected_decision Version version_gt ∅ (wouldInstallInfo report))
    as (b & Hb & Hiff).
  { intros n v p _ Hp. by rewrite lookup_empty in Hp. }
  rewrite Hb. simpl. destruct b.
  - exists ok. split; [done|].
    rewrite Hok. split; [|tauto]. intros Hi. split; [done|].
    right. right. destruct Hiff as [Hiff _].
    destruct (Hiff eq_refl) as (name & v & Hin & Ht & _).
    by exists report, name, v.
  - exists false. split; [done|]. split; [done|].
    intros (_ & [H|[H|(report' & name & v & Hr & Hin & Ht)]]); try done.
    assert (report' = report) as -> by congruence.
    destruct Hiff as [_ Hiff]. apply Hiff. exists name, v.
    split_and!; try done. unfold new_or_newer.
    destruct name as [n|]; [by rewrite lookup_empty | done].
Qed.
End PackagesFacts.

Section PackagesExamples.
Import InstallGate Packages.

Lemma installed_packages_all_or_nothing_witness :
  GetInstalledPackages 0
    [ Some [ {| item_name := Some "foo"; item_version := "1.0.0";
                item_location := Some "/opt/netbox/venv/lib" |};
             {| item_name := None; item_version := "2.1";
                item_location := None |} ] ]
  = ∅.
Proof.
  refine (proj2 (installed_packages_all_or_nothing 0 _) _ []
            {| item_name := None; item_version := "2.1";
               item_location := None |} eq_refl _ eq_refl).
  right. by left.
Defined.

Lemma failed_package_list_disables_version_gate_witness :
  exists b,
    InstallPackageDirIfNeeded Release.Version Release.gt
      (GetInstalledPackages 1 []) (Examples.dry_run_of [("foo", "unknown")]) 0
    = Some b
    /\ (b = true
        <-> 0 = 0
            /\ (dry_err (Examples.dry_run_of [("foo", "unknown")]) <> 0
                \/ dry_report_isfile (Examples.dry_run_of [("foo", "unknown")])
                   = false
                \/ exists report name v,
                     dry_report (Examples.dry_run_of [("foo", "unknown")])
                     = Some report
                     /\ (name, v) ∈ wouldInstallInfo report
                     /\ truthy name = true)).
Proof.
  apply (failed_package_list_disables_version_gate Release.Version Release.gt
           1 [] (Examples.dry_run_of [("foo", "unknown")]) 0).
  - discriminate.
  - intros _ _. by eexists.
Defined.
End PackagesExamples.

(** ** What a block achieves on a remote side that answers *)

Section ReconcilerReach.
Import Reconciler ReconcilerProps ReconcilerTrace.
Context {St : Type} (R : remote St).

Variable res : St -> kind -> list record.
Variable ok : St -> Prop.
Variable k : kind.
Variable f : string -> payload.

Hypothesis ok_api : forall r st, ok st -> ok (api R r st).2.
Hypothesis list_sound :
  forall st, ok st ->
    (api R (ListAll k) st).1 = Records (res st k)
    /\ res (api R (ListAll k) st).2 k = res st k.
Hypothesis create_sound :
  forall p st, ok st ->
    (forall msg, (api R (Create k p) st).1 <> Failure msg)
    /\ Sim.key_of p ∈ rec_key <$> res (api R (Create k p) st).2 k
    /\ forall n, n ∈ rec_key <$> res st k ->
                 n ∈ rec_key <$> res (api R (Create k p) st).2 k.
Hypothesis key_of_f : forall n, Sim.key_of (f n) = n.

Lemma for_each_create_reaches (l : list string) (s : state St) :
  ok (server s) ->
  exists s',
    for_each l (fun name => bind (ret (f name))
                              (fun p => create R k p name)) s = (Ok tt, s')
    /\ ok (server s')
    /\ (forall n, n ∈ rec_key <$> res (server s) k ->
                  n ∈ rec_key <$> res (server s') k)
    /\ (forall n, n ∈ l -> n ∈ rec_key <$> res (server s') k).
Proof.
  revert s. induction l as [|x l IH]; intros s Hok.
  { exists s. split_and!; try done. by intros n ?%elem_of_nil. }
  cbn [for_each]. rewrite bind_run.
  change (bind (ret (f x)) (fun p => create R k p x) s)
    with (create R k (f x) x s).
  rewrite create_run. cbv zeta.
  destruct (create_sound (f x) (server s) Hok) as (Hnf & Hkey & Hmono).
  rewrite key_of_f in Hkey.
  pose proof (ok_api (Create k (f x)) (server s) Hok) as Hok'.
  destruct (api R (Create k (f x)) (server s)).1 eqn:E;
    try (by destruct (Hnf msg));
    match goal with
    | |- context [for_each l _ ?s1] =>
        destruct (IH s1 Hok') as (s' & Hrun & Hok2 & Hmono2 & Hall)
    end;
    exists s'; cbn [server] in *;
    (split_and!; [done | done | by intros n Hn; apply Hmono2, Hmono |];
     intros n [->|Hn]%elem_of_cons; [by apply Hmono2 | by apply Hall]).
Qed.

(** X21.  On a remote side that answers (it lists what it holds, and a
    create call leaves a record of that name without losing another), a
    block of the shared shape whose payload carries the wanted name ends
    with every wanted name present, on the remote side and in the dict
    the block hands on. *)
Theorem block_reaches_wanted_names :
  forall (desired : list string) (s : state St),
    ok (server s) ->
    exists d s',
      reconcile R k desired (fun n => ret (f n)) s = (Ok d, s')
      /\ ok (server s')
      /\ forall n, n ∈ desired ->
                   Dict.mem n d = true
                   /\ n ∈ rec_key <$> res (server s') k.
Proof.
  intros desired s Hok. unfold reconcile.
  rewrite bind_run, all_run. cbv zeta.
  destruct (list_sound (server s) Hok) as [Hl1 Hr1]. rewrite Hl1, bind_run.
  pose proof (ok_api (ListAll k) (server s) Hok) as Hok1.
  match goal with
  | |- context [for_each ?l _ ?s1] =>
      destruct (for_each_create_reaches l s1 Hok1)
        as (s2 & Hrun & Hok2 & Hmono & Hall)
  end.
  rewrite Hrun, bind_run, all_run. cbv zeta. cbn [server] in *.
  destruct (list_sound (server s2) Hok2) as [Hl2 Hr2]. rewrite Hl2.
  eexists _, _. split; [reflexivity|]. cbn [server].
  split; [by apply ok_api|].
  assert (Hpresent : forall n, n ∈ desired ->
                               n ∈ rec_key <$> res (server s2) k).
  { intros n Hn.
    destruct (Dict.mem n (by_key (res (server s) k))) eqn:Em.
    - apply Hmono. rewrite Hr1. by apply mem_by_key.
    - apply Hall. unfold absent.
      apply list_elem_of_In, filter_In. split; [by apply list_elem_of_In|].
      by rewrite Em. }
  intros n Hn. specialize (Hpresent n Hn). split; [|by rewrite Hr2].
  by apply mem_by_key.
Qed.
End ReconcilerReach.

Section ReconcilerReachExamples.
Import Reconciler ReconcilerProps.

Lemma get_set_eq {K V} `{EqDecision K} (key : K) (v : V) (d : list (K * V)) :
  Dict.get key (Dict.set key v d) = Some v.
Proof.
  induction d as [|[k' v'] d IH]; simpl.
  - by rewrite decide_True.
  - destruct (decide (key = k')) as [->|Hne]; simpl.
    + by rewrite decide_True.
    + by rewrite decide_False.
Qed.

Lemma sim_create_sound k p st :
  Sim.down st = [] ->
  (forall msg, (Sim.api (Create k p) st).1 <> Failure msg)
  /\ Sim.key_of p ∈ rec_key <$> Sim.records_of (Sim.api (Create k p) st).2 k
  /\ forall n, n ∈ rec_key <$> Sim.records_of st k ->
               n ∈ rec_key <$> Sim.records_of (Sim.api (Create k p) st).2 k.
Proof.
  intros Hdown. unfold Sim.api. rewrite Hdown. simpl.
  case_bool_decide as Hin; simpl.
  - split_and!; done.
  - match goal with
    | |- context [Sim.records_of ?s' k] =>
        assert (Hrec : Sim.records_of s' k
                       = Sim.records_of st k
                         ++ [{| rec_id := Sim.next_id st;
                                rec_key := Sim.key_of p |}])
          by (unfold Sim.records_of at 1; simpl; by rewrite get_set_eq);
        rewrite Hrec
    end.
    rewrite fmap_app. split_and!; [done | |].
    + rewrite elem_of_app. right. by left.
    + intros n Hn. rewrite elem_of_app. by left.
Qed.

Lemma sim_ok_api r st : Sim.down st = [] -> Sim.down (Sim.api r st).2 = [].
Proof.
  intros Hdown. unfold Sim.api. rewrite Hdown. simpl.
  destruct r; simpl; try done. by case_bool_decide.
Qed.

Lemma block_reaches_wanted_names_witness :
  exists d s',
    reconcile Sim.remote Sites ["lab"; "plant"]
      (fun n => ret (SitePayload n n)) (initial (Sim.empty []))
    = (Ok d, s')
    /\ Sim.down (server s') = []
    /\ forall n, n ∈ ["lab"; "plant"] ->
                 Dict.mem n d = true
                 /\ n ∈ rec_key <$> Sim.records_of (server s') Sites.
Proof.
  apply (block_reaches_wanted_names Sim.remote Sim.records_of
           (fun st => Sim.down st = []) Sites (fun n => SitePayload n n)).
  - intros r st. apply sim_ok_api.
  - intros st Hdown. unfold Sim.remote, Sim.api. simpl. by rewrite Hdown.
  - intros p st. apply sim_create_sound.
  - done.
  - done.
Defined.
End ReconcilerReachExamples.

(** ** The connectivity gate and the blocks behind it *)

Section GateFacts.
Import Steps Reconciler ReconcilerProps ReconcilerRun.
Context {St : Type} (R : remote St) (args : arguments).

#[local] Existing Instance grows_preorder.









End GateFacts.

Section GateTheorems.
Import Steps Reconciler ReconcilerProps ReconcilerRun.

End GateTheorems.

Section GateExamples.
Import Reconciler ReconcilerProps ReconcilerRun.


End GateExamples.

(** ** An explicit backup file that is missing *)

Section FallbackFacts.
Import Main.

(** C9.  When the explicit backup path is not a file, the program goes on
    without an exception: [main] returns, and neither the reconciler nor
    the library import runs, whatever else happens.  When the preload
    directory holds a candidate, the file selected is one of them (the
    one with the least modification time), and it is restored in place of
    the file asked for: the steps of the restore are those of the
    sequence run on it, its dump is what the load reads, and the restore
    succeeds or fails as that sequence does.  When there is no candidate,
    nothing is restored. *)
Theorem explicit_missing_backup_falls_back :
  forall St (fs : Backup.filesystem) (e : Restore.env)
         (R : Reconciler.remote St) (args : arguments) (fuel : nat) (st : St),
    preloadBackupFile args <> "" ->
    Backup.isfile fs (preloadBackupFile args) = false ->
    exists o,
      main fs e R args fuel st = Some o
      /\ reconciled o = None
      /\ library_import o = false
      /\ (Backup.isdir fs (preloadDir args) = true ->
          Backup.preloadFiles fs (preloadDir args) <> [] ->
          selected o ∈ Backup.preloadFiles fs (preloadDir args)
          /\ (forall x, x ∈ Backup.preloadFiles fs (preloadDir args) ->
                Backup.getmtime fs (selected o) <= Backup.getmtime fs x)
          /\ RestoreSequence.steps_of (Restore.trace (restore_state o))
             = RestoreSequence.restore_steps fs e (netboxDir args) (selected o)
          /\ Restore.preloadDatabaseSuccess (restore_state o)
             = RestoreSequence.restore_succeeds e (selected o))
      /\ (Backup.isdir fs (preloadDir args) = false
          \/ Backup.preloadFiles fs (preloadDir args) = [] ->
          restore_state o = Restore.initial).
Proof.
  intros St fs e R args fuel st Hexp Hnf.
  assert (Hpop : populate_via_api fs e args = false).
  { unfold populate_via_api. rewrite (bool_decide_false _ Hexp).
    apply andb_false_r. }
  unfold main. rewrite Hpop. simpl. eexists. split; [reflexivity|]. simpl.
  split; [done|]. split; [unfold run_library_import; by rewrite Hpop|]. split.
  - intros Hd Hne.
    pose proof (selected_in_candidates fs _ _ Hnf Hd Hne) as Hin.
    fold (preloadDatabaseFile fs args) in Hin.
    pose proof (preloadFiles_isfile _ _ _ Hin) as Hfile.
    split; [exact Hin|]. split.
    + unfold preloadDatabaseFile, Backup.select_preloadDatabaseFile.
      rewrite Hnf, Hd. simpl.
      by apply (sort_by_key_head (Backup.getmtime fs) "").
    + unfold restored. by apply restore_summary.
  - intros Hno. apply restored_skipped.
    unfold preloadDatabaseFile, Backup.select_preloadDatabaseFile.
    rewrite Hnf. simpl. destruct Hno as [Hd|Hnil].
    + by rewrite Hd.
    + destruct (Backup.isdir fs (preloadDir args)); [|done].
      by rewrite Hnil.
Qed.
End FallbackFacts.

Section FallbackExamples.
Import Main.

Lemma explicit_missing_backup_falls_back_witness :
  exists o,
    main Examples.preload_fs Examples.healthy Sim.remote
      (Examples.main_arguments "/backups/missing.gz" true) 0 (Sim.empty [])
    = Some o
    /\ reconciled o = None
    /\ library_import o = false
    /\ (Backup.isdir Examples.preload_fs "/preload" = true ->
        Backup.preloadFiles Examples.preload_fs "/preload" <> [] ->
        selected o ∈ Backup.preloadFiles Examples.preload_fs "/preload"
        /\ (forall x, x ∈ Backup.preloadFiles Examples.preload_fs "/preload" ->
              Backup.getmtime Examples.preload_fs (selected o)
              <= Backup.getmtime Examples.preload_fs x)
        /\ RestoreSequence.steps_of (Restore.trace (restore_state o))
           = RestoreSequence.restore_steps Examples.preload_fs Examples.healthy
               "/opt/netbox" (selected o)
        /\ Restore.preloadDatabaseSuccess (restore_state o)
           = RestoreSequence.restore_succeeds Examples.healthy (selected o))
    /\ (Backup.isdir Examples.preload_fs "/preload" = false
        \/ Backup.preloadFiles Examples.preload_fs "/preload" = [] ->
        restore_state o = Restore.initial).
Proof.
  apply (explicit_missing_backup_falls_back Sim.st Examples.preload_fs
           Examples.healthy Sim.remote
           (Examples.main_arguments "/backups/missing.gz" true) 0
           (Sim.empty [])); [discriminate | reflexivity].
Defined.

(** The example at work: the file asked for is missing, the oldest dump
    of the preload directory is loaded in its place, and the restore
    succeeds. *)
Lemma missing_backup_example :
  exists o,
    main Examples.preload_fs Examples.healthy Sim.remote
      (Examples.main_arguments "/backups/missing.gz" true) 0 (Sim.empty [])
    = Some o
    /\ selected o = "/preload/2023-06-30.gz"
    /\ Restore.Ran (Restore.LoadDump "-- PostgreSQL database dump") 0 ["ok"]
       ∈ Restore.trace (restore_state o)
    /\ Restore.preloadDatabaseSuccess (restore_state o) = true
    /\ reconciled o = None.
Proof.
  eexists. split; [vm_compute; reflexivity|]. simpl.
  split_and!; try reflexivity. rewrite !elem_of_cons. tauto.
Qed.
End FallbackExamples.

(** ** The manufacturer of a device type *)

Section ManufacturerFacts.
Import Reconciler ReconcilerProps MinHash MinHashProps.

(** C4, as the code has it.  The manufacturer of a new device type is what
    [min_hash_value_by_value] makes of the manufacturers just reconciled:
    the items are sorted by their values, the records, and the keys play
    no part.  The records are pynetbox records, which define no [<], so
    every comparison of two of them raises: with no manufacturer the
    reference is null, with one it is that one, and with two or more the
    sort raises [TypeError], which is no [RequestError]; the block of the
    device types then ends at the first device type it would create,
    logs the error, creates nothing and is left with an empty dict. *)
Theorem device_type_manufacturer_by_value :
  forall St (R : remote St) (manufs : list (string * record))
         (model : string) (s : state St),
    python_sorted (sorted R) ->
    (forall a b, record_lt R a b = None) ->
    (manufs = [] ->
     device_type_payload R manufs model s
     = (Ok (DeviceTypePayload model (slugify R model) None), s))
    /\ (forall k v, manufs = [(k, v)] ->
          device_type_payload R manufs model s
          = (Ok (DeviceTypePayload model (slugify R model) (Some (rec_id v))), s))
    /\ ((2 <= length manufs)%nat ->
        device_type_payload R manufs model s = (Raised "TypeError", s)
        /\ forall wanted pre,
             (api R (ListAll DeviceTypes) (server s)).1 = Records pre ->
             absent (by_key pre) wanted <> [] ->
             exists s',
               block "device types"
                 (reconcile R DeviceTypes wanted (device_type_payload R manufs)) s
               = (Ok [], s')
               /\ trace s'
                  = trace s ++ [ Called (ListAll DeviceTypes) (Records pre);
                                 Logged Error "device types" ]).
Proof.
  intros St R manufs model s Hsorted Hlt.
  destruct (device_type_payload_short R Hsorted model s) as [H0 H1].
  split; [by intros ->|]. split; [by intros k v ->|].
  intros Hlen. split; [by apply device_type_payload_unordered|].
  intros wanted pre Hpre Hne.
  unfold block, reconcile.
  rewrite try_except_run, bind_run, all_run. cbv zeta. rewrite Hpre, bind_run.
  destruct (absent (by_key pre) wanted) as [|x l]; [done|].
  cbn [for_each]. rewrite !bind_run.
  rewrite (device_type_payload_unordered R Hsorted manufs x _ Hlt Hlen).
  eexists. split; [reflexivity|]. simpl. by rewrite <- app_assoc.
Qed.
End ManufacturerFacts.

Section ManufacturerExamples.
Import Reconciler ReconcilerProps MinHash MinHashProps.

Lemma device_type_manufacturer_by_value_witness :
  device_type_payload Sim.remote Examples.two_manufacturers "Unspecified"
    (initial (Sim.empty []))
  = (Raised "TypeError", initial (Sim.empty []))
  /\ forall wanted pre,
       (api Sim.remote (ListAll DeviceTypes) (server (initial (Sim.empty [])))).1
       = Records pre ->
       absent (by_key pre) wanted <> [] ->
       exists s',
         block "device types"
           (reconcile Sim.remote DeviceTypes wanted
              (device_type_payload Sim.remote Examples.two_manufacturers))
           (initial (Sim.empty []))
         = (Ok [], s')
         /\ trace s'
            = trace (initial (Sim.empty []))
              ++ [ Called (ListAll DeviceTypes) (Records pre);
                   Logged Error "device types" ].
Proof.
  apply (device_type_manufacturer_by_value Sim.st Sim.remote
           Examples.two_manufacturers "Unspecified" (initial (Sim.empty []))).
  - apply insertion_sort_python_sorted.
  - reflexivity.
  - simpl. lia.
Defined.

(** The two helpers on two manufacturers, "Alpha" with id 7 and "Beta"
    with id 3: by key the first is "Alpha"; by value the sort raises. *)
Lemma two_manufacturers_by_key_and_by_value :
  min_hash_value_by_key InsertionSort.sorted str_lt Examples.two_manufacturers
  = Ok (Some {| rec_id := 7; rec_key := "Alpha" |})
  /\ min_hash_value_by_value InsertionSort.sorted (record_lt Sim.remote)
       Examples.two_manufacturers
     = Raised "TypeError".
Proof. split; reflexivity. Qed.

(** A whole run that wants two manufacturers and one device type, on an
    empty remote side that answers every call: both manufacturers are
    created, the block of the device types logs its error, and no device
    type is created. *)
Lemma no_device_type_with_two_manufacturers :
  exists s',
    reconciler Sim.remote Examples.two_manufacturer_arguments 0
      (initial (Sim.empty [])) = Some s'
    /\ rec_key <$> Sim.records_of (server s') Manufacturers = ["Alpha"; "Beta"]
    /\ Sim.records_of (server s') DeviceTypes = []
    /\ Logged Error "device types" ∈ trace s'
    /\ forall p resp, Called (Create DeviceTypes p) resp ∉ trace s'.
Proof.
  eexists. split; [vm_compute; reflexivity|].
  split; [reflexivity|]. split; [reflexivity|]. split.
  - simpl. rewrite !elem_of_cons. tauto.
  - intros p resp Hin. simpl in Hin.
    repeat (apply elem_of_cons in Hin as [Hin|Hin]; [discriminate|]).
    by apply elem_of_nil in Hin.
Qed.
End ManufacturerExamples.
